(** * NQobj: named quantum objects

    A shallow embedding of [lib/NQobj.py].  A named quantum object wraps a
    backend matrix object (QuTiP's [Qobj]) with two lists of mode names, one
    per axis, and a [kind] tag.  The development follows the Python source
    function by function; Python exceptions are results of an error monad. *)

From Stdlib Require Import String List ZArith Lia Bool Arith Permutation Ring.
Import ListNotations.

Set Implicit Arguments.

(** ** Python exceptions and the error monad

    [MemoryFault] is not a Python exception: it marks a call of a compiled
    backend routine that would read outside its arrays, where the behaviour
    of the program is not defined. *)

Inductive exn : Type :=
| AttributeError (msg : string)
| ValueError (msg : string)
| TypeError (msg : string)
| IndexError (msg : string)
| AssertionError (msg : string)
| MemoryFault (msg : string).

Inductive result (A : Type) : Type :=
| Ok (a : A)
| Raise (e : exn).

Arguments Ok {A} a.
Arguments Raise {A} e.

Definition bind {A B : Type} (m : result A) (k : A -> result B) : result B :=
  match m with
  | Ok a => k a
  | Raise e => Raise e
  end.

Declare Scope py_scope.
Delimit Scope py_scope with py.
Notation "x <- m ;; k" := (bind m (fun x => k))
  (at level 61, m at next level, right associativity) : py_scope.
Notation "' p <- m ;; k" := (bind m (fun p => k))
  (at level 61, p pattern, m at next level, right associativity) : py_scope.
Open Scope py_scope.

Definition is_ok {A : Type} (m : result A) : bool :=
  match m with Ok _ => true | Raise _ => false end.

(** [mapM f l] runs [f] over [l] from left to right and stops at the first
    exception, as a Python list comprehension or [for] loop does. *)
Fixpoint mapM {A B : Type} (f : A -> result B) (l : list A) : result (list B) :=
  match l with
  | [] => Ok []
  | x :: t => y <- f x ;; ys <- mapM f t ;; Ok (y :: ys)
  end.

(** ** Python list primitives on names *)

Definition name_eqb : string -> string -> bool := String.eqb.

Definition mem (x : string) (l : list string) : bool :=
  existsb (name_eqb x) l.

(** [l.index(x)]: position of the first occurrence. *)
Fixpoint index_of (x : string) (l : list string) : option nat :=
  match l with
  | [] => None
  | y :: t => if name_eqb y x then Some 0 else option_map S (index_of x t)
  end.

Definition py_index (l : list string) (x : string) : result nat :=
  match index_of x l with
  | Some i => Ok i
  | None => Raise (ValueError "x is not in list")
  end.

(** [l[i]] for a non-negative [i]. *)
Definition py_getitem {A : Type} (l : list A) (i : nat) : result A :=
  match nth_error l i with
  | Some a => Ok a
  | None => Raise (IndexError "list index out of range")
  end.

(** [[l[i] for i in order]] *)
Definition py_select {A : Type} (l : list A) (order : list nat) : result (list A) :=
  mapM (py_getitem l) order.

(** [list(dict.fromkeys(l))]: duplicates removed, first occurrence kept. *)
Fixpoint dedupe (l : list string) : list string :=
  match l with
  | [] => []
  | x :: t => x :: filter (fun y => negb (name_eqb y x)) (dedupe t)
  end.

(** [len(l) != len(set(l))] *)
Fixpoint has_dup (l : list string) : bool :=
  match l with
  | [] => false
  | x :: t => mem x t || has_dup t
  end.

(** [l.remove(x)]: delete the first occurrence; [None] stands for the
    [ValueError] of an absent element. *)
Fixpoint remove_first (x : string) (l : list string) : option (list string) :=
  match l with
  | [] => None
  | y :: t => if name_eqb y x then Some t
              else option_map (cons y) (remove_first x t)
  end.

(** [l[i] = v] for an index that [l.index] has just returned. *)
Fixpoint set_nth (l : list string) (i : nat) (v : string) : list string :=
  match l, i with
  | [], _ => []
  | _ :: t, O => v :: t
  | y :: t, S j => y :: set_nth t j v
  end.

(** ** The tensor backend

    The backend is QuTiP, which is not part of the repository.  Its objects
    are modelled as the source uses them: a sparse matrix in coordinate
    form (the [row], [col] and [data] arrays that [_permute2] reads from
    [Q.data.tocoo()]) together with the two dimension vectors [dims].
    Matrix entries are exact Gaussian integers; rounding of the backend's
    complex floating-point numbers is outside this development.  Where a
    result depends on the arithmetic of the entries, sums and products
    above all, the properties name the backend operation and its operands
    and leave the values of the entries to the backend. *)

Record cplx : Type := Cplx { re : Z; im : Z }.

Definition c0 : cplx := Cplx 0 0.
Definition c1 : cplx := Cplx 1 0.
Definition cadd (a b : cplx) : cplx := Cplx (re a + re b) (im a + im b).
Definition cmul (a b : cplx) : cplx :=
  Cplx (re a * re b - im a * im b) (re a * im b + im a * re b).
Definition copp (a : cplx) : cplx := Cplx (- re a) (- im a).
Definition csub (a b : cplx) : cplx := cadd a (copp b).
Definition cconj (a : cplx) : cplx := Cplx (re a) (- im a).
Definition ceqb (a b : cplx) : bool := (re a =? re b)%Z && (im a =? im b)%Z.

Record coo : Type := Coo {
  nrows : nat;
  ncols : nat;
  trip : list (nat * nat * cplx)
}.

Record Qobj : Type := MkQobj {
  data : coo;
  dims : list nat * list nat
}.

Definition shape (Q : Qobj) : nat * nat := (nrows (data Q), ncols (data Q)).

Definition prod_dims (d : list nat) : nat := fold_right Nat.mul 1 d.

(** The value of the matrix at [(r, c)]: coordinate format sums the stored
    values that share a position. *)
Definition entry (m : coo) (r c : nat) : cplx :=
  fold_right
    (fun t acc =>
       match t with
       | (r', c', v) => if (r' =? r) && (c' =? c) then cadd v acc else acc
       end)
    c0 (trip m).

(** Modelled from the spec: the backend's structural predicates [is_ket],
    [is_bra], [is_operator], which QuTiP derives from [dims]: a row of
    total dimension one is a bra, else a column of total dimension one is
    a ket, else the object is an operator. *)
Inductive qtype : Type := TKet | TBra | TOper.

Definition type_from_dims (d : list nat * list nat) : qtype :=
  if prod_dims (fst d) =? 1 then TBra
  else if prod_dims (snd d) =? 1 then TKet
  else TOper.

Definition qtype_eqb (a b : qtype) : bool :=
  match a, b with
  | TKet, TKet | TBra, TBra | TOper, TOper => true
  | _, _ => false
  end.

Definition type (Q : Qobj) : qtype := type_from_dims (dims Q).
Definition isket (Q : Qobj) : bool := qtype_eqb (type Q) TKet.
Definition isbra (Q : Qobj) : bool := qtype_eqb (type Q) TBra.
Definition isoper (Q : Qobj) : bool := qtype_eqb (type Q) TOper.

Definition list_nat_eqb (a b : list nat) : bool :=
  if list_eq_dec Nat.eq_dec a b then true else false.

Definition names_eqb (a b : list string) : bool :=
  if list_eq_dec string_dec a b then true else false.

Definition dims_eqb (a b : list nat * list nat) : bool :=
  list_nat_eqb (fst a) (fst b) && list_nat_eqb (snd a) (snd b).

(** Modelled from the spec: the backend's [tidyup], which removes the
    stored values below its tolerance; among Gaussian integers these are
    the zero values. *)
Definition tidy_coo (m : coo) : coo :=
  Coo (nrows m) (ncols m)
      (filter (fun t => negb (ceqb (snd t) c0)) (trip m)).

Definition tidyup (Q : Qobj) : Qobj := MkQobj (tidy_coo (data Q)) (dims Q).

(** The backend setting [settings.auto_tidyup], at its default. *)
Definition auto_tidyup : bool := true.

(** Modelled from the spec: the backend primitive [equals].  QuTiP compares
    [dims] and then the entries up to its tolerance. *)
Definition coo_eqb (a b : coo) : bool :=
  forallb (fun r => forallb (fun c => ceqb (entry a r c) (entry b r c))
                            (seq 0 (ncols a)))
          (seq 0 (nrows a)).

Definition Qobj_eq (A B : Qobj) : result bool :=
  if dims_eqb (dims A) (dims B) then
    if (nrows (data A) =? nrows (data B)) && (ncols (data A) =? ncols (data B))
    then Ok (coo_eqb (data A) (data B))
    else Raise (ValueError "inconsistent shapes")
  else Ok false.

(** Modelled from the spec: the backend predicate [is_hermitian]. *)
Definition isherm (Q : Qobj) : bool :=
  (nrows (data Q) =? ncols (data Q)) &&
  forallb (fun r => forallb (fun c => ceqb (entry (data Q) r c)
                                           (cconj (entry (data Q) c r)))
                            (seq 0 (ncols (data Q))))
          (seq 0 (nrows (data Q))).

(** ** Named quantum objects *)

Inductive kind_t : Type := oper | state.

Definition kind_eqb (a b : kind_t) : bool :=
  match a, b with
  | oper, oper | state, state => true
  | _, _ => false
  end.

Record NQobj : Type := MkNQobj {
  qobj : Qobj;
  names : list string * list string;
  kind : kind_t
}.

(** The [shape_dims] property. *)
Definition shape_dims (Q : Qobj) : nat * nat :=
  (length (fst (dims Q)), length (snd (dims Q))).

(** The [names] keyword argument in the shapes [__init__] tells apart. *)
Inductive names_arg : Type :=
| NamesNone
| NamesStr (s : string)
| NamesList (l : list string)
| NamesPair (l0 l1 : list string)
| NamesOther.

(** The [kind] keyword argument: ["oper"], ["state"], [None] or anything
    else. *)
Inductive kind_arg : Type :=
| KindGiven (k : kind_t)
| KindNone
| KindOther.

Definition same_set (a b : list string) : bool :=
  forallb (fun x => mem x b) a && forallb (fun x => mem x a) b.

(** [sorted(a) == sorted(b)] on dimension vectors, decided by counting. *)
Definition same_multiset (a b : list nat) : bool :=
  (length a =? length b) &&
  forallb (fun x => count_occ Nat.eq_dec a x =? count_occ Nat.eq_dec b x) a.

Definition init_names (Q : Qobj) (na : names_arg)
  : result (list string * list string) :=
  match na with
  | NamesNone => Raise (AttributeError "names is a compulsary attribute.")
  | NamesPair l0 l1 =>
      if has_dup l0 || has_dup l1 then
        Raise (ValueError "Do not use duplicate names.")
      else if negb ((length l0 =? fst (shape_dims Q)) &&
                    (length l1 =? snd (shape_dims Q))) then
        Raise (ValueError "The number of names must match the shape_dims.")
      else Ok (l0, l1)
  | NamesList l =>
      if has_dup l then
        Raise (ValueError "Do not use duplicate names.")
      else if negb ((length l =? fst (shape_dims Q)) &&
                    (length l =? snd (shape_dims Q))) then
        Raise (ValueError "The number of names must match the shape_dims.")
      else Ok (l, l)
  | NamesStr s =>
      if negb ((fst (shape_dims Q) =? 1) && (snd (shape_dims Q) =? 1)) then
        Raise (ValueError
                 "Names can only be a string if there shape_dims is (1, 1).")
      else Ok ([s], [s])
  | NamesOther => Raise (TypeError "names should be a string or 1d or 2d list ")
  end.

Definition init_kind (Q : Qobj) (nm : list string * list string)
           (ka : kind_arg) : result kind_t :=
  match ka with
  | KindGiven k => Ok k
  | KindNone =>
      if isoper Q then
        if same_set (fst nm) (snd nm) &&
           same_multiset (fst (dims Q)) (snd (dims Q)) && isherm Q
        then Raise (ValueError
          "The kind cannot be determined automatically and should be provedid as kw")
        else Ok oper
      else Ok state
  | KindOther => Raise (ValueError "kind can only be oper, state, None")
  end.

(** [NQobj.__init__] applied to a backend object. *)
Definition NQobj_init (Q : Qobj) (na : names_arg) (ka : kind_arg)
  : result NQobj :=
  nm <- init_names Q na ;;
  k <- init_kind Q nm ka ;;
  Ok (MkNQobj Q nm k).

(** [name(Q, names, kind)] and the constructor on an existing [NQobj], whose
    names are inherited when none are given. *)
Definition NQobj_of (x : NQobj) (na : names_arg) (ka : kind_arg)
  : result NQobj :=
  match na with
  | NamesNone => NQobj_init (qobj x) (NamesPair (fst (names x)) (snd (names x))) ka
  | _ => NQobj_init (qobj x) na ka
  end.

(** [_dim_of_name]: the pair of dimensions of a mode, [None] on an axis that
    lacks the name. *)
Definition dim_on (ns : list string) (ds : list nat) (name : string)
  : result (option nat) :=
  match index_of name ns with
  | Some i => d <- py_getitem ds i ;; Ok (Some d)
  | None => Ok None
  end.

Definition _dim_of_name (x : NQobj) (name : string)
  : result (option nat * option nat) :=
  d0 <- dim_on (fst (names x)) (fst (dims (qobj x))) name ;;
  d1 <- dim_on (snd (names x)) (snd (dims (qobj x))) name ;;
  Ok (d0, d1).

Definition is_one (d : option nat) : bool :=
  match d with
  | Some 1 => true
  | _ => false
  end.

(** [[x for x in l if keep(x)]] where [keep] may raise. *)
Fixpoint filterM {A : Type} (f : A -> result bool) (l : list A)
  : result (list A) :=
  match l with
  | [] => Ok []
  | x :: t =>
      b <- f x ;; r <- filterM f t ;; Ok (if b then x :: r else r)
  end.

(** The first half of [_mul_find_required_names]: the list [overlap]. *)
Definition _mul_overlap (Q_left Q_right : NQobj) : result (list string) :=
  names_Q_right_for_overlap <-
    filterM (fun name => d <- _dim_of_name Q_right name ;;
                         Ok (negb (is_one (fst d))))
            (fst (names Q_right)) ;;
  names_Q_left_for_overlap <-
    filterM (fun name => d <- _dim_of_name Q_left name ;;
                         Ok (negb (is_one (snd d))))
            (snd (names Q_left)) ;;
  let overlap :=
    if kind_eqb (kind Q_right) state && kind_eqb (kind Q_left) oper
    then names_Q_right_for_overlap ++ names_Q_left_for_overlap
    else names_Q_left_for_overlap ++ names_Q_right_for_overlap in
  Ok (dedupe overlap).

Definition _mul_find_required_names (Q_left Q_right : NQobj)
  : result ((list string * list string) * (list string * list string)) :=
  overlap <- _mul_overlap Q_left Q_right ;;
  let names_Q_left := (dedupe (overlap ++ fst (names Q_left)),
                       dedupe (overlap ++ snd (names Q_left))) in
  let names_Q_right := (dedupe (overlap ++ fst (names Q_right)),
                        dedupe (overlap ++ snd (names Q_right))) in
  Ok (names_Q_left, names_Q_right).

Definition _add_find_required_names (Q_left Q_right : NQobj)
  : list string * list string :=
  (dedupe (fst (names Q_left) ++ fst (names Q_right)),
   dedupe (snd (names Q_left) ++ snd (names Q_right))).

(** ** Backend primitives in coordinate form *)

(** Modelled from the spec: the backend's remapping of one coordinate
    index ([cy_index_permute]) according to a dimension vector and an
    order.  The routine writes the index in the mixed radix [dims], last
    position least significant, then assembles the digits picked by
    [order], again from the last position.  It reads [order] at every
    position of [dims]: an order that is too short, or that points outside
    [dims], is a [MemoryFault]. *)
Fixpoint decompose_r (rdims : list nat) (idx : nat) : list nat :=
  match rdims with
  | [] => []
  | d :: t => (idx mod d) :: decompose_r t (idx / d)
  end.

Definition multi_index (ds : list nat) (idx : nat) : list nat :=
  rev (decompose_r (rev ds) idx).

Fixpoint assemble_r (rdigits rdims : list nat) (dim : nat) : nat :=
  match rdigits, rdims with
  | x :: xs, d :: t => x * dim + assemble_r xs t (dim * d)
  | _, _ => 0
  end.

Definition flat_index (ds digits : list nat) : nat :=
  assemble_r (rev digits) (rev ds) 1.

Definition pick (l : list nat) (order : list nat) : list nat :=
  map (fun i => nth i l 0) order.

Definition cy_index_permute (ds order : list nat) (idx : nat) : result nat :=
  let o := firstn (length ds) order in
  if (length o =? length ds) && forallb (fun i => i <? length ds) o then
    Ok (flat_index (pick ds o) (pick (multi_index ds idx) o))
  else Raise (MemoryFault "cy_index_permute reads outside its arrays").

Definition permute_rows (ds order : list nat) (t : nat * nat * cplx)
  : result (nat * nat * cplx) :=
  match t with
  | (r, c, v) => r' <- cy_index_permute ds order r ;; Ok (r', c, v)
  end.

Definition permute_cols (ds order : list nat) (t : nat * nat * cplx)
  : result (nat * nat * cplx) :=
  match t with
  | (r, c, v) => c' <- cy_index_permute ds order c ;; Ok (r, c', v)
  end.

(** Modelled from the spec: the backend's native permutation [_permute],
    which applies one order to the rows of a ket, the columns of a bra and
    both axes of an operator. *)
Definition _permute (Q : Qobj) (order : list nat)
  : result (coo * (list nat * list nat)) :=
  match type Q with
  | TKet =>
      t <- mapM (permute_rows (fst (dims Q)) order) (trip (data Q)) ;;
      d0 <- py_select (fst (dims Q)) order ;;
      Ok (Coo (nrows (data Q)) (ncols (data Q)) t, (d0, snd (dims Q)))
  | TBra =>
      t <- mapM (permute_cols (snd (dims Q)) order) (trip (data Q)) ;;
      d1 <- py_select (snd (dims Q)) order ;;
      Ok (Coo (nrows (data Q)) (ncols (data Q)) t, (fst (dims Q), d1))
  | TOper =>
      t <- mapM (permute_rows (fst (dims Q)) order) (trip (data Q)) ;;
      t' <- mapM (permute_cols (snd (dims Q)) order) t ;;
      d0 <- py_select (fst (dims Q)) order ;;
      d1 <- py_select (snd (dims Q)) order ;;
      Ok (Coo (nrows (data Q)) (ncols (data Q)) t', (d0, d1))
  end.

(** The [order] argument of [permute] in the shapes the dynamic type tests
    of the source tell apart: a list of names, a pair of lists of names, a
    list of positions, a pair of lists of positions. *)
Inductive order_arg : Type :=
| OrderNames (l : list string)
| OrderNamesPair (l0 l1 : list string)
| OrderIdx (l : list nat)
| OrderIdxPair (l0 l1 : list nat).

(** What [permute] hands to [_permute2] once names are resolved. *)
Inductive idx_order : Type :=
| Flat (o : list nat)
| Pair (o0 o1 : list nat).

(** [_permute2].  Every object of the model is a ket, a bra or an operator,
    so the final [else] of the source, for the other backend types, has no
    counterpart here.  A flat order goes to the backend's [_permute], except
    on an operator whose two dimension vectors differ, which is refused; a
    pair of orders is applied by hand, rows then columns. *)
Definition _permute2 (Q : Qobj) (order : idx_order)
  : result (coo * (list nat * list nat)) :=
  let equal_dims := list_nat_eqb (fst (dims Q)) (snd (dims Q)) in
  match order with
  | Flat o =>
      if isoper Q then
        if equal_dims then _permute Q o
        else Raise (TypeError
               "Order should be a list of int or a list of two list with int.")
      else _permute Q o
  | Pair o0 o1 =>
      t <- mapM (permute_rows (fst (dims Q)) o0) (trip (data Q)) ;;
      t' <- mapM (permute_cols (snd (dims Q)) o1) t ;;
      d0 <- py_select (fst (dims Q)) o0 ;;
      d1 <- py_select (snd (dims Q)) o1 ;;
      Ok (Coo (nrows (data Q)) (ncols (data Q)) t', (d0, d1))
  end.

(** Modelled from the spec: the backend primitives [identity] and
    [basis_vector] (QuTiP's [qeye(N)] and [basis(N, 0)]); a dimension that
    is [None] is a type error. *)
Definition qeye (N : option nat) : result Qobj :=
  match N with
  | None => Raise (TypeError "qeye: N must be an integer")
  | Some n =>
      Ok (MkQobj (Coo n n (map (fun i => (i, i, c1)) (seq 0 n))) ([n], [n]))
  end.

Definition basis (N : option nat) : result Qobj :=
  match N with
  | None => Raise (TypeError "basis: N must be an integer")
  | Some 0 => Raise (ValueError "basis vector index need to be in n <= N-1")
  | Some n => Ok (MkQobj (Coo n 1 [(0, 0, c1)]) ([n], [1]))
  end.

(** Modelled from the spec: the backend primitives [adjoint], [transpose],
    [negate] and multiplication by a number. *)
Definition map_trip (f : nat * nat * cplx -> nat * nat * cplx) (m : coo)
           (nr nc : nat) : coo :=
  Coo nr nc (map f (trip m)).

Definition Qobj_dag (Q : Qobj) : Qobj :=
  MkQobj (map_trip (fun t => match t with (r, c, v) => (c, r, cconj v) end)
                   (data Q) (ncols (data Q)) (nrows (data Q)))
         (snd (dims Q), fst (dims Q)).

Definition Qobj_trans (Q : Qobj) : Qobj :=
  MkQobj (map_trip (fun t => match t with (r, c, v) => (c, r, v) end)
                   (data Q) (ncols (data Q)) (nrows (data Q)))
         (snd (dims Q), fst (dims Q)).

Definition Qobj_scale (z : cplx) (Q : Qobj) : Qobj :=
  tidyup
    (MkQobj (map_trip (fun t => match t with (r, c, v) => (r, c, cmul v z) end)
                      (data Q) (nrows (data Q)) (ncols (data Q)))
            (dims Q)).

Definition Qobj_neg (Q : Qobj) : Qobj :=
  tidyup
    (MkQobj (map_trip (fun t => match t with (r, c, v) => (r, c, copp v) end)
                      (data Q) (nrows (data Q)) (ncols (data Q)))
            (dims Q)).

(** Modelled from the spec: the backend primitive [tensor_product], the
    Kronecker product of the matrices with the dimension vectors
    concatenated, folded over the arguments from the left. *)
Definition kron (A B : coo) : coo :=
  Coo (nrows A * nrows B) (ncols A * ncols B)
      (flat_map
         (fun ta =>
            map (fun tb =>
                   match ta, tb with
                   | (r1, c1, v1), (r2, c2, v2) =>
                       (r1 * nrows B + r2, c1 * ncols B + c2, cmul v1 v2)
                   end)
                (trip B))
         (trip A)).

Definition kron_step (out q : Qobj) : Qobj :=
  MkQobj (kron (data out) (data q))
         (fst (dims out) ++ fst (dims q), snd (dims out) ++ snd (dims q)).

Definition qt_tensor (qlist : list Qobj) : result Qobj :=
  match qlist with
  | [] => Raise (TypeError "Requires at least one input argument")
  | q :: rest => Ok (tidyup (fold_left kron_step rest q))
  end.

(** Modelled from the spec: the backend primitive [matrix_multiply] on two
    backend objects.  QuTiP multiplies when the inner dimension vectors
    agree; it also multiplies a column by a row whose dimension vectors
    differ; otherwise a 1x1 operand acts as a scalar.  The dimension
    vectors of a product are the row dimensions of the left operand and the
    column dimensions of the right one, from which every position where
    both are one is dropped; the two vectors are paired with
    [zip_longest], so the longer one keeps its tail. *)
Definition matmul (A B : coo) : coo :=
  Coo (nrows A) (ncols B)
      (flat_map
         (fun ta =>
            flat_map (fun tb =>
                        match ta, tb with
                        | (r1, c1, v1), (r2, c2, v2) =>
                            if c1 =? r2 then [(r1, c2, cmul v1 v2)] else []
                        end)
                     (trip B))
         (trip A)).

Definition option_nat_eqb (a b : option nat) : bool :=
  match a, b with
  | Some x, Some y => x =? y
  | None, None => true
  | _, _ => false
  end.

Fixpoint zip_longest (d0 d1 : list nat) : list (option nat * option nat) :=
  match d0 with
  | [] => map (fun y => (None, Some y)) d1
  | x :: t0 =>
      match d1 with
      | [] => (Some x, None) :: zip_longest t0 []
      | y :: t1 => (Some x, Some y) :: zip_longest t0 t1
      end
  end.

Definition tidy_dims (d0 d1 : list nat) : list nat * list nat :=
  let mask := map (fun p => option_nat_eqb (fst p) (Some 1) &&
                            option_nat_eqb (snd p) (Some 1))
                  (zip_longest d0 d1) in
  let keep (d : list nat) :=
    map fst (filter (fun p => negb (snd p)) (combine d mask)) in
  let at_least_one (l : list nat) :=
    match l with
    | [] => [1]
    | 0 :: _ => [1]
    | _ => l
    end in
  (at_least_one (keep d0), at_least_one (keep d1)).

Definition Qobj_product (A B : Qobj) : Qobj :=
  tidyup (MkQobj (matmul (data A) (data B))
                 (tidy_dims (fst (dims A)) (snd (dims B)))).

Definition Qobj_mul (A B : Qobj) : result Qobj :=
  if list_nat_eqb (snd (dims A)) (fst (dims B)) then
    if ncols (data A) =? nrows (data B) then Ok (Qobj_product A B)
    else Raise (ValueError "dimension mismatch")
  else if (nrows (data A) =? 1) && (ncols (data A) =? 1) then
    Ok (Qobj_scale (entry (data A) 0 0) B)
  else if (nrows (data B) =? 1) && (ncols (data B) =? 1) then
    Ok (Qobj_scale (entry (data B) 0 0) A)
  else if (ncols (data A) =? 1) && (nrows (data B) =? 1) then
    Ok (Qobj_product A B)
  else Raise (TypeError "Incompatible Qobj shapes").

(** Modelled from the spec: the backend's addition of two objects with the
    same dimension vectors.  QuTiP also adds a 1x1 object to any other as a
    scalar; that broadcast is left out, and the model refuses operands
    whose dimension vectors differ. *)
Definition Qobj_add (A B : Qobj) : result Qobj :=
  if negb (dims_eqb (dims A) (dims B)) then
    Raise (TypeError "Incompatible quantum object dimensions")
  else if negb ((nrows (data A) =? nrows (data B)) &&
                (ncols (data A) =? ncols (data B))) then
    Raise (TypeError "Matrix shapes do not match")
  else
    Ok (tidyup (MkQobj (Coo (nrows (data A)) (ncols (data A))
                            (trip (data A) ++ trip (data B)))
                       (dims A))).

(** The backend primitives whose results the development never inspects:
    partial trace, projector, normalisation, power and matrix exponential.
    They are kept abstract; [NQobj] re-wraps whatever they return. *)
Class Backend : Type := {
  qt_ptrace : Qobj -> list nat -> result Qobj;
  qt_proj : Qobj -> result Qobj;
  qt_unit : Qobj -> result Qobj;
  qt_pow : Qobj -> Z -> result Qobj;
  qt_expm : Qobj -> result Qobj
}.

(** ** Name resolution and expansion helpers *)

(** Python does not fix the order in which a [set] is listed.  A
    [set_order] is one way of listing sets: any function that lists the
    distinct elements of its argument in some order. *)
Record set_order : Type := MkSetOrder {
  enum : list string -> list string;
  enum_perm : forall l, Permutation (enum l) (dedupe l)
}.

(** [list(set(required[i]) - set(names[i]))] on each axis. *)
Definition _find_missing_names (so : set_order)
           (nm required_names : list string * list string)
  : list string * list string :=
  (enum so (filter (fun x => negb (mem x (fst nm))) (fst required_names)),
   enum so (filter (fun x => negb (mem x (snd nm))) (snd required_names))).

Definition dims_pair : Type := (option nat * option nat)%type.

(** The dictionary is listed in insertion order, which is the order in
    which the set of missing names is traversed. *)
Definition _find_missing_dict (so : set_order)
           (missing_names : list string * list string) (Q_other : NQobj)
           (transpose : bool) : result (list (string * dims_pair)) :=
  mapM (fun name =>
          d <- _dim_of_name Q_other name ;;
          let d0 := if mem name (fst missing_names) then fst d else None in
          let d1 := if mem name (snd missing_names) then snd d else None in
          Ok (name, if transpose then (d1, d0) else (d0, d1)))
       (enum so (fst missing_names ++ snd missing_names)).

Definition all_kinds_equal (k : kind_t) (l : list NQobj) : bool :=
  forallb (fun x => kind_eqb (kind x) k) l.

(** The module-level function [tensor] on its argument list. *)
Definition tensor (args : list NQobj) : result NQobj :=
  let names0 := concat (map (fun a => fst (names a)) args) in
  let names1 := concat (map (fun a => snd (names a)) args) in
  q <- qt_tensor (map qobj args) ;;
  match args with
  | [] => Raise (IndexError "index 0 is out of bounds")
  | a :: _ =>
      if negb (all_kinds_equal (kind a) args) then
        Raise (AttributeError
          "For tensor product the kind of all NQobj should be the same.")
      else NQobj_init q (NamesPair names0 names1) (KindGiven (kind a))
  end.

(** The filler mode that [_adding_missing_modes] builds for one entry of
    the dictionary. *)
Definition filler_mode (k : kind_t) (entry : string * dims_pair)
  : result NQobj :=
  let name := fst entry in
  let d0 := fst (snd entry) in
  let d1 := snd (snd entry) in
  match k with
  | oper =>
      if option_nat_eqb d0 d1 then
        q <- qeye d0 ;; NQobj_init q (NamesStr name) (KindGiven oper)
      else Raise (AssertionError
                    "For adding eye matrixes they need to be square")
  | state =>
      match d0, d1 with
      | Some _, Some _ =>
          b0 <- basis d0 ;;
          b1 <- basis d1 ;;
          q <- Qobj_mul b0 (Qobj_dag b1) ;;
          NQobj_init q (NamesStr name) (KindGiven state)
      | None, _ =>
          b1 <- basis d1 ;;
          NQobj_init (Qobj_dag b1) (NamesPair [] [name]) (KindGiven state)
      | Some _, None =>
          b0 <- basis d0 ;;
          NQobj_init b0 (NamesStr name) (KindGiven state)
      end
  end.

Definition _adding_missing_modes (Q : NQobj)
           (dict_missing_modes : list (string * dims_pair)) (k : kind_t)
  : result NQobj :=
  modes <- mapM (filler_mode k) dict_missing_modes ;;
  tensor (Q :: modes).

(** ** Methods of [NQobj] *)

Definition copy (x : NQobj) : result NQobj :=
  NQobj_init (qobj x) (NamesPair (fst (names x)) (snd (names x)))
             (KindGiven (kind x)).

Definition names_pair_eqb (a b : list string * list string) : bool :=
  names_eqb (fst a) (fst b) && names_eqb (snd a) (snd b).

(** The first part of [permute]: names are turned into positions. *)
Definition resolve_order (x : NQobj) (order : order_arg) : result idx_order :=
  let by_names l :=
    if names_eqb (fst (names x)) (snd (names x)) then
      o <- mapM (py_index (fst (names x))) l ;; Ok (Flat o)
    else
      o0 <- mapM (py_index (fst (names x))) l ;;
      o1 <- mapM (py_index (snd (names x))) l ;;
      Ok (Pair o0 o1) in
  match order with
  | OrderNames l => by_names l
  | OrderIdx [] => by_names []
  | OrderNamesPair l0 l1 =>
      o0 <- mapM (py_index (fst (names x))) l0 ;;
      o1 <- mapM (py_index (snd (names x))) l1 ;;
      Ok (Pair o0 o1)
  | OrderIdx o => Ok (Flat o)
  | OrderIdxPair o0 o1 => Ok (Pair o0 o1)
  end.

Definition permute (x : NQobj) (order : order_arg) : result NQobj :=
  o <- resolve_order x order ;;
  '(d, ds) <- _permute2 (qobj x) o ;;
  let q := if auto_tidyup then tidyup (MkQobj d ds) else MkQobj d ds in
  let o01 := match o with
             | Flat o => (o, o)
             | Pair o0 o1 => (o0, o1)
             end in
  names_0 <- py_select (fst (names x)) (fst o01) ;;
  names_1 <- py_select (snd (names x)) (snd o01) ;;
  NQobj_init q (NamesPair names_0 names_1) (KindGiven (kind x)).

(** What can stand on the right of [+] and [*]. *)
Inductive pyval : Type :=
| VNQobj (x : NQobj)
| VQobj (q : Qobj)
| VNumber (z : cplx)
| VOther.

(** [__add__] returns [None] where the source evaluates [NotImplemented]
    without returning it. *)
Definition __add__ (so : set_order) (self : NQobj) (other : pyval)
  : result (option NQobj) :=
  match other with
  | VNQobj other =>
      if negb (qtype_eqb (type (qobj self)) (type (qobj other))) then
        Raise (ValueError
          "Addition and substraction are only allowed for two NQobj of the same type.")
      else if negb (kind_eqb (kind self) (kind other)) then
        Raise (ValueError
          "Addition and substraction are only allowed for two NQobj of the same kind.")
      else if isket (qobj self) || isbra (qobj self) || isoper (qobj self) then
        let nm := _add_find_required_names self other in
        let missing_self := _find_missing_names so (names self) nm in
        let missing_other := _find_missing_names so (names other) nm in
        missing_dict_self <- _find_missing_dict so missing_self other false ;;
        missing_dict_other <- _find_missing_dict so missing_other self false ;;
        self1 <- _adding_missing_modes self missing_dict_self (kind self) ;;
        self2 <- permute self1 (OrderNamesPair (fst nm) (snd nm)) ;;
        other1 <- _adding_missing_modes other missing_dict_other (kind other) ;;
        other2 <- permute other1 (OrderNamesPair (fst nm) (snd nm)) ;;
        Qobj_result <- Qobj_add (qobj self2) (qobj other2) ;;
        r <- NQobj_init Qobj_result (NamesPair (fst nm) (snd nm))
                        (KindGiven (kind self2)) ;;
        Ok (Some r)
      else Ok None
  | _ => Ok None
  end.

Inductive mul_ret : Type :=
| RetNQobj (x : NQobj)
| RetQobj (q : Qobj)
| RetNone.

(** The loop of [__mul__] that drops the names of modes reduced to a
    scalar; it runs over a copy of the row names. *)
Fixpoint drop_scalar_modes (self other : NQobj) (todo : list string)
         (nm : list string * list string)
  : result (list string * list string) :=
  match todo with
  | [] => Ok nm
  | name :: rest =>
      ds <- _dim_of_name self name ;;
      nm' <-
        (if is_one (fst ds) then
           dt <- _dim_of_name other name ;;
           if is_one (snd dt) then
             match remove_first name (fst nm), remove_first name (snd nm) with
             | Some n0, Some n1 => Ok (n0, n1)
             | _, _ => Raise (ValueError "list.remove(x): x not in list")
             end
           else Ok nm
         else Ok nm) ;;
      drop_scalar_modes self other rest nm'
  end.

Definition mul_kind (a b : kind_t) : kind_t :=
  match a, b with
  | oper, oper => oper
  | state, state => oper
  | _, _ => state
  end.

(** The operands of the backend product: both sides expanded and permuted
    to their required names. *)
Definition mul_operands (so : set_order) (self other : NQobj)
  : result (NQobj * NQobj *
            ((list string * list string) * (list string * list string))) :=
  '(names_self, names_other) <- _mul_find_required_names self other ;;
  let missing_self := _find_missing_names so (names self) names_self in
  let missing_other := _find_missing_names so (names other) names_other in
  missing_dict_self <- _find_missing_dict so missing_self other true ;;
  missing_dict_other <- _find_missing_dict so missing_other self true ;;
  self1 <- _adding_missing_modes self missing_dict_self (kind self) ;;
  self2 <- permute self1 (OrderNamesPair (fst names_self) (snd names_self)) ;;
  other1 <- _adding_missing_modes other missing_dict_other (kind other) ;;
  other2 <- permute other1
                    (OrderNamesPair (fst names_other) (snd names_other)) ;;
  Ok (self2, other2, (names_self, names_other)).

(** [Qobj_result = super().__mul__(other)] on the prepared operands. *)
Definition mul_backend_result (so : set_order) (self other : NQobj)
  : result Qobj :=
  '(self2, other2, _) <- mul_operands so self other ;;
  Qobj_mul (qobj self2) (qobj other2).

Definition __mul__ (so : set_order) (self : NQobj) (other : pyval)
  : result mul_ret :=
  match other with
  | VNQobj other =>
      '(self2, other2, (names_self, names_other)) <-
        mul_operands so self other ;;
      Qobj_result <- Qobj_mul (qobj self2) (qobj other2) ;;
      if (fst (shape Qobj_result) =? 1) && (snd (shape Qobj_result) =? 1) then
        Ok (RetQobj Qobj_result)
      else
        nm <- drop_scalar_modes self2 other2 (fst names_self)
                                (fst names_self, snd names_other) ;;
        r <- NQobj_init Qobj_result (NamesPair (fst nm) (snd nm))
                        (KindGiven (mul_kind (kind self2) (kind other2))) ;;
        Ok (RetNQobj r)
  | VNumber z =>
      r <- NQobj_init (Qobj_scale z (qobj self))
                      (NamesPair (fst (names self)) (snd (names self)))
                      (KindGiven (kind self)) ;;
      Ok (RetNQobj r)
  | VQobj q =>
      r <- Qobj_mul (qobj self) q ;; Ok (RetQobj r)
  | VOther => Ok RetNone
  end.

Definition __neg__ (self : NQobj) : result NQobj :=
  NQobj_init (Qobj_neg (qobj self))
             (NamesPair (fst (names self)) (snd (names self)))
             (KindGiven (kind self)).

Definition __eq__ (self other : NQobj) : result bool :=
  same_Qobj <- Qobj_eq (qobj self) (qobj other) ;;
  let same_names := names_pair_eqb (names self) (names other) in
  Ok (same_Qobj && same_names).

Definition dag (self : NQobj) : result NQobj :=
  NQobj_init (Qobj_dag (qobj self))
             (NamesPair (snd (names self)) (fst (names self)))
             (KindGiven (kind self)).

Definition trans (self : NQobj) : result NQobj :=
  NQobj_init (Qobj_trans (qobj self))
             (NamesPair (snd (names self)) (fst (names self)))
             (KindGiven (kind self)).

(** [rename] changes the receiver in place: the model returns the receiver
    after the call together with the outcome of the call.  The constructor
    refuses duplicate names, so the two rounds of the loop act alike
    whether the two axes hold one list object or two. *)
Definition rename_axis (l : list string) (name new_name : string)
  : list string :=
  match index_of name l with
  | Some i => set_nth l i new_name
  | None => l
  end.

Definition rename (self : NQobj) (name new_name : string)
  : NQobj * result unit :=
  if name_eqb name new_name then (self, Ok tt)
  else if mem new_name (fst (names self) ++ snd (names self)) then
    (self, Raise (ValueError
                    "You cannot use a new_name which is already used."))
  else if negb (mem name (fst (names self) ++ snd (names self))) then
    (self, Raise (ValueError
                    "The name you want to replace is not present in the NQobj."))
  else
    (MkNQobj (qobj self)
             (rename_axis (fst (names self)) name new_name,
              rename_axis (snd (names self)) name new_name)
             (kind self),
     Ok tt).

(** [expand]: the loop over the dictionary of missing names threads the
    backend object and the two name lists.  The dictionary lists each key
    once, in the order of first insertion; [_dim_of_name] gives a repeated
    key the same value again. *)
Definition expand_step (st : Qobj * (list string * list string))
           (item : string * dims_pair)
  : result (Qobj * (list string * list string)) :=
  let '(self, nm) := st in
  let '(name, (d0, d1)) := item in
  match d0, d1 with
  | None, _ =>
      b <- basis d1 ;;
      q <- qt_tensor [self; b] ;;
      Ok (MkQobj (data q) (fst (dims q), removelast (snd (dims q))),
          (fst nm ++ [name], snd nm))
  | Some _, None =>
      b <- basis d0 ;;
      q <- qt_tensor [self; Qobj_dag b] ;;
      Ok (MkQobj (data q) (removelast (fst (dims q)), snd (dims q)),
          (fst nm, snd nm ++ [name]))
  | Some _, Some _ => Ok st
  end.

Fixpoint foldM {A S : Type} (f : S -> A -> result S) (l : list A) (s : S)
  : result S :=
  match l with
  | [] => Ok s
  | x :: t => s' <- f s x ;; foldM f t s'
  end.

Definition expand (so : set_order) (self : NQobj) : result NQobj :=
  if names_eqb (fst (names self)) (snd (names self)) then Ok self
  else
    let required_names := dedupe (fst (names self) ++ snd (names self)) in
    let missing :=
      _find_missing_names so (names self) (required_names, required_names) in
    missing_dict <-
      mapM (fun name => d <- _dim_of_name self name ;; Ok (name, d))
           (dedupe (fst missing ++ snd missing)) ;;
    '(q, nm) <- foldM expand_step missing_dict (qobj self, names self) ;;
    x <- NQobj_init q (NamesPair (fst nm) (snd nm)) (KindGiven (kind self)) ;;
    permute x (OrderNames required_names).

(** The selection argument of [ptrace]: a list of positions, a list of
    names, a list that mixes them, or something that is not a list. *)
Inductive sel_arg : Type :=
| SelInts (l : list nat)
| SelNames (l : list string)
| SelMixed
| SelNotList.

Section WithBackend.

Context {B : Backend}.

Definition __pow__ (self : NQobj) (n : Z) : result NQobj :=
  q <- qt_pow (qobj self) n ;;
  NQobj_init q (NamesPair (fst (names self)) (snd (names self)))
             (KindGiven (kind self)).

Definition proj (self : NQobj) : result NQobj :=
  q <- qt_proj (qobj self) ;;
  NQobj_init q (NamesPair (fst (names self)) (snd (names self)))
             (KindGiven oper).

Definition unit (self : NQobj) : result NQobj :=
  q <- qt_unit (qobj self) ;;
  NQobj_init q (NamesPair (fst (names self)) (snd (names self)))
             (KindGiven (kind self)).

(** [ptrace].  The two tests at the head of the source build a
    [ValueError] and drop it: no [raise] stands before them, so
    [unraised] has no part in the result. *)
Definition ptrace (self : NQobj) (sel : sel_arg) (keep : bool)
  : result NQobj :=
  let unraised : list exn :=
    (if negb (list_nat_eqb (fst (dims (qobj self)))
                           (snd (dims (qobj self))))
     then [ValueError "ptrace works only on a square oper"] else []) ++
    (if negb (names_eqb (fst (names self)) (snd (names self)))
     then [ValueError "Names of both axis are not the same"] else []) in
  sel1 <- match sel with
          | SelInts l => Ok l
          | SelNames l => mapM (py_index (fst (names self))) l
          | SelMixed => Raise (ValueError "sel must be list of only int or str")
          | SelNotList =>
              Raise (TypeError "sel needs to be a list with int or str")
          end ;;
  let sel2 :=
    if keep then sel1
    else filter (fun i => negb (existsb (Nat.eqb i) sel1))
                (seq 0 (fst (shape_dims (qobj self)))) in
  let nm :=
    map snd
        (filter (fun p => existsb (Nat.eqb (fst p)) sel2)
                (combine (seq 0 (length (fst (names self))))
                         (fst (names self)))) in
  q <- qt_ptrace (qobj self) sel2 ;;
  NQobj_init q (NamesPair nm nm) (KindGiven (kind self)).

Definition expm (so : set_order) (self : NQobj) : result NQobj :=
  if names_eqb (fst (names self)) (snd (names self)) &&
     list_nat_eqb (fst (dims (qobj self))) (snd (dims (qobj self)))
  then
    q <- qt_expm (qobj self) ;;
    NQobj_init q (NamesPair (fst (names self)) (snd (names self)))
               (KindGiven (kind self))
  else
    new_self <- expand so self ;;
    _ <- permute new_self (OrderNamesPair (fst (names new_self))
                                          (fst (names new_self))) ;;
    if names_eqb (fst (names new_self)) (snd (names new_self)) &&
       list_nat_eqb (fst (dims (qobj new_self))) (snd (dims (qobj new_self)))
    then
      q <- qt_expm (qobj new_self) ;;
      NQobj_init q (NamesPair (fst (names new_self)) (snd (names new_self)))
                 (KindGiven (kind new_self))
    else Raise (ValueError
      "For exponentiation the matrix should have square submatrixes.").

End WithBackend.

(** ** Predicates of the specification *)

(** The names of an object are unique on each axis and there is one name
    for each entry of the dimension vector of that axis. *)
Definition names_ok (x : NQobj) : Prop :=
  NoDup (fst (names x)) /\ NoDup (snd (names x)) /\
  length (fst (names x)) = length (fst (dims (qobj x))) /\
  length (snd (names x)) = length (snd (dims (qobj x))).

(** The names of an axis whose dimension is not one: a mode of dimension
    one on the contracted axis needs no partner in the other operand. *)
Definition non_excludable (ns : list string) (ds : list nat) : list string :=
  map fst (filter (fun p => negb (snd p =? 1)) (combine ns ds)).

Definition right_names_for_overlap (Q_right : NQobj) : list string :=
  non_excludable (fst (names Q_right)) (fst (dims (qobj Q_right))).

Definition left_names_for_overlap (Q_left : NQobj) : list string :=
  non_excludable (snd (names Q_left)) (snd (dims (qobj Q_left))).

(** The constructor and the unary operations store the very name lists
    they are given ([NQobj(q, names=self.names)]), so another object [y] may
    hold one of the lists of the receiver [a] of [rename] and change with
    it.  Values do not record which lists are shared: a list of [y] that
    equals a list of [a] may be that list, and is then, after the call,
    the corresponding list of the receiver [a']. *)
Definition shares_axis (l l' : list string) (a a' : NQobj) : Prop :=
  l' = l \/
  (l = fst (names a) /\ l' = fst (names a')) \/
  (l = snd (names a) /\ l' = snd (names a')).

Definition aliased_after (a a' y y' : NQobj) : Prop :=
  qobj y' = qobj y /\ kind y' = kind y /\
  shares_axis (fst (names y)) (fst (names y')) a a' /\
  shares_axis (snd (names y)) (snd (names y')) a a'.

(** The named objects that the public operations produce, starting from
    the constructor.  [rename] changes its receiver in place: the receiver
    after the call is counted as produced, and so is every object that
    shares a name list with it. *)
Section Produced.

Context {B : Backend}.

Inductive produced : NQobj -> Prop :=
| produced_init Q na ka x :
    NQobj_init Q na ka = Ok x -> produced x
| produced_of a na ka x :
    produced a -> NQobj_of a na ka = Ok x -> produced x
| produced_add so a b x :
    produced a -> produced b ->
    __add__ so a (VNQobj b) = Ok (Some x) -> produced x
| produced_mul so a b x :
    produced a -> produced b ->
    __mul__ so a (VNQobj b) = Ok (RetNQobj x) -> produced x
| produced_scale so a z x :
    produced a -> __mul__ so a (VNumber z) = Ok (RetNQobj x) -> produced x
| produced_neg a x :
    produced a -> __neg__ a = Ok x -> produced x
| produced_pow a n x :
    produced a -> __pow__ a n = Ok x -> produced x
| produced_dag a x :
    produced a -> dag a = Ok x -> produced x
| produced_trans a x :
    produced a -> trans a = Ok x -> produced x
| produced_proj a x :
    produced a -> proj a = Ok x -> produced x
| produced_unit a x :
    produced a -> unit a = Ok x -> produced x
| produced_ptrace a sel keep x :
    produced a -> ptrace a sel keep = Ok x -> produced x
| produced_permute a order x :
    produced a -> permute a order = Ok x -> produced x
| produced_expand so a x :
    produced a -> expand so a = Ok x -> produced x
| produced_expm so a x :
    produced a -> expm so a = Ok x -> produced x
| produced_tensor args x :
    (forall a, In a args -> produced a) -> tensor args = Ok x -> produced x
| produced_copy a x :
    produced a -> copy a = Ok x -> produced x
| produced_rename a name new_name :
    produced a -> produced (fst (rename a name new_name))
| produced_rename_alias a y name new_name y' :
    produced a -> produced y ->
    aliased_after a (fst (rename a name new_name)) y y' -> produced y'.

End Produced.

(** ** An exact backend for the examples

    Partial trace, projector and integral powers computed on the
    coordinate form; the partial trace refuses an empty selection, as
    QuTiP does, with an [IndexError].  Normalisation and the matrix
    exponential leave the Gaussian integers; this instance does not
    provide them. *)

Definition nat_mem (i : nat) (l : list nat) : bool := existsb (Nat.eqb i) l.

Definition exact_ptrace (Q : Qobj) (sel : list nat) : result Qobj :=
  let rd := fst (dims Q) in
  let nd := length rd in
  if (length sel =? 0) || negb (forallb (fun x => x <? nd) sel) then
    Raise (IndexError "Invalid selection index in ptrace.")
  else
    let keep := filter (fun i => nat_mem i sel) (seq 0 nd) in
    let qtrace := filter (fun i => negb (nat_mem i sel)) (seq 0 nd) in
    if negb (length keep =? length sel) then
      Raise (ValueError "Duplicate selection index in ptrace.")
    else if negb (list_nat_eqb rd (snd (dims Q))) then
      Raise (ValueError "cannot reshape array")
    else
      let dkeep := pick rd keep in
      Ok (tidyup
            (MkQobj
               (Coo (prod_dims dkeep) (prod_dims dkeep)
                    (flat_map
                       (fun t =>
                          match t with
                          | (r, c, v) =>
                              let mr := multi_index rd r in
                              let mc := multi_index rd c in
                              if list_nat_eqb (pick mr qtrace) (pick mc qtrace)
                              then [(flat_index dkeep (pick mr keep),
                                     flat_index dkeep (pick mc keep), v)]
                              else []
                          end)
                       (trip (data Q))))
               (dkeep, dkeep))).

Definition exact_proj (Q : Qobj) : result Qobj :=
  match type Q with
  | TKet => Ok (MkQobj (matmul (data Q) (data (Qobj_dag Q)))
                       (fst (dims Q), fst (dims Q)))
  | TBra => Ok (MkQobj (matmul (data (Qobj_dag Q)) (data Q))
                       (snd (dims Q), snd (dims Q)))
  | TOper => Raise (TypeError "Projector can only be formed from a bra or ket.")
  end.

Fixpoint coo_power (m : coo) (n : nat) : coo :=
  match n with
  | O => Coo (nrows m) (ncols m) (map (fun i => (i, i, c1)) (seq 0 (nrows m)))
  | S k => matmul (coo_power m k) m
  end.

Definition exact_pow (Q : Qobj) (n : Z) : result Qobj :=
  if (n <? 0)%Z || negb (nrows (data Q) =? ncols (data Q)) then
    Raise (ValueError "Invalid choice of exponent.")
  else Ok (tidyup (MkQobj (coo_power (data Q) (Z.to_nat n)) (dims Q))).

Definition not_provided (Q : Qobj) : result Qobj :=
  Raise (TypeError "not provided by the exact backend").

#[export] Instance exact_backend : Backend := {
  qt_ptrace := exact_ptrace;
  qt_proj := exact_proj;
  qt_unit := not_provided;
  qt_pow := exact_pow;
  qt_expm := not_provided
}.

(** A backend object is well formed when the shape of its matrix is the
    product of its dimension vectors and every stored position lies inside
    the shape. *)
Definition in_shape (nr nc : nat) (t : nat * nat * cplx) : Prop :=
  fst (fst t) < nr /\ snd (fst t) < nc.

Definition Qobj_wf (Q : Qobj) : Prop :=
  nrows (data Q) = prod_dims (fst (dims Q)) /\
  ncols (data Q) = prod_dims (snd (dims Q)) /\
  Forall (in_shape (nrows (data Q)) (ncols (data Q))) (trip (data Q)).

(** A multi-index fits a dimension vector when each digit is below its
    dimension. *)
Definition digits_ok (m ds : list nat) : Prop :=
  Forall2 (fun x d => x < d) m ds.

(** The position of a name in a list that holds it. *)
Definition pos (ns : list string) (x : string) : nat :=
  match index_of x ns with
  | Some i => i
  | None => 0
  end.

(** The index that [cy_index_permute] computes when [order] is an order of
    all positions of [ds]. *)
Definition index_map (ds order : list nat) (idx : nat) : nat :=
  flat_index (pick ds order) (pick (multi_index ds idx) order).

Definition permute_trip (d0 o0 d1 o1 : list nat) (t : nat * nat * cplx)
  : nat * nat * cplx :=
  match t with
  | (r, c, v) => (index_map d0 o0 r, index_map d1 o1 c, v)
  end.

(** The object that [permute] returns for the order of names [(p0, p1)]
    when each is a rearrangement of the names of its axis. *)
Definition permuted (x : NQobj) (p0 p1 : list string) : NQobj :=
  let o0 := map (pos (fst (names x))) p0 in
  let o1 := map (pos (snd (names x))) p1 in
  let d0 := fst (dims (qobj x)) in
  let d1 := snd (dims (qobj x)) in
  MkNQobj
    (tidyup (MkQobj (Coo (nrows (data (qobj x))) (ncols (data (qobj x)))
                         (map (permute_trip d0 o0 d1 o1)
                              (trip (data (qobj x)))))
                    (pick d0 o0, pick d1 o1)))
    (p0, p1) (kind x).

(** The object that [permute] returns for one order of names [p] applied to
    both axes of an object whose axes bear the same names: the backend
    moves the rows of a ket, the columns of a bra, both for an operator. *)
Definition flat_dims (ty : qtype) (d0 d1 o : list nat) : list nat * list nat :=
  match ty with
  | TKet => (pick d0 o, d1)
  | TBra => (d0, pick d1 o)
  | TOper => (pick d0 o, pick d1 o)
  end.

Definition flat_trip (ty : qtype) (d0 d1 o : list nat) (t : nat * nat * cplx)
  : nat * nat * cplx :=
  match t with
  | (r, c, v) =>
      match ty with
      | TKet => (index_map d0 o r, c, v)
      | TBra => (r, index_map d1 o c, v)
      | TOper => (index_map d0 o r, index_map d1 o c, v)
      end
  end.

Definition permuted_flat (x : NQobj) (p : list string) : NQobj :=
  let o := map (pos (fst (names x))) p in
  let d0 := fst (dims (qobj x)) in
  let d1 := snd (dims (qobj x)) in
  MkNQobj
    (tidyup (MkQobj (Coo (nrows (data (qobj x))) (ncols (data (qobj x)))
                         (map (flat_trip (type (qobj x)) d0 d1 o)
                              (trip (data (qobj x)))))
                    (flat_dims (type (qobj x)) d0 d1 o)))
    (p, p) (kind x).

(** The dimension that stands beside a name on an axis. *)
Definition dim_of (ns : list string) (ds : list nat) (name : string) : nat :=
  nth (pos ns name) ds 0.

(** An assignment of a digit to every name fits an axis when each digit is
    below the dimension of its name. *)
Definition fits_axis (ns : list string) (ds : list nat) (rho : string -> nat)
  : Prop :=
  forall name, In name ns -> rho name < dim_of ns ds name.

(** The entry of a named object at the multi-indices that two assignments
    give to its row names and to its column names. *)
Definition named_entry (x : NQobj) (rho0 rho1 : string -> nat) : cplx :=
  entry (data (qobj x))
        (flat_index (fst (dims (qobj x))) (map rho0 (fst (names x))))
        (flat_index (snd (dims (qobj x))) (map rho1 (snd (names x)))).

(** The object that [tensor] returns on the arguments [x :: modes]. *)
Definition tensored (x : NQobj) (modes : list NQobj) : NQobj :=
  MkNQobj (tidyup (fold_left kron_step (map qobj modes) (qobj x)))
          (concat (map (fun a => fst (names a)) (x :: modes)),
           concat (map (fun a => snd (names a)) (x :: modes)))
          (kind x).

(** The product of the entries of a list of modes under two assignments. *)
Definition modes_entry (modes : list NQobj) (rho0 rho1 : string -> nat) : cplx :=
  fold_right (fun f acc => cmul (named_entry f rho0 rho1) acc) c1 modes.

(** A named object with the name invariant and a well-formed backend
    object. *)
Definition mode_ok (f : NQobj) : Prop := names_ok f /\ Qobj_wf (qobj f).

(** A stored value that [tidyup] keeps, and a matrix that stores one. *)
Definition nonzero (t : nat * nat * cplx) : bool := negb (ceqb (snd t) c0).

Definition has_nonzero (m : coo) : bool := existsb nonzero (trip m).

(** The dimension beside a name, or [None] when the axis lacks the name. *)
Definition dim_opt (ns : list string) (ds : list nat) (name : string)
  : option nat :=
  match index_of name ns with
  | Some i => nth_error ds i
  | None => None
  end.

(** The entry that [_find_missing_dict] stores for a name. *)
Definition missing_entry (m0 m1 : list string) (w : NQobj) (transpose : bool)
           (name : string) : string * dims_pair :=
  let d0 := if mem name m0
            then dim_opt (fst (names w)) (fst (dims (qobj w))) name
            else None in
  let d1 := if mem name m1
            then dim_opt (snd (names w)) (snd (dims (qobj w))) name
            else None in
  (name, if transpose then (d1, d0) else (d0, d1)).

(** The keys of the dictionary of the modes that [x] lacks for the
    required names [nm]. *)
Definition missing_keys (so : set_order) (x : NQobj)
           (nm : list string * list string) : list string :=
  enum so (fst (_find_missing_names so (names x) nm) ++
           snd (_find_missing_names so (names x) nm)).

(** The filler of a dictionary entry, with [dflt] where none is built. *)
Definition filler_or (dflt : NQobj) (k : kind_t) (e : string * dims_pair)
  : NQobj :=
  match filler_mode k e with
  | Ok f => f
  | Raise _ => dflt
  end.

(** Two prepared operands, [x2] in the order of names [nm] and [x2'] in the
    order [nm'], that are one object up to the order of their axes: each
    name has the same dimension in both, the shapes agree, and [x2']
    permuted to [nm] has the entries of [x2]. *)
Definition aligned (x2 x2' : NQobj) (nm nm' : list string * list string)
  : Prop :=
  names x2 = nm /\ names x2' = nm' /\
  (exists delta0 delta1,
      dims (qobj x2) = (map delta0 (fst nm), map delta1 (snd nm)) /\
      dims (qobj x2') = (map delta0 (fst nm'), map delta1 (snd nm'))) /\
  nrows (data (qobj x2')) = nrows (data (qobj x2)) /\
  ncols (data (qobj x2')) = ncols (data (qobj x2)) /\
  (forall i j,
      i < nrows (data (qobj x2)) -> j < ncols (data (qobj x2)) ->
      entry (data (qobj (permuted x2' (fst nm) (snd nm)))) i j
      = entry (data (qobj x2)) i j).

(** [x.permute(p).permute(back)] returns an object equal to [x]. *)
Definition round_trip (x : NQobj) (p back : order_arg) : Prop :=
  exists y z,
    permute x p = Ok y /\ permute y back = Ok z /\ __eq__ z x = Ok true.

(** ** Example objects *)

Module Examples.

(** The listing of a set in order of first insertion. *)
Definition insertion_order : set_order :=
  MkSetOrder dedupe (fun l => Permutation_refl (dedupe l)).

(** The listing of a set in the reverse of that order. *)
Definition reverse_order : set_order :=
  MkSetOrder (fun l => rev (dedupe l))
             (fun l => Permutation_sym (Permutation_rev (dedupe l))).

(** The identity on one mode of dimension two. *)
Definition eye2 : Qobj :=
  MkQobj (Coo 2 2 [(0, 0, c1); (1, 1, c1)]) ([2], [2]).

(** The first basis ket and bra of a mode of dimension two. *)
Definition ket0 : Qobj := MkQobj (Coo 2 1 [(0, 0, c1)]) ([2], [1]).
Definition bra0 : Qobj := MkQobj (Coo 1 2 [(0, 0, c1)]) ([1], [2]).

(** A 2x3 matrix on one mode. *)
Definition rect23 : Qobj :=
  MkQobj (Coo 2 3 [(0, 0, c1); (1, 2, Cplx 0 1)]) ([2], [3]).

Definition op_a : NQobj := MkNQobj eye2 (["a"%string], ["a"%string]) oper.
Definition op_b : NQobj := MkNQobj eye2 (["b"%string], ["b"%string]) oper.
Definition ket_b : NQobj := MkNQobj ket0 (["b"%string], ["b"%string]) state.
Definition ket_x : NQobj := MkNQobj ket0 (["x"%string], ["x"%string]) state.
Definition bra_x : NQobj := MkNQobj bra0 (["x"%string], ["x"%string]) state.

(** A square operator whose row name differs from its column name. *)
Definition op_ab : NQobj := MkNQobj eye2 (["a"%string], ["b"%string]) oper.

(** A rectangular operator with the same name on both axes. *)
Definition rect_a : NQobj :=
  MkNQobj rect23 (["a"%string], ["a"%string]) state.

(** An operator on one mode of dimension three. *)
Definition op_c : NQobj :=
  MkNQobj (MkQobj (Coo 3 3 [(0, 1, c1); (2, 2, Cplx 0 1)]) ([3], [3]))
          (["c"%string], ["c"%string]) oper.

(** An operator on two modes of dimensions two and three; one stored
    value is zero. *)
Definition op_ab23 : NQobj :=
  MkNQobj (MkQobj (Coo 6 6 [(0, 1, c1); (4, 5, Cplx 0 2); (3, 3, c0);
                            (2, 0, Cplx (-1) 1)])
                  ([2; 3], [2; 3]))
          (["a"%string; "b"%string], ["a"%string; "b"%string]) oper.

End Examples.

(** ** Further functions of the module *)

(** [__rmul__], the product with the named object on the right.  A number
    goes to [__mul__]; any backend object multiplies by its own [__mul__],
    which for a named object is the [__mul__] above and for a plain one is
    the backend product, whose result is plain; other values fall through
    and the call returns [None]. *)
Definition __rmul__ (so : set_order) (self : NQobj) (other : pyval)
  : result mul_ret :=
  match other with
  | VNumber z => __mul__ so self (VNumber z)
  | VNQobj o => __mul__ so o (VNQobj self)
  | VQobj q => r <- Qobj_mul q (qobj self) ;; Ok (RetQobj r)
  | VOther => Ok RetNone
  end.

(** [sub in s] on strings: [sub] occurs somewhere in [s]. *)
Fixpoint contains (sub s : string) : bool :=
  String.prefix sub s ||
  match s with
  | EmptyString => false
  | String _ t => contains sub t
  end.

Definition classic_spin_names : list string :=
  ["Alice"; "Bob"; "Charlie"; "alice"; "bob"; "charlie"]%string.

Section Convenience.

Context {B : Backend}.

(** [trace_out_loss_modes].  The source tests [len(loss_modes) is not 0],
    which CPython decides as [!= 0]. *)
Definition trace_out_loss_modes (Q : NQobj) : result NQobj :=
  let loss_modes := filter (contains "loss") (fst (names Q)) in
  if negb (length loss_modes =? 0) then ptrace Q (SelNames loss_modes) false
  else Ok Q.

(** [trace_out_everything_but_spins].  An empty selection passes the first
    type test of [ptrace], the one for a list of positions. *)
Definition trace_out_everything_but_spins (Q : NQobj) : result NQobj :=
  let spin_modes :=
    filter (fun x => mem x classic_spin_names) (fst (names Q)) in
  ptrace Q
         (match spin_modes with
          | [] => SelInts []
          | _ :: _ => SelNames spin_modes
          end)
         true.

End Convenience.

(** [fidelity].  The backend's fidelity of two objects is kept abstract:
    [qt_fidelity] receives the first operand and the permuted second. *)
Section Fidelity.

Variable F : Type.
Variable qt_fidelity : NQobj -> NQobj -> result F.

Definition fidelity (A B : NQobj) : result F :=
  if negb ((isket (qobj A) || isbra (qobj A) || isoper (qobj A)) &&
           (isket (qobj B) || isbra (qobj B) || isoper (qobj B))) then
    Raise (TypeError "fidelity can only be calculated for ket, bra or oper.")
  else if negb (same_set (fst (names A)) (snd (names A))) ||
          negb (same_set (fst (names B)) (snd (names B))) then
    Raise (TypeError "Names of colums and rows need to be the same.")
  else if negb (same_set (fst (names A)) (fst (names B))) then
    Raise (TypeError "fidelity needs both objects to have the same names.")
  else
    B' <- permute B (OrderNamesPair (fst (names A)) (snd (names A))) ;;
    qt_fidelity A B'.

End Fidelity.

(** Two operands of a product that carry one and the same non-empty list
    of names on all four axes, with matching inner dimension vectors and
    no dimension below two: no mode is missing on either side and none is
    reduced to a scalar. *)
Definition same_modes (a b : NQobj) : Prop :=
  names_ok a /\ Qobj_wf (qobj a) /\ Qobj_wf (qobj b) /\
  fst (names a) = snd (names a) /\ names b = names a /\
  fst (names a) <> [] /\
  snd (dims (qobj a)) = fst (dims (qobj b)) /\
  length (snd (dims (qobj b))) = length (snd (names a)) /\
  Forall (fun n => 2 <= n) (fst (dims (qobj a))) /\
  Forall (fun n => 2 <= n) (snd (dims (qobj a))) /\
  Forall (fun n => 2 <= n) (snd (dims (qobj b))).

(** The names of [l] that [ov] lacks, in the order of [l]. *)
Definition without (ov l : list string) : list string :=
  filter (fun y => negb (mem y ov)) l.

(** A dictionary entry with its pair of dimensions reversed. *)
Definition reversed (e : string * dims_pair) : string * dims_pair :=
  (fst e, (snd (snd e), fst (snd e))).

(** The dictionary entries for which [_adding_missing_modes] can build a
    filler: for kind [oper] both dimensions given and equal, for kind
    [state] the first dimension given and no given dimension zero. *)
Definition fillable (k : kind_t) (d : dims_pair) : Prop :=
  match k with
  | oper => exists n, d = (Some n, Some n)
  | state => exists n, fst d = Some (S n) /\
                       (snd d = None \/ exists m, snd d = Some (S m))
  end.

(** The names of both axes of [x], the row names first, then the column
    names that the row axis lacks. *)
Definition all_names (x : NQobj) : list string :=
  fst (names x) ++ without (fst (names x)) (snd (names x)).

(** The dimension of a name of [x]: the one on the row axis when the row
    axis has the name, else the one on the column axis. *)
Definition dim_either (x : NQobj) (name : string) : nat :=
  if mem name (fst (names x))
  then dim_of (fst (names x)) (fst (dims (qobj x))) name
  else dim_of (snd (names x)) (snd (dims (qobj x))) name.

(** Example objects with the mode names the convenience functions look
    for. *)
Module Network.

(** An operator on a spin and a loss mode, each of dimension two. *)
Definition alice_loss : NQobj :=
  MkNQobj (MkQobj (Coo 4 4 [(0, 0, c1); (1, 1, c1); (3, 2, Cplx 0 1)])
                  ([2; 2], [2; 2]))
          (["Alice"; "loss_1"], ["Alice"; "loss_1"])%string oper.

(** The same matrix with the spin named [Bob]. *)
Definition bob_loss : NQobj :=
  MkNQobj (qobj alice_loss)
          (["loss_1"; "Bob"], ["loss_1"; "Bob"])%string oper.

End Network.

(** * Properties *)

Unset Implicit Arguments.

(** ** Gaussian integers form a ring *)

Lemma cplx_eq (a b : cplx) : re a = re b -> im a = im b -> a = b.
Proof. destruct a, b; simpl; intros; subst; reflexivity. Qed.

Lemma cplx_ring : ring_theory c0 c1 cadd cmul csub copp (@eq cplx).
Proof.
  constructor; intros; apply cplx_eq;
    unfold csub, cadd, cmul, copp, c0, c1; cbn [re im]; ring.
Qed.

Add Ring cplx_ring_inst : cplx_ring.

(** ** Lists of names *)

Lemma name_eqb_eq (a b : string) : name_eqb a b = true <-> a = b.
Proof. apply String.eqb_eq. Qed.

Lemma name_eqb_neq (a b : string) : name_eqb a b = false <-> a <> b.
Proof. apply String.eqb_neq. Qed.

Lemma name_eqb_refl (a : string) : name_eqb a a = true.
Proof. apply String.eqb_refl. Qed.

Lemma mem_In (x : string) (l : list string) : mem x l = true <-> In x l.
Proof.
  unfold mem. rewrite existsb_exists. split.
  - intros [y [Hy He]]. apply name_eqb_eq in He. now subst.
  - intros H. exists x. split; [assumption | apply name_eqb_refl].
Qed.

Lemma mem_false (x : string) (l : list string) : mem x l = false <-> ~ In x l.
Proof.
  rewrite <- mem_In. destruct (mem x l); split; intros; congruence.
Qed.

Lemma has_dup_NoDup (l : list string) : has_dup l = false <-> NoDup l.
Proof.
  induction l as [|x t IH]; simpl.
  - split; [constructor | reflexivity].
  - rewrite orb_false_iff, IH, mem_false. split.
    + intros [H1 H2]. now constructor.
    + intros H. inversion H; subst. now split.
Qed.

Lemma names_eqb_eq (a b : list string) : names_eqb a b = true <-> a = b.
Proof.
  unfold names_eqb. destruct (list_eq_dec string_dec a b); split; congruence.
Qed.

Lemma list_nat_eqb_eq (a b : list nat) : list_nat_eqb a b = true <-> a = b.
Proof.
  unfold list_nat_eqb. destruct (list_eq_dec Nat.eq_dec a b); split; congruence.
Qed.

Lemma index_of_Some (x : string) (l : list string) (i : nat) :
  index_of x l = Some i -> nth_error l i = Some x /\ i < length l.
Proof.
  revert i. induction l as [|y t IH]; simpl; intros i H; [discriminate|].
  destruct (name_eqb y x) eqn:E.
  - inversion H; subst. apply name_eqb_eq in E. subst. simpl. split; [reflexivity | lia].
  - destruct (index_of x t) as [j|]; simpl in H; [|discriminate].
    inversion H; subst. destruct (IH j eq_refl) as [H1 H2]. simpl. split; [assumption | lia].
Qed.

Lemma index_of_None (x : string) (l : list string) :
  index_of x l = None <-> ~ In x l.
Proof.
  induction l as [|y t IH]; simpl.
  - split; auto.
  - destruct (name_eqb y x) eqn:E.
    + apply name_eqb_eq in E. subst. split; [discriminate | intros H; exfalso; auto].
    + apply name_eqb_neq in E. destruct (index_of x t); simpl.
      * split; [discriminate |]. intros H. exfalso.
        assert (Hn : ~ In x t) by tauto. apply IH in Hn. discriminate.
      * split; [| reflexivity]. intros _ [H | H]; [congruence |].
        destruct IH as [IH _]. now apply IH.
Qed.

Lemma index_of_In (x : string) (l : list string) :
  In x l -> exists i, index_of x l = Some i.
Proof.
  intros H. destruct (index_of x l) as [i|] eqn:E; [eauto |].
  apply index_of_None in E. contradiction.
Qed.

(** In a list without duplicates a name is found where it stands. *)
Lemma index_of_app_NoDup (pre post : list string) (x : string) :
  ~ In x pre -> index_of x (pre ++ x :: post) = Some (length pre).
Proof.
  induction pre as [|y t IH]; simpl; intros H.
  - now rewrite name_eqb_refl.
  - destruct (name_eqb y x) eqn:E.
    + apply name_eqb_eq in E. exfalso. auto.
    + rewrite IH by auto. reflexivity.
Qed.

Lemma dedupe_In (x : string) (l : list string) : In x (dedupe l) <-> In x l.
Proof.
  induction l as [|y t IH]; simpl; [tauto|].
  rewrite filter_In, IH. destruct (name_eqb x y) eqn:E.
  - apply name_eqb_eq in E. subst. tauto.
  - apply name_eqb_neq in E. split.
    + intros [H | [H _]]; auto.
    + intros [H | H]; [auto |]. right. split; [assumption | reflexivity].
Qed.

Lemma NoDup_filter {A : Type} (f : A -> bool) (l : list A) :
  NoDup l -> NoDup (filter f l).
Proof.
  induction 1 as [|x l Hx Hl IH]; simpl; [constructor|].
  destruct (f x); [constructor |]; auto.
  rewrite filter_In. tauto.
Qed.

Lemma dedupe_NoDup (l : list string) : NoDup (dedupe l).
Proof.
  induction l as [|x t IH]; simpl; constructor.
  - rewrite filter_In. intros [_ H]. rewrite name_eqb_refl in H. discriminate.
  - now apply NoDup_filter.
Qed.

Lemma filter_id {A : Type} (f : A -> bool) (l : list A) :
  (forall x, In x l -> f x = true) -> filter f l = l.
Proof.
  induction l as [|x t IH]; simpl; intros H; [reflexivity|].
  rewrite H by auto. f_equal. apply IH. auto.
Qed.

Lemma dedupe_id (l : list string) : NoDup l -> dedupe l = l.
Proof.
  induction 1 as [|x l Hx Hl IH]; simpl; [reflexivity|].
  rewrite IH. f_equal. apply filter_id. intros y Hy.
  apply negb_true_iff, name_eqb_neq. intros ->. contradiction.
Qed.

(** ** The constructor establishes the name invariant *)

Lemma init_names_ok (Q : Qobj) (na : names_arg) (nm : list string * list string) :
  init_names Q na = Ok nm ->
  NoDup (fst nm) /\ NoDup (snd nm) /\
  length (fst nm) = length (fst (dims Q)) /\
  length (snd nm) = length (snd (dims Q)).
Proof.
  unfold init_names, shape_dims. destruct na as [|s|l|l0 l1|]; simpl; try discriminate.
  - destruct (length (fst (dims Q)) =? 1) eqn:E0; simpl; [|discriminate].
    destruct (length (snd (dims Q)) =? 1) eqn:E1; simpl; [|discriminate].
    apply Nat.eqb_eq in E0, E1. intros H; inversion H; subst; simpl.
    repeat split; auto; repeat constructor; simpl; auto.
  - destruct (has_dup l) eqn:Hd; [discriminate|].
    destruct (length l =? length (fst (dims Q))) eqn:E0; simpl; [|discriminate].
    destruct (length l =? length (snd (dims Q))) eqn:E1; simpl; [|discriminate].
    apply Nat.eqb_eq in E0, E1. apply has_dup_NoDup in Hd.
    intros H; inversion H; subst; simpl. auto.
  - destruct (has_dup l0) eqn:Hd0; [discriminate|].
    destruct (has_dup l1) eqn:Hd1; [discriminate|]. simpl.
    destruct (length l0 =? length (fst (dims Q))) eqn:E0; simpl; [|discriminate].
    destruct (length l1 =? length (snd (dims Q))) eqn:E1; simpl; [|discriminate].
    apply Nat.eqb_eq in E0, E1. apply has_dup_NoDup in Hd0, Hd1.
    intros H; inversion H; subst; simpl. auto.
Qed.

Lemma NQobj_init_inv (Q : Qobj) (na : names_arg) (ka : kind_arg) (x : NQobj) :
  NQobj_init Q na ka = Ok x ->
  qobj x = Q /\ init_names Q na = Ok (names x) /\
  init_kind Q (names x) ka = Ok (kind x).
Proof.
  unfold NQobj_init. destruct (init_names Q na) as [nm|e]; simpl; [|discriminate].
  destruct (init_kind Q nm ka) as [k|e] eqn:Ek; simpl; [|discriminate].
  intros H. inversion H; subst; simpl. auto.
Qed.

Lemma NQobj_init_names_ok (Q : Qobj) (na : names_arg) (ka : kind_arg) (x : NQobj) :
  NQobj_init Q na ka = Ok x -> names_ok x.
Proof.
  intros H. apply NQobj_init_inv in H. destruct H as [HQ [Hn _]].
  apply init_names_ok in Hn. unfold names_ok. now rewrite HQ.
Qed.

Lemma NQobj_init_pair (Q : Qobj) (l0 l1 : list string) (ka : kind_arg) (x : NQobj) :
  NQobj_init Q (NamesPair l0 l1) ka = Ok x ->
  qobj x = Q /\ names x = (l0, l1).
Proof.
  intros H. apply NQobj_init_inv in H. destruct H as [HQ [Hn _]].
  split; [assumption|]. unfold init_names in Hn.
  destruct (has_dup l0 || has_dup l1); [discriminate|].
  destruct (negb _); [discriminate|]. now inversion Hn.
Qed.

Lemma NQobj_init_kind (Q : Qobj) (na : names_arg) (k : kind_t) (x : NQobj) :
  NQobj_init Q na (KindGiven k) = Ok x -> kind x = k.
Proof.
  intros H. apply NQobj_init_inv in H. destruct H as [_ [_ Hk]].
  simpl in Hk. now inversion Hk.
Qed.

(** ** Name resolution for multiplication *)

Lemma py_getitem_lt {A : Type} (l : list A) (i : nat) :
  i < length l -> exists a, py_getitem l i = Ok a /\ nth_error l i = Some a.
Proof.
  intros H. unfold py_getitem. destruct (nth_error l i) as [a|] eqn:E; [eauto|].
  apply nth_error_None in E. lia.
Qed.

Lemma dim_on_total (ns : list string) (ds : list nat) (name : string) :
  length ns = length ds -> exists d, dim_on ns ds name = Ok d.
Proof.
  intros Hlen. unfold dim_on. destruct (index_of name ns) as [i|] eqn:E; [|eauto].
  apply index_of_Some in E. destruct E as [_ Hi]. rewrite Hlen in Hi.
  destruct (py_getitem_lt ds i Hi) as [a [Ha _]]. rewrite Ha. simpl. eauto.
Qed.

Lemma dim_on_at (pre post : list string) (dpre dpost : list nat)
      (x : string) (d : nat) :
  ~ In x pre -> length pre = length dpre ->
  dim_on (pre ++ x :: post) (dpre ++ d :: dpost) x = Ok (Some d).
Proof.
  intros Hx Hlen. unfold dim_on, py_getitem.
  rewrite index_of_app_NoDup by assumption.
  rewrite Hlen, nth_error_app2, Nat.sub_diag by lia. reflexivity.
Qed.

(** The comprehension of the source, which looks every name up again, picks
    the names that stand beside a dimension other than one. *)
Lemma filterM_dim_on (f : string -> result bool) (pre l : list string)
      (dpre dl : list nat) :
  NoDup (pre ++ l) -> length pre = length dpre -> length l = length dl ->
  (forall x d, dim_on (pre ++ l) (dpre ++ dl) x = Ok d ->
               f x = Ok (negb (is_one d))) ->
  filterM f l = Ok (non_excludable l dl).
Proof.
  revert pre dpre dl. induction l as [|x t IH]; intros pre dpre dl Hnd Hp Hl Hf.
  - reflexivity.
  - destruct dl as [|d dt]; [discriminate|]. simpl in Hl.
    assert (Hx : ~ In x pre).
    { intros Hin. apply NoDup_remove_2 in Hnd. apply Hnd.
      apply in_or_app. now left. }
    simpl. rewrite (Hf x (Some d)) by (apply dim_on_at; assumption). simpl.
    rewrite (IH (pre ++ [x]) (dpre ++ [d]) dt).
    + simpl. unfold non_excludable. simpl.
      destruct d as [|[|d]]; reflexivity.
    + now rewrite <- app_assoc.
    + rewrite !length_app. simpl. lia.
    + lia.
    + intros y dy Hy. apply Hf. now rewrite <- !app_assoc in Hy.
Qed.

Lemma names_for_overlap_right (Q_right : NQobj) :
  names_ok Q_right ->
  filterM (fun name => d <- _dim_of_name Q_right name ;;
                       Ok (negb (is_one (fst d))))
          (fst (names Q_right)) = Ok (right_names_for_overlap Q_right).
Proof.
  intros [N0 [N1 [L0 L1]]].
  apply (filterM_dim_on _ [] (fst (names Q_right)) []
                        (fst (dims (qobj Q_right)))); auto.
  simpl. intros x d Hd. unfold _dim_of_name. rewrite Hd. simpl.
  destruct (dim_on_total (snd (names Q_right)) (snd (dims (qobj Q_right))) x L1)
    as [d1 Hd1]. rewrite Hd1. reflexivity.
Qed.

Lemma names_for_overlap_left (Q_left : NQobj) :
  names_ok Q_left ->
  filterM (fun name => d <- _dim_of_name Q_left name ;;
                       Ok (negb (is_one (snd d))))
          (snd (names Q_left)) = Ok (left_names_for_overlap Q_left).
Proof.
  intros [N0 [N1 [L0 L1]]].
  apply (filterM_dim_on _ [] (snd (names Q_left)) []
                        (snd (dims (qobj Q_left)))); auto.
  simpl. intros x d Hd. unfold _dim_of_name. rewrite Hd.
  destruct (dim_on_total (fst (names Q_left)) (fst (dims (qobj Q_left))) x L0)
    as [d0 Hd0]. rewrite Hd0. reflexivity.
Qed.

(** C1 (as amended).  The overlap list of [left * right] is the names of
    the right operand's rows whose dimension is not one followed by the
    names of the left operand's columns whose dimension is not one when
    the right operand is a state and the left one an operator; in every
    other combination of kinds the left operand's names come first.
    Duplicates are removed and the first occurrence is kept. *)
Theorem mul_overlap_order (Q_left Q_right : NQobj) :
  names_ok Q_left -> names_ok Q_right ->
  (kind Q_right = state /\ kind Q_left = oper ->
   _mul_overlap Q_left Q_right =
     Ok (dedupe (right_names_for_overlap Q_right ++
                 left_names_for_overlap Q_left))) /\
  (~ (kind Q_right = state /\ kind Q_left = oper) ->
   _mul_overlap Q_left Q_right =
     Ok (dedupe (left_names_for_overlap Q_left ++
                 right_names_for_overlap Q_right))).
Proof.
  intros HL HR. unfold _mul_overlap.
  rewrite (names_for_overlap_right _ HR), (names_for_overlap_left _ HL). simpl.
  split.
  - intros [-> ->]. reflexivity.
  - intros Hk. destruct (kind Q_right), (kind Q_left); simpl; try reflexivity.
    exfalso. apply Hk. split; reflexivity.
Qed.

Lemma names_ok_op_a : names_ok Examples.op_a.
Proof. repeat split; repeat constructor; simpl; auto. Qed.

Lemma names_ok_op_b : names_ok Examples.op_b.
Proof. repeat split; repeat constructor; simpl; auto. Qed.

Lemma names_ok_ket_b : names_ok Examples.ket_b.
Proof. repeat split; repeat constructor; simpl; auto. Qed.

Lemma mul_overlap_order_witness :
  _mul_overlap Examples.op_a Examples.ket_b = Ok ["b"%string; "a"%string] /\
  _mul_overlap Examples.op_a Examples.op_b = Ok ["a"%string; "b"%string].
Proof.
  split.
  - apply (proj1 (mul_overlap_order _ _ names_ok_op_a names_ok_ket_b)).
    split; reflexivity.
  - apply (proj2 (mul_overlap_order _ _ names_ok_op_a names_ok_op_b)).
    intros [H _]. discriminate H.
Defined.

(** C1 as the specification words it fails: for an operator on the left
    and a state on the right the overlap is not left-then-right, and for
    two operators it is not right-then-left. *)
Lemma mul_overlap_not_as_specified :
  (kind Examples.ket_b = state /\ kind Examples.op_a = oper /\
   _mul_overlap Examples.op_a Examples.ket_b <>
     Ok (dedupe (left_names_for_overlap Examples.op_a ++
                 right_names_for_overlap Examples.ket_b))) /\
  (~ (kind Examples.op_b = state /\ kind Examples.op_a = oper) /\
   _mul_overlap Examples.op_a Examples.op_b <>
     Ok (dedupe (right_names_for_overlap Examples.op_b ++
                 left_names_for_overlap Examples.op_a))).
Proof.
  split.
  - split; [reflexivity|]. split; [reflexivity|]. vm_compute. discriminate.
  - split; [intros [H _]; discriminate H|]. vm_compute. discriminate.
Qed.

(** ** Renaming *)

Lemma rename_error_keeps_receiver (self : NQobj) (name new_name : string) (e : exn) :
  snd (rename self name new_name) = Raise e ->
  fst (rename self name new_name) = self.
Proof.
  unfold rename. destruct (name_eqb name new_name); [reflexivity|].
  destruct (mem new_name _); [reflexivity|].
  destruct (negb _); [reflexivity|]. simpl. discriminate.
Qed.

(** C8 (as amended).  A call with [name == new_name] returns at once,
    without error and with the receiver unchanged, whether or not the name
    stands on an axis.  For two different names: [rename] to a new name
    that already stands on either axis raises the collision error;
    otherwise [rename] of an old name that stands on neither axis raises
    the lookup error.  Whenever [rename] raises, the receiver, and so its
    name lists, is as before the call. *)
Theorem rename_errors (self : NQobj) (name new_name : string) :
  (name = new_name -> rename self name new_name = (self, Ok tt)) /\
  (name <> new_name ->
   In new_name (fst (names self) ++ snd (names self)) ->
   rename self name new_name =
     (self, Raise (ValueError
                     "You cannot use a new_name which is already used."))) /\
  (name <> new_name ->
   ~ In new_name (fst (names self) ++ snd (names self)) ->
   ~ In name (fst (names self) ++ snd (names self)) ->
   rename self name new_name =
     (self, Raise (ValueError
        "The name you want to replace is not present in the NQobj."))) /\
  (forall e, snd (rename self name new_name) = Raise e ->
             names (fst (rename self name new_name)) = names self).
Proof.
  split; [|split; [|split]].
  - intros ->. unfold rename. now rewrite name_eqb_refl.
  - intros Hne Hin. apply name_eqb_neq in Hne. apply mem_In in Hin.
    unfold rename. now rewrite Hne, Hin.
  - intros Hne Hnew Hold. apply name_eqb_neq in Hne.
    apply mem_false in Hnew, Hold. unfold rename.
    now rewrite Hne, Hnew, Hold.
  - intros e He. now rewrite (rename_error_keeps_receiver _ _ _ _ He).
Qed.

Lemma rename_errors_witness :
  rename Examples.op_ab "a" "b" =
    (Examples.op_ab,
     Raise (ValueError "You cannot use a new_name which is already used.")) /\
  rename Examples.op_ab "z" "c" =
    (Examples.op_ab,
     Raise (ValueError
        "The name you want to replace is not present in the NQobj.")) /\
  rename Examples.op_ab "a" "a" = (Examples.op_ab, Ok tt) /\
  rename Examples.op_ab "z" "z" = (Examples.op_ab, Ok tt).
Proof.
  split; [|split; [|split]].
  - apply (proj1 (proj2 (rename_errors Examples.op_ab "a" "b"))).
    + discriminate.
    + simpl. auto.
  - apply (proj1 (proj2 (proj2 (rename_errors Examples.op_ab "z" "c")))).
    + discriminate.
    + simpl. intros [H | [H | []]]; discriminate H.
    + simpl. intros [H | [H | []]]; discriminate H.
  - apply (proj1 (rename_errors Examples.op_ab "a" "a")). reflexivity.
  - apply (proj1 (rename_errors Examples.op_ab "z" "z")). reflexivity.
Defined.

(** C8 as the specification words it fails: the name ["z"] stands on
    neither axis, yet renaming it to itself raises nothing. *)
Lemma rename_absent_name_no_error :
  ~ In "z"%string (fst (names Examples.op_ab) ++ snd (names Examples.op_ab)) /\
  rename Examples.op_ab "z" "z" = (Examples.op_ab, Ok tt) /\
  ~ (exists e, snd (rename Examples.op_ab "z" "z") = Raise e).
Proof.
  split; [simpl; intros [H | [H | []]]; discriminate H|].
  split; [reflexivity|]. intros [e He]. discriminate He.
Qed.

(** ** Equality *)

(** C9.  [==] does not look at the kind: two named objects with equal
    backend objects and equal name lists compare equal, whatever their
    kinds. *)
Theorem eq_ignores_kind (a b : NQobj) :
  Qobj_eq (qobj a) (qobj b) = Ok true ->
  names a = names b ->
  __eq__ a b = Ok true.
Proof.
  intros HQ Hn. unfold __eq__. rewrite HQ. simpl.
  unfold names_pair_eqb. rewrite Hn.
  rewrite (proj2 (names_eqb_eq _ _) eq_refl).
  rewrite (proj2 (names_eqb_eq _ _) eq_refl). reflexivity.
Qed.

Lemma eq_ignores_kind_witness :
  kind Examples.op_a <> kind (MkNQobj Examples.eye2 (names Examples.op_a) state) /\
  __eq__ Examples.op_a (MkNQobj Examples.eye2 (names Examples.op_a) state)
    = Ok true.
Proof.
  split; [discriminate|].
  apply eq_ignores_kind; reflexivity.
Defined.

(** ** Addition with something that is not a named object *)

(** C10.  When the right operand is not a named object, [__add__] raises
    nothing and returns [None]. *)
Theorem add_foreign_operand_is_None (so : set_order) (x : NQobj) (other : pyval) :
  (forall y, other <> VNQobj y) ->
  __add__ so x other = Ok None.
Proof.
  intros H. destruct other as [y| | |]; try reflexivity.
  exfalso. now apply (H y).
Qed.

Lemma add_foreign_operand_is_None_witness :
  __add__ Examples.insertion_order Examples.op_a (VNumber (Cplx 4 0)) = Ok None.
Proof.
  apply add_foreign_operand_is_None. intros y H. discriminate H.
Defined.

(** ** Multiplication: what is returned *)

Lemma bind_Ok {A B : Type} (m : result A) (k : A -> result B) (b : B) :
  bind m k = Ok b -> exists a, m = Ok a /\ k a = Ok b.
Proof. destruct m as [a|e]; simpl; [eauto | discriminate]. Qed.

Ltac bind_inv H :=
  let a := fresh "v" in
  let H1 := fresh "E" in
  apply bind_Ok in H; destruct H as [a [H1 H]].

Tactic Notation "bind_split" hyp(H) "as" ident(a) ident(E) :=
  apply bind_Ok in H; destruct H as [a [E H]].

Lemma tensor_kind (Q : NQobj) (modes : list NQobj) (r : NQobj) :
  tensor (Q :: modes) = Ok r -> kind r = kind Q.
Proof.
  unfold tensor. intros H. bind_inv H.
  destruct (negb _); [discriminate|].
  now apply NQobj_init_kind in H.
Qed.

Lemma _adding_missing_modes_kind (Q : NQobj) (d : list (string * dims_pair))
      (k : kind_t) (r : NQobj) :
  _adding_missing_modes Q d k = Ok r -> kind r = kind Q.
Proof.
  unfold _adding_missing_modes. intros H. bind_inv H.
  now apply tensor_kind in H.
Qed.

Lemma permute_kind (x : NQobj) (order : order_arg) (r : NQobj) :
  permute x order = Ok r -> kind r = kind x.
Proof.
  unfold permute. intros H. bind_inv H. bind_inv H.
  destruct v0 as [d ds]. bind_inv H. bind_inv H.
  now apply NQobj_init_kind in H.
Qed.

Lemma mul_operands_kind (so : set_order) (a b a2 b2 : NQobj)
      (nm : (list string * list string) * (list string * list string)) :
  mul_operands so a b = Ok (a2, b2, nm) ->
  kind a2 = kind a /\ kind b2 = kind b.
Proof.
  unfold mul_operands. intros H. bind_inv H. destruct v as [ns no].
  bind_inv H. bind_inv H. bind_inv H. bind_inv H. bind_inv H. bind_inv H.
  inversion H; subst.
  apply _adding_missing_modes_kind in E2, E4.
  apply permute_kind in E3, E5. split; congruence.
Qed.

(** C5.  When the backend product of the prepared operands has shape
    (1, 1), [__mul__] returns that backend object itself, a plain object
    with neither names nor kind, and not a named object. *)
Theorem mul_scalar_is_plain (so : set_order) (a b : NQobj) (q : Qobj) :
  mul_backend_result so a b = Ok q ->
  shape q = (1, 1) ->
  __mul__ so a (VNQobj b) = Ok (RetQobj q).
Proof.
  unfold mul_backend_result, __mul__. intros H Hs.
  destruct (mul_operands so a b) as [[[a2 b2] [ns no]]|e]; simpl in *;
    [|discriminate].
  rewrite H. cbn [bind]. unfold shape in Hs. injection Hs as Hr Hc.
  rewrite Hr, Hc. reflexivity.
Qed.

Lemma mul_scalar_is_plain_witness :
  __mul__ Examples.insertion_order Examples.bra_x (VNQobj Examples.ket_x)
  = Ok (RetQobj (MkQobj (Coo 1 1 [(0, 0, c1)]) ([1], [1]))).
Proof.
  apply mul_scalar_is_plain; reflexivity.
Defined.

(** ** Partial trace *)

(** C2.  [ptrace] on the square operator [op_ab], whose row name ["a"]
    differs from its column name ["b"]: whenever the backend's trace-out
    returns a one-mode object, [ptrace] returns a named object and raises
    nothing. *)
Theorem ptrace_asymmetric_names_returns (B : Backend) (q : Qobj) :
  qt_ptrace (qobj Examples.op_ab) [0] = Ok q ->
  shape_dims q = (1, 1) ->
  fst (names Examples.op_ab) <> snd (names Examples.op_ab) /\
  ptrace Examples.op_ab (SelInts [0]) true
    = Ok (MkNQobj q (["a"%string], ["a"%string]) oper).
Proof.
  intros Hq Hs. split; [discriminate|].
  unfold ptrace. cbn [bind]. rewrite Hq. cbn [bind].
  unfold NQobj_init, init_names. rewrite Hs. reflexivity.
Qed.

Lemma ptrace_asymmetric_names_returns_witness :
  @ptrace exact_backend Examples.op_ab (SelInts [0]) true
  = Ok (MkNQobj Examples.eye2 (["a"%string], ["a"%string]) oper).
Proof.
  apply (ptrace_asymmetric_names_returns exact_backend Examples.eye2
                                          eq_refl eq_refl).
Defined.

(** ** The name invariant of every produced object *)

Lemma set_nth_length (l : list string) (i : nat) (v : string) :
  length (set_nth l i v) = length l.
Proof.
  revert i. induction l as [|y t IH]; intros [|i]; simpl; auto.
Qed.

Lemma set_nth_In (l : list string) (i : nat) (v x : string) :
  In x (set_nth l i v) -> x = v \/ In x l.
Proof.
  revert i. induction l as [|y t IH]; intros [|i]; simpl; auto.
  - intros [H | H]; auto.
  - intros [H | H]; auto. destruct (IH i H); auto.
Qed.

Lemma set_nth_NoDup (l : list string) (i : nat) (v : string) :
  NoDup l -> ~ In v l -> NoDup (set_nth l i v).
Proof.
  revert i. induction l as [|y t IH]; intros i Hnd Hv; simpl.
  - destruct i; constructor.
  - inversion Hnd; subst. destruct i as [|i].
    + constructor; [|assumption]. intros H. apply Hv. now right.
    + constructor.
      * intros H. apply set_nth_In in H. destruct H as [H | H]; [|contradiction].
        apply Hv. left. assumption.
      * apply IH; [assumption|]. intros H. apply Hv. now right.
Qed.

Lemma rename_axis_ok (l : list string) (name new_name : string) :
  NoDup l -> ~ In new_name l ->
  NoDup (rename_axis l name new_name) /\
  length (rename_axis l name new_name) = length l.
Proof.
  intros Hnd Hnew. unfold rename_axis.
  destruct (index_of name l) as [i|]; [|auto].
  split; [now apply set_nth_NoDup | apply set_nth_length].
Qed.

Lemma rename_names_ok (a : NQobj) (name new_name : string) :
  names_ok a -> names_ok (fst (rename a name new_name)).
Proof.
  intros Ha. unfold rename.
  destruct (name_eqb name new_name); [assumption|].
  destruct (mem new_name _) eqn:Hm; [assumption|].
  destruct (negb _); [assumption|]. simpl.
  apply mem_false in Hm. destruct Ha as [N0 [N1 [L0 L1]]].
  assert (H0 : ~ In new_name (fst (names a))).
  { intros H. apply Hm, in_or_app. now left. }
  assert (H1 : ~ In new_name (snd (names a))).
  { intros H. apply Hm, in_or_app. now right. }
  destruct (rename_axis_ok _ name new_name N0 H0) as [A0 B0].
  destruct (rename_axis_ok _ name new_name N1 H1) as [A1 B1].
  unfold names_ok. simpl. repeat split; congruence.
Qed.

Lemma rename_qobj (a : NQobj) (name new_name : string) :
  qobj (fst (rename a name new_name)) = qobj a.
Proof.
  unfold rename. destruct (name_eqb name new_name); [reflexivity|].
  destruct (mem new_name _); [reflexivity|].
  destruct (negb _); reflexivity.
Qed.

Lemma aliased_names_ok (a y y' : NQobj) (name new_name : string) :
  names_ok a -> names_ok y ->
  aliased_after a (fst (rename a name new_name)) y y' -> names_ok y'.
Proof.
  intros Ha Hy [Hq [_ [S0 S1]]].
  pose proof (rename_names_ok a name new_name Ha) as Ha'.
  pose proof (rename_qobj a name new_name) as Hqa.
  destruct Ha as [A0 [A1 [AL0 AL1]]]. destruct Hy as [Y0 [Y1 [YL0 YL1]]].
  destruct Ha' as [B0 [B1 [BL0 BL1]]]. rewrite Hqa in BL0, BL1.
  unfold names_ok. rewrite Hq.
  assert (H0 : NoDup (fst (names y')) /\
               length (fst (names y')) = length (fst (dims (qobj y)))).
  { destruct S0 as [-> | [[E ->] | [E ->]]]; [auto | |];
      split; try assumption; rewrite E in YL0; congruence. }
  assert (H1 : NoDup (snd (names y')) /\
               length (snd (names y')) = length (snd (dims (qobj y)))).
  { destruct S1 as [-> | [[E ->] | [E ->]]]; [auto | |];
      split; try assumption; rewrite E in YL1; congruence. }
  tauto.
Qed.

Lemma permute_names_ok (a : NQobj) (order : order_arg) (x : NQobj) :
  permute a order = Ok x -> names_ok x.
Proof.
  unfold permute. intros H. bind_inv H. bind_inv H. destruct v0 as [d ds].
  bind_inv H. bind_inv H. now apply NQobj_init_names_ok in H.
Qed.

Lemma tensor_names_ok (args : list NQobj) (x : NQobj) :
  tensor args = Ok x -> names_ok x.
Proof.
  unfold tensor. intros H. bind_inv H. destruct args as [|a rest]; [discriminate|].
  destruct (negb _); [discriminate|]. now apply NQobj_init_names_ok in H.
Qed.

Lemma add_names_ok (so : set_order) (a b x : NQobj) :
  __add__ so a (VNQobj b) = Ok (Some x) -> names_ok x.
Proof.
  unfold __add__. intros H.
  destruct (negb (qtype_eqb _ _)); [discriminate|].
  destruct (negb (kind_eqb _ _)); [discriminate|].
  destruct (isket _ || isbra _ || isoper _); [|discriminate].
  do 8 bind_inv H. inversion H; subst.
  match goal with
  | E : NQobj_init _ _ _ = Ok x |- _ => now apply NQobj_init_names_ok in E
  end.
Qed.

Lemma mul_names_ok (so : set_order) (a : NQobj) (other : pyval) (x : NQobj) :
  __mul__ so a other = Ok (RetNQobj x) -> names_ok x.
Proof.
  unfold __mul__. intros H. destruct other as [b|q|z|]; try discriminate.
  - bind_inv H. destruct v as [[a2 b2] [ns no]]. bind_inv H.
    destruct (_ && _); [discriminate|]. do 2 bind_inv H. inversion H; subst.
    match goal with
    | E : NQobj_init _ _ _ = Ok x |- _ => now apply NQobj_init_names_ok in E
    end.
  - bind_inv H. discriminate.
  - bind_inv H. inversion H; subst. now apply NQobj_init_names_ok in E.
Qed.

Lemma expand_names_ok (so : set_order) (a x : NQobj) :
  names_ok a -> expand so a = Ok x -> names_ok x.
Proof.
  unfold expand. intros Ha H.
  destruct (names_eqb _ _).
  - inversion H; subst. assumption.
  - bind_inv H. bind_inv H. destruct v0 as [q nm]. bind_inv H.
    now apply permute_names_ok in H.
Qed.

Section InvariantWithBackend.

Context {B : Backend}.

Lemma expm_names_ok (so : set_order) (a x : NQobj) :
  expm so a = Ok x -> names_ok x.
Proof.
  unfold expm. intros H. destruct (_ && _).
  - bind_inv H. now apply NQobj_init_names_ok in H.
  - do 2 bind_inv H. destruct (_ && _); [|discriminate].
    bind_inv H. now apply NQobj_init_names_ok in H.
Qed.

Lemma ptrace_names_ok (a : NQobj) (sel : sel_arg) (keep : bool) (x : NQobj) :
  ptrace a sel keep = Ok x -> names_ok x.
Proof.
  unfold ptrace. intros H. do 2 bind_inv H.
  now apply NQobj_init_names_ok in H.
Qed.

(** C3.  Every named object produced by a public operation (the
    constructor, [+], [*], multiplication by a number, negation, power,
    [dag], [trans], [proj], [unit], [ptrace], [permute], [expand],
    [expm], [tensor], [copy], and the receiver of [rename] with every
    object that shares a name list with it) has pairwise distinct names on
    each axis and as many names on each axis as the dimension vector of
    that axis has entries. *)
Theorem produced_names_ok (x : NQobj) :
  produced x ->
  NoDup (fst (names x)) /\ NoDup (snd (names x)) /\
  length (fst (names x)) = length (fst (dims (qobj x))) /\
  length (snd (names x)) = length (snd (dims (qobj x))).
Proof.
  intros Hp. change (names_ok x). induction Hp.
  - eapply NQobj_init_names_ok; eassumption.
  - unfold NQobj_of in *. destruct na; eapply NQobj_init_names_ok; eassumption.
  - eapply add_names_ok; eassumption.
  - eapply mul_names_ok; eassumption.
  - eapply mul_names_ok; eassumption.
  - eapply NQobj_init_names_ok; eassumption.
  - unfold __pow__ in *. match goal with H : bind _ _ = Ok _ |- _ => bind_inv H;
      eapply NQobj_init_names_ok; eassumption end.
  - eapply NQobj_init_names_ok; eassumption.
  - eapply NQobj_init_names_ok; eassumption.
  - unfold proj in *. match goal with H : bind _ _ = Ok _ |- _ => bind_inv H;
      eapply NQobj_init_names_ok; eassumption end.
  - unfold unit in *. match goal with H : bind _ _ = Ok _ |- _ => bind_inv H;
      eapply NQobj_init_names_ok; eassumption end.
  - eapply ptrace_names_ok; eassumption.
  - eapply permute_names_ok; eassumption.
  - eapply expand_names_ok; eassumption.
  - eapply expm_names_ok; eassumption.
  - eapply tensor_names_ok; eassumption.
  - eapply NQobj_init_names_ok; eassumption.
  - now apply rename_names_ok.
  - eapply aliased_names_ok; [| |eassumption]; assumption.
Qed.

End InvariantWithBackend.

Lemma produced_names_ok_witness :
  exists x,
    __mul__ Examples.insertion_order Examples.op_a (VNQobj Examples.op_b)
      = Ok (RetNQobj x) /\
    NoDup (fst (names x)) /\ NoDup (snd (names x)) /\
    length (fst (names x)) = length (fst (dims (qobj x))) /\
    length (snd (names x)) = length (snd (dims (qobj x))).
Proof.
  eexists. split; [reflexivity|].
  apply (@produced_names_ok exact_backend).
  eapply (@produced_mul exact_backend Examples.insertion_order
                        Examples.op_a Examples.op_b).
  - eapply (@produced_init exact_backend Examples.eye2 (NamesStr "a")
                           (KindGiven oper)). reflexivity.
  - eapply (@produced_init exact_backend Examples.eye2 (NamesStr "b")
                           (KindGiven oper)). reflexivity.
  - reflexivity.
Defined.

(** ** Mixed-radix indices *)

Lemma prod_dims_app (a b : list nat) :
  prod_dims (a ++ b) = prod_dims a * prod_dims b.
Proof.
  unfold prod_dims. induction a as [|x a IH]; simpl; [lia|].
  rewrite IH. lia.
Qed.

Lemma prod_dims_rev (l : list nat) : prod_dims (rev l) = prod_dims l.
Proof.
  induction l as [|x l IH]; simpl; [reflexivity|].
  rewrite prod_dims_app, IH. unfold prod_dims. simpl. lia.
Qed.

Lemma prod_dims_perm (a b : list nat) :
  Permutation a b -> prod_dims a = prod_dims b.
Proof.
  unfold prod_dims. induction 1; simpl; lia.
Qed.

Lemma Forall2_rev_both {A B : Type} (P : A -> B -> Prop) (a : list A) (b : list B) :
  Forall2 P a b -> Forall2 P (rev a) (rev b).
Proof.
  induction 1; simpl; [constructor|].
  apply Forall2_app; [assumption | repeat constructor; assumption].
Qed.

Lemma assemble_r_scale (m rds : list nat) (dim : nat) :
  assemble_r m rds dim = dim * assemble_r m rds 1.
Proof.
  revert rds dim.
  induction m as [|x xs IH]; intros [|d t] dim; cbn [assemble_r]; try lia.
  rewrite (IH t (dim * d)), (IH t (1 * d)). nia.
Qed.

Lemma decompose_r_ok (rds : list nat) (idx : nat) :
  idx < prod_dims rds ->
  digits_ok (decompose_r rds idx) rds /\
  assemble_r (decompose_r rds idx) rds 1 = idx.
Proof.
  revert idx. induction rds as [|d t IH]; intros idx Hlt.
  - unfold prod_dims in Hlt. simpl in *. split; [constructor | lia].
  - change (prod_dims (d :: t)) with (d * prod_dims t) in Hlt.
    assert (Hd : d <> 0) by (intros ->; lia).
    assert (Hq : idx / d < prod_dims t)
      by (apply Nat.Div0.div_lt_upper_bound; lia).
    destruct (IH (idx / d) Hq) as [Hok Has].
    cbn [decompose_r assemble_r]. split.
    + constructor; [now apply Nat.mod_upper_bound | assumption].
    + rewrite assemble_r_scale, Has.
      pose proof (Nat.div_mod_eq idx d). lia.
Qed.

Lemma assemble_r_ok (m rds : list nat) :
  digits_ok m rds ->
  assemble_r m rds 1 < prod_dims rds /\
  decompose_r rds (assemble_r m rds 1) = m.
Proof.
  induction 1 as [|x d xs t Hx Hrest [IHlt IHdec]].
  - unfold prod_dims. simpl. split; [lia | reflexivity].
  - change (prod_dims (d :: t)) with (d * prod_dims t).
    cbn [assemble_r]. rewrite assemble_r_scale.
    set (a := assemble_r xs t 1) in *.
    assert (E : x * 1 + 1 * d * a = x + a * d) by lia. rewrite E. split.
    + nia.
    + cbn [decompose_r].
      rewrite Nat.Div0.mod_add, Nat.mod_small by assumption.
      rewrite Nat.div_add, Nat.div_small by lia. simpl.
      now rewrite IHdec.
Qed.

Lemma multi_index_ok (ds : list nat) (idx : nat) :
  idx < prod_dims ds ->
  digits_ok (multi_index ds idx) ds /\
  flat_index ds (multi_index ds idx) = idx.
Proof.
  intros Hlt. rewrite <- prod_dims_rev in Hlt.
  destruct (decompose_r_ok _ _ Hlt) as [Hok Has].
  unfold multi_index, flat_index. split.
  - apply Forall2_rev_both in Hok. now rewrite rev_involutive in Hok.
  - now rewrite rev_involutive.
Qed.

Lemma flat_index_ok (ds m : list nat) :
  digits_ok m ds ->
  flat_index ds m < prod_dims ds /\
  multi_index ds (flat_index ds m) = m.
Proof.
  intros Hok. apply Forall2_rev_both in Hok.
  destruct (assemble_r_ok _ _ Hok) as [Hlt Hdec].
  unfold multi_index, flat_index. split.
  - now rewrite prod_dims_rev in Hlt.
  - now rewrite Hdec, rev_involutive.
Qed.

(** ** Positions of names and selection by position *)

Lemma pos_In (ns : list string) (x : string) :
  In x ns -> pos ns x < length ns /\ nth_error ns (pos ns x) = Some x.
Proof.
  intros H. unfold pos. destruct (index_of_In _ _ H) as [i Hi]. rewrite Hi.
  apply index_of_Some in Hi. tauto.
Qed.

Lemma pos_nth_error (ns : list string) (j : nat) (x : string) :
  NoDup ns -> nth_error ns j = Some x -> pos ns x = j.
Proof.
  intros Hnd Hj. assert (Hin : In x ns) by (eapply nth_error_In; eassumption).
  destruct (pos_In _ _ Hin) as [Hlt Hp].
  rewrite NoDup_nth_error in Hnd. apply Hnd; [assumption | congruence].
Qed.

Lemma mapM_py_index (ns p : list string) :
  (forall x, In x p -> In x ns) ->
  mapM (py_index ns) p = Ok (map (pos ns) p).
Proof.
  induction p as [|x t IH]; intros H; simpl; [reflexivity|].
  unfold py_index at 1, pos at 1.
  destruct (index_of_In x ns (H x (or_introl eq_refl))) as [i Hi].
  rewrite Hi. simpl. rewrite IH by (intros y Hy; apply H; now right).
  reflexivity.
Qed.

Lemma py_select_ok {A : Type} (d : A) (l : list A) (o : list nat) :
  Forall (fun i => i < length l) o ->
  py_select l o = Ok (map (fun i => nth i l d) o).
Proof.
  unfold py_select. induction 1 as [|i o Hi Ho IH]; simpl; [reflexivity|].
  unfold py_getitem at 1. rewrite (nth_error_nth' l d Hi). simpl.
  now rewrite IH.
Qed.

Lemma positions_in_range (ns p : list string) :
  (forall x, In x p -> In x ns) ->
  Forall (fun i => i < length ns) (map (pos ns) p).
Proof.
  intros H. apply Forall_forall. intros i Hi. apply in_map_iff in Hi.
  destruct Hi as [x [<- Hx]]. now apply pos_In, H.
Qed.

Lemma select_positions (ns p : list string) (d : string) :
  (forall x, In x p -> In x ns) ->
  map (fun i => nth i ns d) (map (pos ns) p) = p.
Proof.
  intros H. rewrite map_map. rewrite <- (map_id p) at 2.
  apply map_ext_in. intros x Hx. apply nth_error_nth. now apply pos_In, H.
Qed.

Lemma map_nth_seq {A : Type} (d : A) (l : list A) :
  map (fun i => nth i l d) (seq 0 (length l)) = l.
Proof.
  apply (nth_ext _ _ d d).
  - now rewrite length_map, length_seq.
  - intros n Hn. rewrite length_map, length_seq in Hn.
    rewrite (nth_indep _ d (nth 0 l d)) by (now rewrite length_map, length_seq).
    rewrite (map_nth (fun i => nth i l d) (seq 0 (length l)) 0 n).
    now rewrite seq_nth.
Qed.

Lemma positions_self (ns : list string) :
  NoDup ns -> map (pos ns) ns = seq 0 (length ns).
Proof.
  intros Hnd. apply (nth_ext _ _ 0 0).
  - now rewrite length_map, length_seq.
  - intros n Hn. rewrite length_map in Hn. rewrite seq_nth by assumption.
    rewrite (nth_indep _ 0 (pos ns EmptyString)) by (now rewrite length_map).
    rewrite map_nth. apply pos_nth_error; [assumption|].
    now apply nth_error_nth'.
Qed.

Lemma positions_perm (ns p : list string) :
  NoDup ns -> Permutation p ns ->
  Permutation (map (pos ns) p) (seq 0 (length ns)).
Proof.
  intros Hnd Hp. rewrite <- (positions_self _ Hnd). now apply Permutation_map.
Qed.

Lemma prod_dims_pick (ds : list nat) (o : list nat) :
  Permutation o (seq 0 (length ds)) -> prod_dims (pick ds o) = prod_dims ds.
Proof.
  intros Hp. unfold pick.
  transitivity (prod_dims (map (fun i => nth i ds 0) (seq 0 (length ds)))).
  - apply prod_dims_perm. now apply Permutation_map.
  - now rewrite map_nth_seq.
Qed.

Lemma digits_ok_nth (m ds : list nat) (i : nat) :
  digits_ok m ds -> i < length ds -> nth i m 0 < nth i ds 0.
Proof.
  intros H. revert i. induction H as [|x d xs t Hx Hrest IH]; intros i Hi.
  - simpl in Hi. lia.
  - destruct i as [|i]; simpl; [assumption|]. apply IH. simpl in Hi. lia.
Qed.

Lemma digits_ok_pick (m ds o : list nat) :
  digits_ok m ds -> Forall (fun i => i < length ds) o ->
  digits_ok (pick m o) (pick ds o).
Proof.
  intros Hm. induction 1 as [|i o Hi Ho IH]; simpl; constructor.
  - now apply digits_ok_nth.
  - exact IH.
Qed.

(** Selecting by the positions of [p] in [ns] and then by the positions of
    [ns] in [p] gives the list back. *)
Lemma pick_inverse {A : Type} (d : A) (ns p : list string) (l : list A) :
  NoDup ns -> Permutation p ns -> length l = length ns ->
  map (fun i => nth i (map (fun i => nth i l d) (map (pos ns) p)) d)
      (map (pos p) ns) = l.
Proof.
  intros Hnd Hp Hlen.
  assert (Hlp : length p = length ns) by now apply Permutation_length.
  apply (nth_ext _ _ d d).
  - now rewrite !length_map.
  - intros j Hj. rewrite !length_map in Hj.
    set (F := fun i => nth i (map (fun i => nth i l d) (map (pos ns) p)) d).
    rewrite (nth_indep _ d (F 0)) by (now rewrite !length_map).
    rewrite map_map.
    assert (Hx : nth_error ns j = Some (nth j ns EmptyString))
      by now apply nth_error_nth'.
    set (x := nth j ns EmptyString) in *.
    assert (Hxp : In x p).
    { apply (Permutation_in x (Permutation_sym Hp)).
      eapply nth_error_In; eassumption. }
    destruct (pos_In _ _ Hxp) as [Hk Hpk].
    rewrite (nth_indep _ (F 0) (F (pos p EmptyString)))
      by (now rewrite length_map).
    rewrite (map_nth (fun y => F (pos p y)) ns EmptyString j).
    fold x. unfold F.
    rewrite (nth_indep _ d (nth 0 l d)) by (rewrite !length_map; lia).
    rewrite (map_nth (fun i => nth i l d) (map (pos ns) p) 0 (pos p x)).
    rewrite (nth_indep _ 0 (pos ns EmptyString)) by (rewrite length_map; lia).
    rewrite map_nth.
    rewrite (nth_error_nth _ _ EmptyString Hpk).
    now rewrite (pos_nth_error _ _ _ Hnd Hx).
Qed.

(** ** Permutation of indices *)

Lemma forallb_ltb (n : nat) (o : list nat) :
  Forall (fun i => i < n) o -> forallb (fun i => i <? n) o = true.
Proof.
  intros H. apply forallb_forall. intros i Hi.
  rewrite Forall_forall in H. apply Nat.ltb_lt. now apply H.
Qed.

Lemma cy_index_permute_ok (ds o : list nat) (idx : nat) :
  length o = length ds -> Forall (fun i => i < length ds) o ->
  cy_index_permute ds o idx = Ok (index_map ds o idx).
Proof.
  intros Hlen Hr. unfold cy_index_permute.
  rewrite <- Hlen, firstn_all, Nat.eqb_refl. rewrite Hlen.
  now rewrite (forallb_ltb _ _ Hr).
Qed.

Lemma perm_seq_in_range (n : nat) (o : list nat) :
  Permutation o (seq 0 n) -> length o = n /\ Forall (fun i => i < n) o.
Proof.
  intros Hp. split.
  - rewrite (Permutation_length Hp). apply length_seq.
  - apply Forall_forall. intros i Hi.
    apply (Permutation_in _ Hp) in Hi. apply in_seq in Hi. lia.
Qed.

Lemma index_map_lt (ds o : list nat) (idx : nat) :
  Permutation o (seq 0 (length ds)) -> idx < prod_dims ds ->
  index_map ds o idx < prod_dims ds.
Proof.
  intros Hp Hlt. destruct (perm_seq_in_range _ _ Hp) as [_ Hr].
  destruct (multi_index_ok ds idx Hlt) as [Hm _].
  rewrite <- (prod_dims_pick _ _ Hp). unfold index_map.
  apply flat_index_ok. now apply digits_ok_pick.
Qed.

Lemma digits_ok_length (m ds : list nat) : digits_ok m ds -> length m = length ds.
Proof. induction 1; simpl; congruence. Qed.

Lemma index_map_inverse (ds o o' : list nat) (idx : nat) :
  idx < prod_dims ds ->
  Forall (fun i => i < length ds) o ->
  (forall l : list nat, length l = length ds -> pick (pick l o) o' = l) ->
  index_map (pick ds o) o' (index_map ds o idx) = idx.
Proof.
  intros Hlt Hr Hinv. destruct (multi_index_ok ds idx Hlt) as [Hm Hflat].
  assert (Hpm : digits_ok (pick (multi_index ds idx) o) (pick ds o))
    by now apply digits_ok_pick.
  unfold index_map at 1. unfold index_map.
  rewrite (proj2 (flat_index_ok _ _ Hpm)).
  rewrite (Hinv ds eq_refl), (Hinv _ (digits_ok_length _ _ Hm)).
  exact Hflat.
Qed.

Lemma mapM_ok_map {A B : Type} (f : A -> result B) (g : A -> B) (l : list A) :
  (forall x, In x l -> f x = Ok (g x)) -> mapM f l = Ok (map g l).
Proof.
  induction l as [|x t IH]; intros H; simpl; [reflexivity|].
  rewrite (H x (or_introl eq_refl)). simpl.
  rewrite IH by (intros y Hy; apply H; now right). reflexivity.
Qed.

Lemma _permute2_pair_ok (Q : Qobj) (o0 o1 : list nat) :
  length o0 = length (fst (dims Q)) ->
  Forall (fun i => i < length (fst (dims Q))) o0 ->
  length o1 = length (snd (dims Q)) ->
  Forall (fun i => i < length (snd (dims Q))) o1 ->
  _permute2 Q (Pair o0 o1) =
    Ok (Coo (nrows (data Q)) (ncols (data Q))
            (map (permute_trip (fst (dims Q)) o0 (snd (dims Q)) o1)
                 (trip (data Q))),
        (pick (fst (dims Q)) o0, pick (snd (dims Q)) o1)).
Proof.
  intros L0 R0 L1 R1. unfold _permute2.
  rewrite (mapM_ok_map (permute_rows (fst (dims Q)) o0)
             (fun t => match t with
                       | (r, c, v) => (index_map (fst (dims Q)) o0 r, c, v)
                       end)).
  2:{ intros [[r c] v] _. unfold permute_rows.
      now rewrite cy_index_permute_ok. }
  cbn [bind].
  rewrite (mapM_ok_map (permute_cols (snd (dims Q)) o1)
             (fun t => match t with
                       | (r, c, v) => (r, index_map (snd (dims Q)) o1 c, v)
                       end)).
  2:{ intros [[r c] v] _. unfold permute_cols.
      now rewrite cy_index_permute_ok. }
  cbn [bind]. rewrite (py_select_ok 0 _ _ R0), (py_select_ok 0 _ _ R1).
  cbn [bind]. rewrite map_map. unfold pick. do 3 f_equal.
  apply map_ext. intros [[r c] v]. reflexivity.
Qed.

Lemma perm_subset (p ns : list string) :
  Permutation p ns -> forall x, In x p -> In x ns.
Proof. intros H x. now apply Permutation_in. Qed.

Lemma positions_ok (ns p : list string) (ds : list nat) :
  NoDup ns -> Permutation p ns -> length ns = length ds ->
  length (map (pos ns) p) = length ds /\
  Forall (fun i => i < length ds) (map (pos ns) p) /\
  Permutation (map (pos ns) p) (seq 0 (length ds)).
Proof.
  intros Hnd Hp Hlen.
  pose proof (positions_perm _ _ Hnd Hp) as Hperm. rewrite Hlen in Hperm.
  destruct (perm_seq_in_range _ _ Hperm). auto.
Qed.

(** [permute] with an order of names on each axis that rearranges the
    names of that axis. *)
Lemma permute_pair_ok (x : NQobj) (p0 p1 : list string) :
  names_ok x ->
  Permutation p0 (fst (names x)) -> Permutation p1 (snd (names x)) ->
  permute x (OrderNamesPair p0 p1) = Ok (permuted x p0 p1).
Proof.
  intros [N0 [N1 [L0 L1]]] P0 P1.
  destruct (positions_ok _ _ _ N0 P0 L0) as [A0 [B0 _]].
  destruct (positions_ok _ _ _ N1 P1 L1) as [A1 [B1 _]].
  unfold permute, resolve_order, auto_tidyup.
  rewrite (mapM_py_index _ _ (perm_subset _ _ P0)),
          (mapM_py_index _ _ (perm_subset _ _ P1)).
  cbn [bind]. rewrite (_permute2_pair_ok _ _ _ A0 B0 A1 B1). cbn [bind fst snd].
  rewrite (py_select_ok EmptyString (fst (names x))),
          (py_select_ok EmptyString (snd (names x)))
    by (rewrite ?L0, ?L1; assumption).
  cbn [bind]. rewrite !select_positions by (now apply perm_subset).
  unfold NQobj_init, init_names.
  rewrite (proj2 (has_dup_NoDup p0))
    by (apply (Permutation_NoDup (Permutation_sym P0) N0)).
  rewrite (proj2 (has_dup_NoDup p1))
    by (apply (Permutation_NoDup (Permutation_sym P1) N1)).
  unfold shape_dims, tidyup, pick. cbn [dims fst snd orb].
  rewrite !length_map, !Nat.eqb_refl. reflexivity.
Qed.

(** ** Entries and equality of backend objects *)

Lemma ceqb_eq (a b : cplx) : ceqb a b = true <-> a = b.
Proof.
  unfold ceqb. rewrite andb_true_iff, !Z.eqb_eq. split.
  - intros [H1 H2]. now apply cplx_eq.
  - intros ->. auto.
Qed.

Lemma ceqb_refl (a : cplx) : ceqb a a = true.
Proof. now apply ceqb_eq. Qed.

Lemma entry_cons (nr nc : nat) (t : nat * nat * cplx) (l : list (nat * nat * cplx))
      (r c : nat) :
  entry (Coo nr nc (t :: l)) r c =
  cadd (if (fst (fst t) =? r) && (snd (fst t) =? c) then snd t else c0)
       (entry (Coo nr nc l) r c).
Proof.
  destruct t as [[r' c'] v]. unfold entry. simpl.
  destruct ((r' =? r) && (c' =? c)); [reflexivity|]. ring.
Qed.

Lemma entry_nil (nr nc r c : nat) : entry (Coo nr nc []) r c = c0.
Proof. reflexivity. Qed.

Lemma entry_shape_irrelevant (nr nc nr' nc' : nat) (l : list (nat * nat * cplx))
      (r c : nat) :
  entry (Coo nr nc l) r c = entry (Coo nr' nc' l) r c.
Proof. reflexivity. Qed.

Lemma entry_tidy (m : coo) (r c : nat) : entry (tidy_coo m) r c = entry m r c.
Proof.
  destruct m as [nr nc l]. unfold tidy_coo. simpl.
  induction l as [|t l IH]; [reflexivity|].
  simpl filter. rewrite (entry_cons nr nc t l).
  destruct (ceqb (snd t) c0) eqn:E; simpl.
  - rewrite IH. apply ceqb_eq in E. rewrite E.
    destruct (_ && _); ring.
  - rewrite entry_cons, IH. reflexivity.
Qed.

Lemma coo_eqb_true (a b : coo) :
  (forall r c, entry a r c = entry b r c) -> coo_eqb a b = true.
Proof.
  intros H. unfold coo_eqb. apply forallb_forall. intros r _.
  apply forallb_forall. intros c _. rewrite H. apply ceqb_refl.
Qed.

Lemma dims_eqb_refl (d : list nat * list nat) : dims_eqb d d = true.
Proof.
  unfold dims_eqb. now rewrite !(proj2 (list_nat_eqb_eq _ _) eq_refl).
Qed.

Lemma names_pair_eqb_refl (n : list string * list string) :
  names_pair_eqb n n = true.
Proof.
  unfold names_pair_eqb. now rewrite !(proj2 (names_eqb_eq _ _) eq_refl).
Qed.

Lemma eq_tidyup (x : NQobj) :
  __eq__ (MkNQobj (tidyup (qobj x)) (names x) (kind x)) x = Ok true.
Proof.
  unfold __eq__, Qobj_eq. cbn [qobj names tidyup dims data tidy_coo nrows ncols].
  rewrite dims_eqb_refl, !Nat.eqb_refl. cbn [andb bind].
  rewrite names_pair_eqb_refl.
  rewrite coo_eqb_true; [reflexivity|].
  intros r c. apply (entry_tidy (data (qobj x))).
Qed.

(** ** The round trip of [permute] *)

Lemma filter_nonzero_map (f : nat * nat * cplx -> nat * nat * cplx)
      (l : list (nat * nat * cplx)) :
  (forall t, snd (f t) = snd t) ->
  filter (fun t => negb (ceqb (snd t) c0)) (map f l) =
  map f (filter (fun t => negb (ceqb (snd t) c0)) l).
Proof.
  intros Hf. induction l as [|t l IH]; simpl; [reflexivity|].
  rewrite Hf. destruct (negb _); simpl; now rewrite IH.
Qed.

Lemma filter_idem {A : Type} (f : A -> bool) (l : list A) :
  filter f (filter f l) = filter f l.
Proof.
  apply filter_id. intros x Hx. apply filter_In in Hx. tauto.
Qed.

Lemma permute_trip_snd (d0 o0 d1 o1 : list nat) (t : nat * nat * cplx) :
  snd (permute_trip d0 o0 d1 o1 t) = snd t.
Proof. destruct t as [[r c] v]. reflexivity. Qed.

Lemma names_ok_permuted (x : NQobj) (p0 p1 : list string) :
  names_ok x ->
  Permutation p0 (fst (names x)) -> Permutation p1 (snd (names x)) ->
  names_ok (permuted x p0 p1).
Proof.
  intros Hx P0 P1. apply (permute_names_ok x (OrderNamesPair p0 p1)).
  now apply permute_pair_ok.
Qed.

Lemma permuted_back (x : NQobj) (p0 p1 : list string) :
  names_ok x -> Qobj_wf (qobj x) ->
  Permutation p0 (fst (names x)) -> Permutation p1 (snd (names x)) ->
  permuted (permuted x p0 p1) (fst (names x)) (snd (names x)) =
  MkNQobj (tidyup (qobj x)) (names x) (kind x).
Proof.
  intros [N0 [N1 [L0 L1]]] [Wr [Wc Wt]] P0 P1.
  destruct (positions_ok _ _ _ N0 P0 L0) as [A0 [B0 _]].
  destruct (positions_ok _ _ _ N1 P1 L1) as [A1 [B1 _]].
  assert (I0 : forall l : list nat, length l = length (fst (dims (qobj x))) ->
               pick (pick l (map (pos (fst (names x))) p0))
                    (map (pos p0) (fst (names x))) = l).
  { intros l Hl. apply (pick_inverse 0); [assumption | assumption | congruence]. }
  assert (I1 : forall l : list nat, length l = length (snd (dims (qobj x))) ->
               pick (pick l (map (pos (snd (names x))) p1))
                    (map (pos p1) (snd (names x))) = l).
  { intros l Hl. apply (pick_inverse 0); [assumption | assumption | congruence]. }
  unfold permuted, tidyup, tidy_coo.
  cbn [names kind qobj fst snd dims data nrows ncols trip].
  rewrite (I0 _ eq_refl), (I1 _ eq_refl).
  rewrite !(filter_nonzero_map _ _ (permute_trip_snd _ _ _ _)).
  rewrite filter_idem, map_map.
  destruct x as [[[nr nc t] [d0 d1]] [n0 n1] k].
  cbn [qobj data dims names fst snd nrows ncols trip kind] in *.
  do 3 f_equal.
  rewrite <- (map_id (filter _ t)) at 2.
  apply map_ext_in. intros [[r c] v] Hin. apply filter_In in Hin.
  destruct Hin as [Hin _]. rewrite Forall_forall in Wt.
  destruct (Wt _ Hin) as [Hr Hc]. cbn [fst snd] in Hr, Hc.
  cbn [permute_trip].
  rewrite (index_map_inverse d0) by (first [assumption | lia]).
  rewrite (index_map_inverse d1) by (first [assumption | lia]).
  reflexivity.
Qed.

Lemma round_trip_pair (x : NQobj) (p0 p1 : list string) :
  names_ok x -> Qobj_wf (qobj x) ->
  Permutation p0 (fst (names x)) -> Permutation p1 (snd (names x)) ->
  round_trip x (OrderNamesPair p0 p1)
             (OrderNamesPair (fst (names x)) (snd (names x))).
Proof.
  intros Hx Hw P0 P1.
  exists (permuted x p0 p1).
  exists (MkNQobj (tidyup (qobj x)) (names x) (kind x)).
  split; [now apply permute_pair_ok|]. split; [|apply eq_tidyup].
  rewrite <- (permuted_back x p0 p1) by assumption.
  apply (permute_pair_ok (permuted x p0 p1)).
  - now apply names_ok_permuted.
  - now apply Permutation_sym.
  - now apply Permutation_sym.
Qed.

Lemma _permute_ok (Q : Qobj) (o : list nat) :
  length o = length (fst (dims Q)) ->
  length o = length (snd (dims Q)) ->
  Forall (fun i => i < length o) o ->
  _permute Q o =
    Ok (Coo (nrows (data Q)) (ncols (data Q))
            (map (flat_trip (type Q) (fst (dims Q)) (snd (dims Q)) o)
                 (trip (data Q))),
        flat_dims (type Q) (fst (dims Q)) (snd (dims Q)) o).
Proof.
  intros L0 L1 R.
  assert (R0 : Forall (fun i => i < length (fst (dims Q))) o) by now rewrite <- L0.
  assert (R1 : Forall (fun i => i < length (snd (dims Q))) o) by now rewrite <- L1.
  unfold _permute, flat_dims.
  destruct (type Q).
  - rewrite (mapM_ok_map (permute_rows (fst (dims Q)) o)
               (flat_trip TKet (fst (dims Q)) (snd (dims Q)) o)).
    2:{ intros [[r c] v] _. unfold permute_rows.
        now rewrite cy_index_permute_ok. }
    cbn [bind]. now rewrite (py_select_ok 0 _ _ R0).
  - rewrite (mapM_ok_map (permute_cols (snd (dims Q)) o)
               (flat_trip TBra (fst (dims Q)) (snd (dims Q)) o)).
    2:{ intros [[r c] v] _. unfold permute_cols.
        now rewrite cy_index_permute_ok. }
    cbn [bind]. now rewrite (py_select_ok 0 _ _ R1).
  - rewrite (mapM_ok_map (permute_rows (fst (dims Q)) o)
               (fun t => match t with
                         | (r, c, v) => (index_map (fst (dims Q)) o r, c, v)
                         end)).
    2:{ intros [[r c] v] _. unfold permute_rows.
        now rewrite cy_index_permute_ok. }
    cbn [bind].
    rewrite (mapM_ok_map (permute_cols (snd (dims Q)) o)
               (fun t => match t with
                         | (r, c, v) => (r, index_map (snd (dims Q)) o c, v)
                         end)).
    2:{ intros [[r c] v] _. unfold permute_cols.
        now rewrite cy_index_permute_ok. }
    cbn [bind]. rewrite (py_select_ok 0 _ _ R0), (py_select_ok 0 _ _ R1).
    cbn [bind]. rewrite map_map. do 3 f_equal.
    apply map_ext. intros [[r c] v]. reflexivity.
Qed.

Lemma flat_dims_length (ty : qtype) (d0 d1 o : list nat) :
  length o = length d0 -> length o = length d1 ->
  length (fst (flat_dims ty d0 d1 o)) = length o /\
  length (snd (flat_dims ty d0 d1 o)) = length o.
Proof.
  intros L0 L1. unfold flat_dims, pick.
  destruct ty; cbn [fst snd]; rewrite ?length_map; auto.
Qed.

Lemma permute_flat_ok (x : NQobj) (p : list string) :
  names_ok x ->
  fst (names x) = snd (names x) ->
  (isoper (qobj x) = true -> fst (dims (qobj x)) = snd (dims (qobj x))) ->
  Permutation p (fst (names x)) ->
  permute x (OrderNames p) = Ok (permuted_flat x p).
Proof.
  intros [N0 [N1 [L0 L1]]] Hn Hd P.
  destruct (positions_ok _ _ _ N0 P L0) as [A0 [B0 _]].
  assert (A1 : length (map (pos (fst (names x))) p)
               = length (snd (dims (qobj x)))).
  { rewrite <- L1, <- Hn, L0. exact A0. }
  assert (B : Forall (fun i => i < length (map (pos (fst (names x))) p))
                     (map (pos (fst (names x))) p)) by now rewrite A0.
  unfold permute, resolve_order, auto_tidyup.
  rewrite (proj2 (names_eqb_eq _ _) Hn).
  rewrite (mapM_py_index _ _ (perm_subset _ _ P)). cbn [bind].
  assert (E : _permute2 (qobj x) (Flat (map (pos (fst (names x))) p))
              = _permute (qobj x) (map (pos (fst (names x))) p)).
  { unfold _permute2. destruct (isoper (qobj x)) eqn:Ho; [|reflexivity].
    now rewrite (proj2 (list_nat_eqb_eq _ _) (Hd eq_refl)). }
  rewrite E, (_permute_ok _ _ A0 A1 B). cbn [bind fst snd].
  rewrite <- Hn.
  rewrite (py_select_ok EmptyString (fst (names x)))
    by (rewrite L0; assumption).
  cbn [bind]. rewrite !select_positions by (now apply perm_subset).
  unfold NQobj_init, init_names.
  rewrite (proj2 (has_dup_NoDup p))
    by (apply (Permutation_NoDup (Permutation_sym P) N0)).
  unfold shape_dims, tidyup. cbn [dims fst snd orb].
  destruct (flat_dims_length (type (qobj x)) _ _ _ A0 A1) as [F0 F1].
  rewrite F0, F1, length_map, !Nat.eqb_refl. reflexivity.
Qed.

Lemma type_permuted_flat (x : NQobj) (p : list string) :
  names_ok x -> fst (names x) = snd (names x) ->
  Permutation p (fst (names x)) ->
  type (qobj (permuted_flat x p)) = type (qobj x).
Proof.
  intros [N0 [N1 [L0 L1]]] Hn P.
  pose proof (positions_perm _ _ N0 P) as H0.
  assert (H1 : Permutation (map (pos (fst (names x))) p)
                           (seq 0 (length (snd (dims (qobj x)))))).
  { rewrite <- L1, <- Hn. exact H0. }
  rewrite L0 in H0.
  unfold type at 1. unfold permuted_flat, tidyup. cbn [qobj dims].
  unfold type, type_from_dims, flat_dims.
  destruct (prod_dims (fst (dims (qobj x))) =? 1) eqn:E0;
    cbn [fst snd]; rewrite ?E0; [reflexivity|].
  destruct (prod_dims (snd (dims (qobj x))) =? 1) eqn:E1;
    cbn [fst snd]; rewrite ?prod_dims_pick, ?E0, ?E1 by assumption;
    reflexivity.
Qed.

Lemma flat_trip_snd (ty : qtype) (d0 d1 o : list nat) (t : nat * nat * cplx) :
  snd (flat_trip ty d0 d1 o t) = snd t.
Proof. destruct t as [[r c] v]. destruct ty; reflexivity. Qed.

Lemma permuted_flat_back (x : NQobj) (p : list string) :
  names_ok x -> Qobj_wf (qobj x) ->
  fst (names x) = snd (names x) ->
  Permutation p (fst (names x)) ->
  permuted_flat (permuted_flat x p) (fst (names x)) =
  MkNQobj (tidyup (qobj x)) (names x) (kind x).
Proof.
  intros Hx Hw Hn P.
  pose proof (type_permuted_flat x p Hx Hn P) as Hty.
  destruct Hx as [N0 [N1 [L0 L1]]]. destruct Hw as [Wr [Wc Wt]].
  destruct (positions_ok _ _ _ N0 P L0) as [A0 [B0 _]].
  assert (L1' : length (fst (names x)) = length (snd (dims (qobj x))))
    by (now rewrite Hn).
  destruct (positions_ok _ _ _ N0 P L1') as [A1 [B1 _]].
  assert (I0 : forall l : list nat, length l = length (fst (dims (qobj x))) ->
               pick (pick l (map (pos (fst (names x))) p))
                    (map (pos p) (fst (names x))) = l).
  { intros l Hl. apply (pick_inverse 0); [assumption | assumption | congruence]. }
  assert (I1 : forall l : list nat, length l = length (snd (dims (qobj x))) ->
               pick (pick l (map (pos (fst (names x))) p))
                    (map (pos p) (fst (names x))) = l).
  { intros l Hl. apply (pick_inverse 0); [assumption | assumption | congruence]. }
  unfold permuted_flat at 1. rewrite Hty.
  unfold permuted_flat, tidyup, tidy_coo.
  cbn [names kind qobj fst snd dims data nrows ncols trip].
  rewrite !(filter_nonzero_map _ _ (flat_trip_snd _ _ _ _)).
  rewrite filter_idem, map_map.
  destruct x as [[[nr nc t] [d0 d1]] [n0 n1] k].
  cbn [qobj data dims names fst snd nrows ncols trip kind] in *.
  subst n1.
  assert (Hd : flat_dims (type_from_dims (d0, d1))
                 (fst (flat_dims (type_from_dims (d0, d1)) d0 d1
                                 (map (pos n0) p)))
                 (snd (flat_dims (type_from_dims (d0, d1)) d0 d1
                                 (map (pos n0) p)))
                 (map (pos p) n0) = (d0, d1)).
  { unfold flat_dims. destruct (type_from_dims (d0, d1)); cbn [fst snd];
      rewrite ?(I0 _ eq_refl), ?(I1 _ eq_refl); reflexivity. }
  unfold type. cbn [dims]. rewrite Hd. do 3 f_equal.
  rewrite <- (map_id (filter _ t)) at 2.
  apply map_ext_in. intros [[r c] v] Hin. apply filter_In in Hin.
  destruct Hin as [Hin _]. rewrite Forall_forall in Wt.
  destruct (Wt _ Hin) as [Hr Hc]. cbn [fst snd] in Hr, Hc.
  unfold flat_trip, flat_dims.
  destruct (type_from_dims (d0, d1)); cbn [fst snd];
    rewrite ?(index_map_inverse d0), ?(index_map_inverse d1)
      by (first [assumption | lia]);
    reflexivity.
Qed.

Lemma names_ok_permuted_flat (x : NQobj) (p : list string) :
  names_ok x ->
  fst (names x) = snd (names x) ->
  (isoper (qobj x) = true -> fst (dims (qobj x)) = snd (dims (qobj x))) ->
  Permutation p (fst (names x)) ->
  names_ok (permuted_flat x p).
Proof.
  intros Hx Hn Hd P. apply (permute_names_ok x (OrderNames p)).
  now apply permute_flat_ok.
Qed.

Lemma isoper_permuted_flat (x : NQobj) (p : list string) :
  names_ok x -> fst (names x) = snd (names x) ->
  (isoper (qobj x) = true -> fst (dims (qobj x)) = snd (dims (qobj x))) ->
  Permutation p (fst (names x)) ->
  isoper (qobj (permuted_flat x p)) = true ->
  fst (dims (qobj (permuted_flat x p))) = snd (dims (qobj (permuted_flat x p))).
Proof.
  intros Hx Hn Hd P. unfold isoper at 1.
  rewrite (type_permuted_flat x p Hx Hn P). intros Ho.
  specialize (Hd Ho). unfold isoper in Ho.
  unfold permuted_flat, tidyup. cbn [qobj dims].
  destruct (type (qobj x)); try discriminate.
  unfold flat_dims. cbn [fst snd]. now rewrite Hd.
Qed.

Lemma round_trip_flat (x : NQobj) (p : list string) :
  names_ok x -> Qobj_wf (qobj x) ->
  fst (names x) = snd (names x) ->
  (isoper (qobj x) = true -> fst (dims (qobj x)) = snd (dims (qobj x))) ->
  Permutation p (fst (names x)) ->
  round_trip x (OrderNames p) (OrderNames (fst (names x))).
Proof.
  intros Hx Hw Hn Hd P.
  exists (permuted_flat x p).
  exists (MkNQobj (tidyup (qobj x)) (names x) (kind x)).
  split; [now apply permute_flat_ok|]. split; [|apply eq_tidyup].
  rewrite <- (permuted_flat_back x p) by assumption.
  apply (permute_flat_ok (permuted_flat x p)).
  - now apply names_ok_permuted_flat.
  - reflexivity.
  - now apply isoper_permuted_flat.
  - now apply Permutation_sym.
Qed.

Lemma permute_names_as_pair (x : NQobj) (p : list string) :
  fst (names x) <> snd (names x) ->
  permute x (OrderNames p) = permute x (OrderNamesPair p p).
Proof.
  intros Hn. unfold permute, resolve_order.
  destruct (names_eqb (fst (names x)) (snd (names x))) eqn:E; [|reflexivity].
  apply names_eqb_eq in E. contradiction.
Qed.

(** C7 (as amended).  For a named object with the name invariant and a
    well-formed backend object, [x.permute(p)] followed by the permutation
    back to the names of [x] returns an object equal to [x], in backend
    data and in names, when [p] is a pair of orders, one rearrangement of
    the names of each axis; when [p] is one order of names and the two
    axes of [x] bear the same names, provided that an operator [x] has
    equal dimension vectors; and when [p] is one order of names that
    rearranges both of two different name lists. *)
Theorem permute_round_trip (x : NQobj) :
  names_ok x -> Qobj_wf (qobj x) ->
  (forall p0 p1,
      Permutation p0 (fst (names x)) -> Permutation p1 (snd (names x)) ->
      round_trip x (OrderNamesPair p0 p1)
                 (OrderNamesPair (fst (names x)) (snd (names x)))) /\
  (forall p,
      fst (names x) = snd (names x) ->
      (isoper (qobj x) = true ->
       fst (dims (qobj x)) = snd (dims (qobj x))) ->
      Permutation p (fst (names x)) ->
      round_trip x (OrderNames p) (OrderNames (fst (names x)))) /\
  (forall p,
      fst (names x) <> snd (names x) ->
      Permutation p (fst (names x)) -> Permutation p (snd (names x)) ->
      round_trip x (OrderNames p)
                 (OrderNamesPair (fst (names x)) (snd (names x)))).
Proof.
  intros Hx Hw. repeat split.
  - intros p0 p1 P0 P1. now apply round_trip_pair.
  - intros p Hn Hd P. now apply round_trip_flat.
  - intros p Hn P0 P1.
    destruct (round_trip_pair x p p Hx Hw P0 P1) as [y [z [H1 [H2 H3]]]].
    exists y, z. rewrite permute_names_as_pair by assumption. auto.
Qed.

Lemma names_ok_op_ab23 : names_ok Examples.op_ab23.
Proof.
  repeat split; repeat constructor; simpl; intuition discriminate.
Qed.

Lemma Qobj_wf_op_ab23 : Qobj_wf (qobj Examples.op_ab23).
Proof.
  repeat split; try reflexivity.
  repeat constructor; simpl; lia.
Qed.

Lemma permute_round_trip_witness :
  round_trip Examples.op_ab23
             (OrderNamesPair ["b"%string; "a"%string] ["a"%string; "b"%string])
             (OrderNamesPair ["a"%string; "b"%string] ["a"%string; "b"%string]) /\
  round_trip Examples.op_ab23
             (OrderNames ["b"%string; "a"%string])
             (OrderNames ["a"%string; "b"%string]).
Proof.
  pose proof (permute_round_trip Examples.op_ab23 names_ok_op_ab23
                                 Qobj_wf_op_ab23) as [H1 [H2 _]].
  split.
  - apply (H1 ["b"%string; "a"%string] ["a"%string; "b"%string]).
    + apply perm_swap.
    + apply Permutation_refl.
  - apply (H2 ["b"%string; "a"%string]).
    + reflexivity.
    + reflexivity.
    + apply perm_swap.
Defined.

Lemma names_ok_rect_a : names_ok Examples.rect_a.
Proof. repeat split; repeat constructor; simpl; auto. Qed.

Lemma Qobj_wf_rect_a : Qobj_wf (qobj Examples.rect_a).
Proof.
  repeat split; try reflexivity. repeat constructor; simpl; lia.
Qed.

(** C7 as the specification words it fails: [rect_a] is a 2x3 object with
    the name ["a"] on both axes, and the order [["a"]] rearranges its
    names, yet [permute] raises and no permutation back can follow. *)
Lemma permute_round_trip_fails :
  names_ok Examples.rect_a /\ Qobj_wf (qobj Examples.rect_a) /\
  Permutation ["a"%string] (fst (names Examples.rect_a)) /\
  Permutation ["a"%string] (snd (names Examples.rect_a)) /\
  permute Examples.rect_a (OrderNames ["a"%string]) =
    Raise (TypeError
             "Order should be a list of int or a list of two list with int.") /\
  forall back, ~ round_trip Examples.rect_a (OrderNames ["a"%string]) back.
Proof.
  split; [exact names_ok_rect_a|]. split; [exact Qobj_wf_rect_a|].
  split; [apply Permutation_refl|]. split; [apply Permutation_refl|].
  split; [reflexivity|].
  intros back [y [z [H _]]]. discriminate H.
Qed.

(** ** Entries of sums, index maps and Kronecker products *)

Lemma entry_app (nr nc : nat) (l1 l2 : list (nat * nat * cplx)) (r c : nat) :
  entry (Coo nr nc (l1 ++ l2)) r c =
  cadd (entry (Coo nr nc l1) r c) (entry (Coo nr nc l2) r c).
Proof.
  induction l1 as [|t l1 IH].
  - rewrite entry_nil. simpl app. ring.
  - simpl app. rewrite !entry_cons, IH. ring.
Qed.

Lemma coo_eqb_in_shape (a b : coo) :
  (forall r c, r < nrows a -> c < ncols a -> entry a r c = entry b r c) ->
  coo_eqb a b = true.
Proof.
  intros H. unfold coo_eqb. apply forallb_forall. intros r Hr.
  apply forallb_forall. intros c Hc. apply in_seq in Hr, Hc.
  rewrite H by lia. apply ceqb_refl.
Qed.

Lemma entry_map_index (f g : nat -> nat) (nr nc nr' nc' : nat)
      (l : list (nat * nat * cplx)) (i j : nat) :
  Forall (in_shape nr nc) l -> i < nr -> j < nc ->
  (forall a b, a < nr -> b < nr -> f a = f b -> a = b) ->
  (forall a b, a < nc -> b < nc -> g a = g b -> a = b) ->
  entry (Coo nr' nc'
             (map (fun t => (f (fst (fst t)), g (snd (fst t)), snd t)) l))
        (f i) (g j)
  = entry (Coo nr nc l) i j.
Proof.
  intros Hl Hi Hj Hf Hg. induction Hl as [|t l [Hr Hc] Hl IH].
  - reflexivity.
  - simpl map. rewrite !entry_cons, IH. cbn [fst snd]. f_equal.
    assert (Ef : (f (fst (fst t)) =? f i) = (fst (fst t) =? i)).
    { destruct (Nat.eqb_spec (fst (fst t)) i) as [E|E].
      - rewrite E. apply Nat.eqb_refl.
      - apply Nat.eqb_neq. intros H. apply E. now apply Hf. }
    assert (Eg : (g (snd (fst t)) =? g j) = (snd (fst t) =? j)).
    { destruct (Nat.eqb_spec (snd (fst t)) j) as [E|E].
      - rewrite E. apply Nat.eqb_refl.
      - apply Nat.eqb_neq. intros H. apply E. now apply Hg. }
    now rewrite Ef, Eg.
Qed.

Lemma eqb_mixed (n a b x y : nat) :
  x < n -> y < n ->
  (a * n + x =? b * n + y) = (a =? b) && (x =? y).
Proof.
  intros Hx Hy.
  destruct (Nat.eqb_spec a b) as [E1|E1]; destruct (Nat.eqb_spec x y) as [E2|E2];
    cbn [andb]; apply Nat.eqb_eq || apply Nat.eqb_neq; nia.
Qed.

Lemma entry_kron_row (B : coo) (r1 c1 : nat) (v1 : cplx) (nr nc rA rB cA cB : nat) :
  Forall (in_shape (nrows B) (ncols B)) (trip B) ->
  rB < nrows B -> cB < ncols B ->
  entry (Coo nr nc
             (map (fun tb =>
                     match tb with
                     | (r2, c2, v2) =>
                         (r1 * nrows B + r2, c1 * ncols B + c2, cmul v1 v2)
                     end) (trip B)))
        (rA * nrows B + rB) (cA * ncols B + cB)
  = cmul (if (r1 =? rA) && (c1 =? cA) then v1 else c0) (entry B rB cB).
Proof.
  intros Hl Hr Hc. destruct B as [nB mB l]. cbn [nrows ncols trip] in *.
  induction Hl as [|[[r2 c2] v2] l [H2r H2c] Hl IH].
  - cbn [map]. rewrite (entry_nil nr nc), (entry_nil nB mB). ring.
  - simpl map. rewrite entry_cons, (entry_cons nB mB), IH. cbn [fst snd] in *.
    rewrite !eqb_mixed by assumption.
    destruct (r1 =? rA), (c1 =? cA), (r2 =? rB), (c2 =? cB); cbn [andb]; ring.
Qed.

Lemma entry_kron (A B : coo) (rA rB cA cB : nat) :
  Forall (in_shape (nrows B) (ncols B)) (trip B) ->
  rB < nrows B -> cB < ncols B ->
  entry (kron A B) (rA * nrows B + rB) (cA * ncols B + cB)
  = cmul (entry A rA cA) (entry B rB cB).
Proof.
  intros Hl Hr Hc. unfold kron. destruct A as [nA mA lA]. cbn [nrows ncols trip].
  induction lA as [|[[r1 c1] v1] lA IH].
  - cbn [flat_map]. rewrite (entry_nil nA mA), entry_nil. ring.
  - cbn [flat_map]. rewrite entry_app, IH, (entry_cons nA mA).
    rewrite (entry_kron_row B r1 c1 v1) by assumption. cbn [fst snd]. ring.
Qed.

Lemma assemble_r_app (X Y DX DY : list nat) (dim : nat) :
  length X = length DX ->
  assemble_r (X ++ Y) (DX ++ DY) dim
  = assemble_r X DX dim + assemble_r Y DY (dim * prod_dims DX).
Proof.
  revert DX dim. induction X as [|x X IH]; intros [|d DX] dim Hlen;
    try discriminate.
  - unfold prod_dims. simpl. now rewrite Nat.mul_1_r.
  - simpl in Hlen. cbn [app assemble_r]. rewrite IH by lia.
    change (prod_dims (d :: DX)) with (d * prod_dims DX).
    rewrite Nat.mul_assoc. lia.
Qed.

Lemma flat_index_app (dA dB mA mB : list nat) :
  length mA = length dA -> length mB = length dB ->
  flat_index (dA ++ dB) (mA ++ mB)
  = flat_index dA mA * prod_dims dB + flat_index dB mB.
Proof.
  intros LA LB. unfold flat_index. rewrite !rev_app_distr.
  rewrite assemble_r_app by (now rewrite !length_rev).
  rewrite (assemble_r_scale (rev mA)), prod_dims_rev. lia.
Qed.

(** ** Tensor products of well-formed objects *)

Lemma tidyup_wf (Q : Qobj) : Qobj_wf Q -> Qobj_wf (tidyup Q).
Proof.
  intros [Wr [Wc Wt]]. unfold Qobj_wf, tidyup, tidy_coo.
  cbn [data dims nrows ncols trip]. repeat split; try assumption.
  rewrite Forall_forall in *. intros t Ht. apply filter_In in Ht.
  now apply Wt.
Qed.

Lemma kron_step_wf (A B : Qobj) :
  Qobj_wf A -> Qobj_wf B -> Qobj_wf (kron_step A B).
Proof.
  intros [Ar [Ac At]] [Br [Bc Bt]]. unfold Qobj_wf, kron_step, kron.
  cbn [data dims nrows ncols trip fst snd].
  rewrite !prod_dims_app, <- Ar, <- Ac, <- Br, <- Bc.
  repeat split; try reflexivity.
  rewrite Forall_forall in *. intros t Ht. apply in_flat_map in Ht.
  destruct Ht as [[[r1 c1] v1] [Ha Ht]]. apply in_map_iff in Ht.
  destruct Ht as [[[r2 c2] v2] [<- Hb]].
  destruct (At _ Ha) as [H1 H2]. destruct (Bt _ Hb) as [H3 H4].
  unfold in_shape in *. cbn [fst snd] in *. split; nia.
Qed.

Lemma fold_kron_wf (fs : list Qobj) (Q : Qobj) :
  Qobj_wf Q -> Forall Qobj_wf fs -> Qobj_wf (fold_left kron_step fs Q).
Proof.
  intros HQ Hfs. revert Q HQ.
  induction Hfs as [|f fs Hf Hfs IH]; intros Q HQ; [assumption|].
  simpl. apply IH. now apply kron_step_wf.
Qed.

Lemma fold_kron_dims (fs : list Qobj) (Q : Qobj) :
  dims (fold_left kron_step fs Q) =
  (fst (dims Q) ++ concat (map (fun f => fst (dims f)) fs),
   snd (dims Q) ++ concat (map (fun f => snd (dims f)) fs)).
Proof.
  revert Q. induction fs as [|f fs IH]; intros Q.
  - simpl. rewrite !app_nil_r. now destruct (dims Q).
  - simpl. rewrite IH. unfold kron_step. cbn [dims fst snd].
    now rewrite <- !app_assoc.
Qed.

Lemma digits_ok_app_inv (mA mB dA dB : list nat) :
  length mA = length dA ->
  digits_ok (mA ++ mB) (dA ++ dB) -> digits_ok mA dA /\ digits_ok mB dB.
Proof.
  revert dA. induction mA as [|x mA IH]; intros [|d dA] Hlen H;
    try discriminate.
  - split; [constructor | assumption].
  - simpl in H. inversion H; subst. simpl in Hlen.
    destruct (IH dA ltac:(lia) ltac:(assumption)) as [H1 H2].
    split; [now constructor | assumption].
Qed.

Lemma entry_kron_step (A B : Qobj) (mA0 mB0 mA1 mB1 : list nat) :
  Qobj_wf B ->
  length mA0 = length (fst (dims A)) -> length mA1 = length (snd (dims A)) ->
  digits_ok mB0 (fst (dims B)) -> digits_ok mB1 (snd (dims B)) ->
  entry (data (kron_step A B))
        (flat_index (fst (dims (kron_step A B))) (mA0 ++ mB0))
        (flat_index (snd (dims (kron_step A B))) (mA1 ++ mB1))
  = cmul (entry (data A) (flat_index (fst (dims A)) mA0)
                (flat_index (snd (dims A)) mA1))
         (entry (data B) (flat_index (fst (dims B)) mB0)
                (flat_index (snd (dims B)) mB1)).
Proof.
  intros [Br [Bc Bt]] L0 L1 D0 D1. unfold kron_step. cbn [data dims fst snd].
  rewrite !flat_index_app
    by (first [assumption | now apply digits_ok_length]).
  rewrite <- Br, <- Bc. apply entry_kron; [assumption| |].
  - rewrite Br. now apply flat_index_ok.
  - rewrite Bc. now apply flat_index_ok.
Qed.

Lemma entry_fold_kron (modes : list NQobj) (rho0 rho1 : string -> nat) :
  Forall mode_ok modes ->
  forall (Q : Qobj) (n0 n1 : list string),
    length n0 = length (fst (dims Q)) -> length n1 = length (snd (dims Q)) ->
    digits_ok (map rho0 (concat (map (fun a => fst (names a)) modes)))
              (concat (map (fun f => fst (dims f)) (map qobj modes))) ->
    digits_ok (map rho1 (concat (map (fun a => snd (names a)) modes)))
              (concat (map (fun f => snd (dims f)) (map qobj modes))) ->
    entry (data (fold_left kron_step (map qobj modes) Q))
          (flat_index (fst (dims (fold_left kron_step (map qobj modes) Q)))
                      (map rho0 (n0 ++ concat (map (fun a => fst (names a)) modes))))
          (flat_index (snd (dims (fold_left kron_step (map qobj modes) Q)))
                      (map rho1 (n1 ++ concat (map (fun a => snd (names a)) modes))))
    = cmul (entry (data Q) (flat_index (fst (dims Q)) (map rho0 n0))
                  (flat_index (snd (dims Q)) (map rho1 n1)))
           (modes_entry modes rho0 rho1).
Proof.
  induction 1 as [|f modes [[_ [_ [F0 F1]]] Fw] Hm IH];
    intros Q n0 n1 L0 L1 D0 D1.
  - simpl. rewrite !app_nil_r. unfold modes_entry. simpl. ring.
  - cbn [map concat fold_left] in *.
    rewrite !map_app in D0, D1.
    apply digits_ok_app_inv in D0; [|now rewrite length_map].
    apply digits_ok_app_inv in D1; [|now rewrite length_map].
    destruct D0 as [D0f D0r]. destruct D1 as [D1f D1r].
    rewrite !app_assoc.
    rewrite (IH (kron_step Q (qobj f)) (n0 ++ fst (names f))
                (n1 ++ snd (names f))).
    + rewrite !map_app.
      rewrite entry_kron_step
        by (first [assumption | now rewrite length_map]).
      unfold modes_entry, named_entry. cbn [fold_right]. ring.
    + unfold kron_step. cbn [dims fst]. rewrite !length_app. congruence.
    + unfold kron_step. cbn [dims snd]. rewrite !length_app. congruence.
    + assumption.
    + assumption.
Qed.

(** ** Dimensions by name and assignments of digits *)

Lemma digits_ok_nth_iff (m ds : list nat) :
  length m = length ds ->
  (digits_ok m ds <-> forall i, i < length ds -> nth i m 0 < nth i ds 0).
Proof.
  intros Hlen. split; [intros H i; now apply digits_ok_nth|].
  revert ds Hlen. induction m as [|x m IH]; intros [|d ds] Hlen H;
    try discriminate; [constructor|].
  constructor.
  - apply (H 0). simpl. lia.
  - apply IH; [simpl in Hlen; lia|]. intros i Hi. apply (H (S i)). simpl. lia.
Qed.

Lemma nth_map_default {A : Type} (f : A -> nat) (l : list A) (d : A) (i : nat) :
  i < length l -> nth i (map f l) 0 = f (nth i l d).
Proof.
  intros Hi. rewrite (nth_indep _ 0 (f d)) by (now rewrite length_map).
  apply map_nth.
Qed.

Lemma pos_nth (ns : list string) (i : nat) :
  NoDup ns -> i < length ns -> pos ns (nth i ns EmptyString) = i.
Proof.
  intros Hnd Hi. apply pos_nth_error; [assumption|].
  now apply nth_error_nth'.
Qed.

Lemma fits_digits (ns : list string) (ds : list nat) (rho : string -> nat) :
  NoDup ns -> length ns = length ds ->
  (fits_axis ns ds rho <-> digits_ok (map rho ns) ds).
Proof.
  intros Hnd Hlen.
  rewrite digits_ok_nth_iff by (now rewrite length_map).
  unfold fits_axis, dim_of. split.
  - intros H i Hi. rewrite <- Hlen in Hi.
    rewrite (nth_map_default rho ns EmptyString) by assumption.
    specialize (H (nth i ns EmptyString) (nth_In _ _ Hi)).
    now rewrite pos_nth in H.
  - intros H name Hin. destruct (pos_In _ _ Hin) as [Hp He].
    specialize (H (pos ns name) ltac:(lia)).
    rewrite (nth_map_default rho ns EmptyString) in H by assumption.
    now rewrite (nth_error_nth _ _ EmptyString He) in H.
Qed.

(** Every multi-index of the right length is given by an assignment. *)
Lemma assignment_of_digits (ns : list string) (m : list nat) :
  NoDup ns -> length m = length ns ->
  map (fun name => nth (pos ns name) m 0) ns = m.
Proof.
  intros Hnd Hlen.
  rewrite <- (map_map (pos ns) (fun i => nth i m 0)).
  rewrite positions_self by assumption. rewrite <- Hlen.
  apply map_nth_seq.
Qed.

Lemma combine_nth_error {A B : Type} (l : list A) (l' : list B) (a : A) (b : B) :
  In (a, b) (combine l l') ->
  exists i, nth_error l i = Some a /\ nth_error l' i = Some b.
Proof.
  revert l'. induction l as [|x l IH]; intros [|y l'] H; simpl in H;
    try contradiction.
  destruct H as [H | H].
  - inversion H; subst. now exists 0.
  - destruct (IH _ H) as [i Hi]. now exists (S i).
Qed.

Lemma combine_dim_of (ns : list string) (ds : list nat) (name : string) (d : nat) :
  NoDup ns -> In (name, d) (combine ns ds) -> dim_of ns ds name = d.
Proof.
  intros Hnd Hin. destruct (combine_nth_error _ _ _ _ Hin) as [i [H1 H2]].
  unfold dim_of. rewrite (pos_nth_error _ _ _ Hnd H1).
  now apply nth_error_nth.
Qed.

Lemma dim_of_combine (ns : list string) (ds : list nat) (name : string) :
  length ns = length ds -> In name ns ->
  In (name, dim_of ns ds name) (combine ns ds).
Proof.
  intros Hlen Hin. destruct (pos_In _ _ Hin) as [Hp He].
  unfold dim_of.
  assert (Hd : nth_error ds (pos ns name) = Some (nth (pos ns name) ds 0))
    by (apply nth_error_nth'; lia).
  revert He Hd. generalize (pos ns name) (nth (pos ns name) ds 0).
  clear Hp Hin. revert ds Hlen.
  induction ns as [|x ns IH]; intros [|y ds] Hlen i d He Hd;
    try discriminate; destruct i as [|i]; simpl in *; try discriminate.
  - inversion He; inversion Hd; subst. now left.
  - right. apply (IH ds ltac:(lia) i d); assumption.
Qed.

(** Two axes that pair the same names with the same dimensions, in any
    order, give every name the same dimension. *)
Lemma dim_of_perm (ns ns' : list string) (ds ds' : list nat) (name : string) :
  NoDup ns' -> length ns = length ds ->
  Permutation (combine ns ds) (combine ns' ds') ->
  In name ns -> dim_of ns' ds' name = dim_of ns ds name.
Proof.
  intros Hnd Hlen Hp Hin. apply combine_dim_of; [assumption|].
  apply (Permutation_in _ Hp). now apply dim_of_combine.
Qed.

Lemma pick_positions (ns l : list string) (ds : list nat) :
  pick ds (map (pos ns) l) = map (dim_of ns ds) l.
Proof. unfold pick, dim_of. now rewrite map_map. Qed.

Lemma dim_of_map (l : list string) (f : string -> nat) (name : string) :
  NoDup l -> In name l -> dim_of l (map f l) name = f name.
Proof.
  intros Hnd Hin. destruct (pos_In _ _ Hin) as [Hp He]. unfold dim_of.
  rewrite (nth_map_default f l EmptyString) by assumption.
  now rewrite (nth_error_nth _ _ EmptyString He).
Qed.

Lemma combine_map_self (l : list string) (f : string -> nat) :
  combine l (map f l) = map (fun name => (name, f name)) l.
Proof. induction l as [|x l IH]; simpl; [reflexivity | now rewrite IH]. Qed.

Lemma combine_as_map (ns : list string) (ds : list nat) :
  NoDup ns -> length ns = length ds ->
  combine ns ds = map (fun name => (name, dim_of ns ds name)) ns.
Proof.
  intros Hnd Hlen. rewrite <- combine_map_self. f_equal.
  symmetry. apply (nth_ext _ _ 0 0).
  - now rewrite length_map.
  - intros i Hi. rewrite length_map in Hi.
    rewrite (nth_map_default _ ns EmptyString) by assumption.
    unfold dim_of. now rewrite pos_nth.
Qed.

(** ** Named entries of permuted objects *)

Lemma pick_map_positions (ns l : list string) (rho : string -> nat) :
  incl l ns -> pick (map rho ns) (map (pos ns) l) = map rho l.
Proof.
  intros Hin. unfold pick. rewrite map_map. apply map_ext_in.
  intros name Hn. destruct (pos_In _ _ (Hin _ Hn)) as [Hp He].
  rewrite (nth_map_default rho ns EmptyString) by assumption.
  now rewrite (nth_error_nth _ _ EmptyString He).
Qed.

Lemma index_map_flat (ns l : list string) (ds : list nat) (rho : string -> nat) :
  incl l ns -> digits_ok (map rho ns) ds ->
  index_map ds (map (pos ns) l) (flat_index ds (map rho ns))
  = flat_index (map (dim_of ns ds) l) (map rho l).
Proof.
  intros Hin Hd. unfold index_map.
  rewrite (proj2 (flat_index_ok _ _ Hd)).
  now rewrite pick_positions, pick_map_positions.
Qed.

Lemma index_map_inj (ns l : list string) (ds : list nat) (a b : nat) :
  NoDup ns -> length ns = length ds -> Permutation l ns ->
  a < prod_dims ds -> b < prod_dims ds ->
  index_map ds (map (pos ns) l) a = index_map ds (map (pos ns) l) b ->
  a = b.
Proof.
  intros Hnd Hlen Hp Ha Hb E.
  destruct (positions_ok _ _ _ Hnd Hp Hlen) as [_ [Hr _]].
  assert (I : forall m : list nat, length m = length ds ->
              pick (pick m (map (pos ns) l)) (map (pos l) ns) = m).
  { intros m Hm. apply (pick_inverse 0); [assumption | assumption | congruence]. }
  rewrite <- (index_map_inverse ds _ _ a Ha Hr I).
  rewrite <- (index_map_inverse ds _ _ b Hb Hr I).
  now rewrite E.
Qed.

Lemma permute_trip_as_index_maps (d0 o0 d1 o1 : list nat)
      (l : list (nat * nat * cplx)) :
  map (permute_trip d0 o0 d1 o1) l =
  map (fun t => (index_map d0 o0 (fst (fst t)),
                 index_map d1 o1 (snd (fst t)), snd t)) l.
Proof. apply map_ext. intros [[r c] v]. reflexivity. Qed.

Lemma named_entry_permuted (y : NQobj) (l0 l1 : list string)
      (rho0 rho1 : string -> nat) :
  names_ok y -> Qobj_wf (qobj y) ->
  Permutation l0 (fst (names y)) -> Permutation l1 (snd (names y)) ->
  fits_axis (fst (names y)) (fst (dims (qobj y))) rho0 ->
  fits_axis (snd (names y)) (snd (dims (qobj y))) rho1 ->
  named_entry (permuted y l0 l1) rho0 rho1 = named_entry y rho0 rho1.
Proof.
  intros [N0 [N1 [L0 L1]]] [Wr [Wc Wt]] P0 P1 F0 F1.
  apply (fits_digits _ _ _ N0 L0) in F0. apply (fits_digits _ _ _ N1 L1) in F1.
  unfold named_entry, permuted, tidyup.
  cbn [qobj names dims data fst snd].
  rewrite !pick_positions.
  rewrite <- (index_map_flat _ _ _ _ (perm_subset _ _ P0) F0).
  rewrite <- (index_map_flat _ _ _ _ (perm_subset _ _ P1) F1).
  rewrite entry_tidy, permute_trip_as_index_maps.
  apply (entry_map_index _ _ (nrows (data (qobj y))) (ncols (data (qobj y)))).
  - destruct (data (qobj y)). exact Wt.
  - rewrite Wr. now apply flat_index_ok.
  - rewrite Wc. now apply flat_index_ok.
  - rewrite Wr. intros a b Ha Hb. now apply index_map_inj.
  - rewrite Wc. intros a b Ha Hb. now apply index_map_inj.
Qed.

Lemma permuted_wf (y : NQobj) (l0 l1 : list string) :
  names_ok y -> Qobj_wf (qobj y) ->
  Permutation l0 (fst (names y)) -> Permutation l1 (snd (names y)) ->
  Qobj_wf (qobj (permuted y l0 l1)).
Proof.
  intros [N0 [N1 [L0 L1]]] [Wr [Wc Wt]] P0 P1.
  destruct (positions_ok _ _ _ N0 P0 L0) as [_ [_ Q0]].
  destruct (positions_ok _ _ _ N1 P1 L1) as [_ [_ Q1]].
  unfold permuted. cbn [qobj]. apply tidyup_wf.
  unfold Qobj_wf. cbn [data dims nrows ncols trip fst snd].
  rewrite !prod_dims_pick by assumption.
  repeat split; try assumption.
  rewrite Forall_forall in *. intros t Ht. apply in_map_iff in Ht.
  destruct Ht as [[[r c] v] [<- Hin]].
  destruct (Wt _ Hin) as [Hr Hc]. cbn [fst snd] in Hr, Hc.
  unfold in_shape, permute_trip. cbn [fst snd].
  rewrite Wr, Wc in *. split; now apply index_map_lt.
Qed.

(** Two objects with the same names and dimension vectors that agree under
    every fitting assignment have the same entries inside their shape. *)
Lemma entries_from_named (u v : NQobj) :
  names_ok u -> names u = names v -> dims (qobj u) = dims (qobj v) ->
  nrows (data (qobj u)) = prod_dims (fst (dims (qobj u))) ->
  ncols (data (qobj u)) = prod_dims (snd (dims (qobj u))) ->
  (forall rho0 rho1,
      fits_axis (fst (names u)) (fst (dims (qobj u))) rho0 ->
      fits_axis (snd (names u)) (snd (dims (qobj u))) rho1 ->
      named_entry u rho0 rho1 = named_entry v rho0 rho1) ->
  forall r c, r < nrows (data (qobj u)) -> c < ncols (data (qobj u)) ->
              entry (data (qobj u)) r c = entry (data (qobj v)) r c.
Proof.
  intros [N0 [N1 [L0 L1]]] Hn Hd Wr Wc H r c Hr Hc.
  rewrite Wr in Hr. rewrite Wc in Hc.
  destruct (multi_index_ok _ _ Hr) as [M0 E0].
  destruct (multi_index_ok _ _ Hc) as [M1 E1].
  set (m0 := multi_index (fst (dims (qobj u))) r) in *.
  set (m1 := multi_index (snd (dims (qobj u))) c) in *.
  set (rho0 := fun name => nth (pos (fst (names u)) name) m0 0).
  set (rho1 := fun name => nth (pos (snd (names u)) name) m1 0).
  assert (A0 : map rho0 (fst (names u)) = m0).
  { apply assignment_of_digits; [assumption|].
    rewrite (digits_ok_length _ _ M0). congruence. }
  assert (A1 : map rho1 (snd (names u)) = m1).
  { apply assignment_of_digits; [assumption|].
    rewrite (digits_ok_length _ _ M1). congruence. }
  specialize (H rho0 rho1).
  unfold named_entry in H. rewrite <- Hn, <- Hd, A0, A1, E0, E1 in H.
  apply H; apply fits_digits; try assumption; congruence.
Qed.

(** ** Objects without a stored value *)

Lemma cmul_zero (a b : cplx) :
  ceqb (cmul a b) c0 = ceqb a c0 || ceqb b c0.
Proof.
  destruct a as [x y], b as [u w]. unfold ceqb, cmul, c0. cbn [re im].
  apply eq_true_iff_eq.
  rewrite orb_true_iff, !andb_true_iff, !Z.eqb_eq. split.
  - intros [H1 H2].
    assert (E : ((x * x + y * y) * (u * u + w * w) =
                 (x * u - y * w) * (x * u - y * w)
                 + (x * w + y * u) * (x * w + y * u))%Z) by ring.
    rewrite H1, H2 in E. simpl in E. apply Z.mul_eq_0 in E.
    destruct E as [E | E]; [left | right]; split; nia.
  - intros [[-> ->] | [-> ->]]; split; ring.
Qed.

Lemma filter_nil_existsb {A : Type} (f : A -> bool) (l : list A) :
  filter f l = [] <-> existsb f l = false.
Proof.
  induction l as [|x l IH]; simpl; [tauto|].
  destruct (f x); simpl; [split; discriminate | exact IH].
Qed.

Lemma existsb_nonzero_row (r1 c1 nB mB : nat) (v1 : cplx)
      (lB : list (nat * nat * cplx)) :
  existsb nonzero
          (map (fun tb => match tb with
                          | (r2, c2, v2) =>
                              (r1 * nB + r2, c1 * mB + c2, cmul v1 v2)
                          end) lB)
  = nonzero (r1, c1, v1) && existsb nonzero lB.
Proof.
  induction lB as [|[[r2 c2] v2] lB IHB].
  - simpl. now rewrite andb_false_r.
  - cbn [map existsb]. rewrite IHB. unfold nonzero. cbn [snd].
    rewrite cmul_zero.
    destruct (ceqb v1 c0), (ceqb v2 c0); reflexivity.
Qed.

Lemma has_nonzero_kron (A B : coo) :
  has_nonzero (kron A B) = has_nonzero A && has_nonzero B.
Proof.
  unfold has_nonzero, kron. cbn [trip].
  induction (trip A) as [|[[r1 c1] v1] lA IH].
  - reflexivity.
  - cbn [flat_map existsb]. rewrite existsb_app, IH, existsb_nonzero_row.
    destruct (nonzero (r1, c1, v1)), (existsb nonzero lA),
      (existsb nonzero (trip B)); reflexivity.
Qed.

Lemma has_nonzero_fold (fs : list Qobj) (Q : Qobj) :
  has_nonzero (data (fold_left kron_step fs Q))
  = has_nonzero (data Q) && forallb (fun f => has_nonzero (data f)) fs.
Proof.
  revert Q. induction fs as [|f fs IH]; intros Q; simpl.
  - now rewrite andb_true_r.
  - rewrite IH. unfold kron_step. cbn [data]. rewrite has_nonzero_kron.
    now rewrite andb_assoc.
Qed.

Lemma forallb_perm {A : Type} (f : A -> bool) (l l' : list A) :
  Permutation l l' -> forallb f l = forallb f l'.
Proof.
  induction 1; simpl; try congruence.
  - destruct (f x), (f y); reflexivity.
Qed.

Lemma trip_tidyup_nil (Q : Qobj) :
  trip (data (tidyup Q)) = [] <-> has_nonzero (data Q) = false.
Proof.
  unfold tidyup, tidy_coo, has_nonzero. cbn [data trip].
  apply (filter_nil_existsb nonzero).
Qed.

Lemma tensored_trip_nil (x : NQobj) (modes modes' : list NQobj) :
  Permutation modes modes' ->
  trip (data (qobj (tensored x modes))) = [] ->
  trip (data (qobj (tensored x modes'))) = [].
Proof.
  intros Hp. unfold tensored. cbn [qobj]. rewrite !trip_tidyup_nil.
  rewrite !has_nonzero_fold.
  rewrite (forallb_perm _ (map qobj modes) (map qobj modes')); [auto|].
  now apply Permutation_map.
Qed.

(** ** The filler modes *)

Lemma NQobj_init_str (Q : Qobj) (s : string) (k : kind_t) (f : NQobj) :
  NQobj_init Q (NamesStr s) (KindGiven k) = Ok f ->
  f = MkNQobj Q ([s], [s]) k.
Proof.
  unfold NQobj_init, init_names. destruct (negb _); [discriminate|].
  simpl. now intros [= <-].
Qed.

Lemma qeye_wf (n : nat) (Q : Qobj) : qeye (Some n) = Ok Q -> Qobj_wf Q.
Proof.
  intros [= <-]. unfold Qobj_wf. cbn [data dims nrows ncols trip fst snd].
  unfold prod_dims. simpl. repeat split; try lia.
  apply Forall_forall. intros t Ht. apply in_map_iff in Ht.
  destruct Ht as [i [<- Hi]]. apply in_seq in Hi. unfold in_shape. simpl. lia.
Qed.

Lemma basis_inv (d : option nat) (Q : Qobj) :
  basis d = Ok Q ->
  exists n, d = Some (S n) /\
            Q = MkQobj (Coo (S n) 1 [(0, 0, c1)]) ([S n], [1]).
Proof.
  destruct d as [[|n]|]; try discriminate. intros [= <-]. eauto.
Qed.

Lemma outer_product_filler (a b : nat) :
  Qobj_mul (MkQobj (Coo (S a) 1 [(0, 0, c1)]) ([S a], [1]))
           (Qobj_dag (MkQobj (Coo (S b) 1 [(0, 0, c1)]) ([S b], [1])))
  = Ok (MkQobj (Coo (S a) (S b) [(0, 0, c1)]) ([S a], [S b])).
Proof.
  destruct a as [|a], b as [|b]; reflexivity.
Qed.

Lemma filler_mode_ok (k : kind_t) (e : string * dims_pair) (f : NQobj) :
  filler_mode k e = Ok f -> mode_ok f /\ kind f = k.
Proof.
  destruct e as [name [d0 d1]]. unfold filler_mode. cbn [fst snd].
  destruct k.
  - destruct (option_nat_eqb d0 d1); [|discriminate].
    intros H. bind_inv H. apply NQobj_init_str in H. subst f.
    destruct d0 as [n|]; [|discriminate].
    split; [|reflexivity]. split.
    + unfold names_ok. injection E as <-. cbn.
      repeat split; repeat constructor; simpl; auto.
    + cbn [qobj]. now apply (qeye_wf n).
  - destruct d0 as [a|].
    + destruct d1 as [b|].
      * intros H. bind_inv H. bind_inv H. bind_inv H.
        apply basis_inv in E. destruct E as [a' [[= ->] ->]].
        apply basis_inv in E0. destruct E0 as [b' [[= ->] ->]].
        rewrite outer_product_filler in E1. injection E1 as <-.
        apply NQobj_init_str in H. subst f.
        split; [|reflexivity]. split.
        -- unfold names_ok. cbn. repeat split; repeat constructor; simpl; auto.
        -- unfold Qobj_wf, in_shape, prod_dims. cbn.
           repeat split; try lia.
           apply Forall_cons; [simpl; lia | apply Forall_nil].
      * intros H. bind_inv H.
        apply basis_inv in E. destruct E as [a' [[= ->] ->]].
        apply NQobj_init_str in H. subst f.
        split; [|reflexivity]. split.
        -- unfold names_ok. cbn. repeat split; repeat constructor; simpl; auto.
        -- unfold Qobj_wf, in_shape, prod_dims. cbn.
           repeat split; try lia.
           apply Forall_cons; [simpl; lia | apply Forall_nil].
    + intros H. bind_inv H. apply basis_inv in E.
      destruct E as [b' [-> ->]]. discriminate H.
Qed.

(** ** The closed form of [tensor] *)

Lemma NQobj_init_pair_iff (Q : Qobj) (l0 l1 : list string) (k : kind_t) (y : NQobj) :
  NQobj_init Q (NamesPair l0 l1) (KindGiven k) = Ok y <->
  y = MkNQobj Q (l0, l1) k /\ NoDup l0 /\ NoDup l1 /\
  length l0 = length (fst (dims Q)) /\ length l1 = length (snd (dims Q)).
Proof.
  unfold NQobj_init, init_names, shape_dims. cbn [fst snd]. split.
  - destruct (has_dup l0) eqn:D0; [discriminate|].
    destruct (has_dup l1) eqn:D1; [discriminate|]. cbn [orb].
    destruct (length l0 =? length (fst (dims Q))) eqn:E0; [|discriminate].
    destruct (length l1 =? length (snd (dims Q))) eqn:E1; [|discriminate].
    cbn. intros [= <-]. apply has_dup_NoDup in D0, D1.
    apply Nat.eqb_eq in E0, E1. auto.
  - intros [-> [D0 [D1 [E0 E1]]]].
    apply has_dup_NoDup in D0, D1. rewrite D0, D1, E0, E1, !Nat.eqb_refl.
    reflexivity.
Qed.

Lemma kind_eqb_refl (k : kind_t) : kind_eqb k k = true.
Proof. now destruct k. Qed.

Lemma tensor_iff (x : NQobj) (modes : list NQobj) (y : NQobj) :
  tensor (x :: modes) = Ok y <->
  y = tensored x modes /\
  all_kinds_equal (kind x) modes = true /\
  NoDup (fst (names (tensored x modes))) /\
  NoDup (snd (names (tensored x modes))) /\
  length (fst (names (tensored x modes)))
  = length (fst (dims (qobj (tensored x modes)))) /\
  length (snd (names (tensored x modes)))
  = length (snd (dims (qobj (tensored x modes)))).
Proof.
  unfold tensor, qt_tensor. cbn [map bind].
  unfold all_kinds_equal at 1. cbn [forallb]. rewrite kind_eqb_refl. cbn [andb].
  fold (all_kinds_equal (kind x) modes).
  destruct (all_kinds_equal (kind x) modes); cbn [negb].
  - rewrite NQobj_init_pair_iff. unfold tensored. cbn [names qobj fst snd].
    tauto.
  - split; [discriminate | intros [_ [H _]]; discriminate H].
Qed.

Lemma length_concat_names_dims (modes : list NQobj) :
  Forall mode_ok modes ->
  length (concat (map (fun a => fst (names a)) modes))
  = length (concat (map (fun f => fst (dims f)) (map qobj modes))) /\
  length (concat (map (fun a => snd (names a)) modes))
  = length (concat (map (fun f => snd (dims f)) (map qobj modes))).
Proof.
  induction 1 as [|f modes [[_ [_ [L0 L1]]] _] _ [IH0 IH1]]; [split; reflexivity|].
  cbn [map concat]. rewrite !length_app. split; congruence.
Qed.

Lemma tensored_dims (x : NQobj) (modes : list NQobj) :
  dims (qobj (tensored x modes)) =
  (fst (dims (qobj x)) ++ concat (map (fun f => fst (dims f)) (map qobj modes)),
   snd (dims (qobj x)) ++ concat (map (fun f => snd (dims f)) (map qobj modes))).
Proof. unfold tensored, tidyup. cbn [qobj dims]. apply fold_kron_dims. Qed.

Lemma tensored_lengths (x : NQobj) (modes : list NQobj) :
  names_ok x -> Forall mode_ok modes ->
  length (fst (names (tensored x modes)))
  = length (fst (dims (qobj (tensored x modes)))) /\
  length (snd (names (tensored x modes)))
  = length (snd (dims (qobj (tensored x modes)))).
Proof.
  intros [_ [_ [L0 L1]]] Hm. rewrite tensored_dims.
  destruct (length_concat_names_dims modes Hm) as [C0 C1].
  unfold tensored. cbn [names fst snd map concat].
  rewrite !length_app. split; congruence.
Qed.

Lemma concat_map_perm {A B : Type} (f : A -> list B) (l l' : list A) :
  Permutation l l' -> Permutation (concat (map f l)) (concat (map f l')).
Proof.
  induction 1 as [| x l l' _ IH | x y l | l l' l'' _ IH1 _ IH2]; cbn [map concat].
  - apply Permutation_refl.
  - now apply Permutation_app_head.
  - rewrite !app_assoc. apply Permutation_app_tail, Permutation_app_comm.
  - now apply (Permutation_trans IH1).
Qed.

Lemma tensored_names_perm (x : NQobj) (modes modes' : list NQobj) :
  Permutation modes modes' ->
  Permutation (fst (names (tensored x modes))) (fst (names (tensored x modes'))) /\
  Permutation (snd (names (tensored x modes))) (snd (names (tensored x modes'))).
Proof.
  intros Hp. unfold tensored. cbn [names fst snd map concat].
  split; apply Permutation_app_head; now apply concat_map_perm.
Qed.

Lemma mode_ok_perm (modes modes' : list NQobj) :
  Permutation modes modes' -> Forall mode_ok modes -> Forall mode_ok modes'.
Proof.
  intros Hp H. rewrite Forall_forall in *. intros f Hf. apply H.
  now apply (Permutation_in _ (Permutation_sym Hp)).
Qed.

Lemma tensor_perm (x : NQobj) (modes modes' : list NQobj) (y : NQobj) :
  names_ok x -> Forall mode_ok modes -> Permutation modes modes' ->
  tensor (x :: modes) = Ok y ->
  tensor (x :: modes') = Ok (tensored x modes').
Proof.
  intros Hx Hm Hp H. apply tensor_iff in H.
  destruct H as [_ [Hk [D0 [D1 _]]]].
  destruct (tensored_names_perm x modes modes' Hp) as [P0 P1].
  apply tensor_iff. split; [reflexivity|]. split.
  - unfold all_kinds_equal in *. now rewrite <- (forallb_perm _ _ _ Hp).
  - split; [now apply (Permutation_NoDup P0)|].
    split; [now apply (Permutation_NoDup P1)|].
    apply tensored_lengths; [assumption|]. now apply (mode_ok_perm modes).
Qed.

Lemma tensored_wf (x : NQobj) (modes : list NQobj) :
  Qobj_wf (qobj x) -> Forall mode_ok modes -> Qobj_wf (qobj (tensored x modes)).
Proof.
  intros Hx Hm. unfold tensored. cbn [qobj]. apply tidyup_wf.
  apply fold_kron_wf; [assumption|].
  apply Forall_forall. intros q Hq. apply in_map_iff in Hq.
  destruct Hq as [f [<- Hf]]. rewrite Forall_forall in Hm.
  now apply Hm.
Qed.

Lemma combine_app {A B : Type} (l1 l2 : list A) (k1 k2 : list B) :
  length l1 = length k1 ->
  combine (l1 ++ l2) (k1 ++ k2) = combine l1 k1 ++ combine l2 k2.
Proof.
  revert k1. induction l1 as [|a l1 IH]; intros [|b k1] H; try discriminate.
  - reflexivity.
  - simpl. f_equal. apply IH. simpl in H. lia.
Qed.

Lemma combine_concat (modes : list NQobj)
      (fn : NQobj -> list string) (fd : NQobj -> list nat) :
  Forall (fun f => length (fn f) = length (fd f)) modes ->
  combine (concat (map fn modes)) (concat (map fd modes))
  = concat (map (fun f => combine (fn f) (fd f)) modes).
Proof.
  induction 1 as [|f modes Hf _ IH]; [reflexivity|].
  cbn [map concat]. now rewrite combine_app, IH.
Qed.

(** The names of [tensor]'s result stand beside the same dimensions
    whatever the order of the modes. *)
Lemma tensored_named_dims_perm (x : NQobj) (modes modes' : list NQobj) :
  names_ok x -> Forall mode_ok modes -> Permutation modes modes' ->
  Permutation (combine (fst (names (tensored x modes)))
                       (fst (dims (qobj (tensored x modes)))))
              (combine (fst (names (tensored x modes')))
                       (fst (dims (qobj (tensored x modes'))))) /\
  Permutation (combine (snd (names (tensored x modes)))
                       (snd (dims (qobj (tensored x modes)))))
              (combine (snd (names (tensored x modes')))
                       (snd (dims (qobj (tensored x modes'))))).
Proof.
  intros [_ [_ [L0 L1]]] Hm Hp.
  pose proof (mode_ok_perm _ _ Hp Hm) as Hm'.
  rewrite !tensored_dims. unfold tensored. cbn [names fst snd map concat].
  rewrite !combine_app by assumption. rewrite !map_map.
  rewrite !(combine_concat _ (fun a => fst (names a))
                           (fun a => fst (dims (qobj a)))),
          !(combine_concat _ (fun a => snd (names a))
                           (fun a => snd (dims (qobj a)))).
  - split; apply Permutation_app_head; now apply concat_map_perm.
  - eapply Forall_impl; [|exact Hm']. intros f [[_ [_ [_ H]]] _]. exact H.
  - eapply Forall_impl; [|exact Hm]. intros f [[_ [_ [_ H]]] _]. exact H.
  - eapply Forall_impl; [|exact Hm']. intros f [[_ [_ [H _]]] _]. exact H.
  - eapply Forall_impl; [|exact Hm]. intros f [[_ [_ [H _]]] _]. exact H.
Qed.

Lemma fold_kron_shape (fs : list Qobj) (Q : Qobj) :
  nrows (data (fold_left kron_step fs Q))
  = nrows (data Q) * prod_dims (map (fun f => nrows (data f)) fs) /\
  ncols (data (fold_left kron_step fs Q))
  = ncols (data Q) * prod_dims (map (fun f => ncols (data f)) fs).
Proof.
  revert Q. induction fs as [|f fs IH]; intros Q.
  - unfold prod_dims. simpl. lia.
  - cbn [fold_left map]. destruct (IH (kron_step Q f)) as [H0 H1].
    rewrite H0, H1. unfold kron_step, kron. cbn [data nrows ncols].
    change (prod_dims (?a :: ?l)) with (a * prod_dims l). lia.
Qed.

Lemma tensored_shape_perm (x : NQobj) (modes modes' : list NQobj) :
  Permutation modes modes' ->
  nrows (data (qobj (tensored x modes))) = nrows (data (qobj (tensored x modes'))) /\
  ncols (data (qobj (tensored x modes))) = ncols (data (qobj (tensored x modes'))).
Proof.
  intros Hp. unfold tensored, tidyup, tidy_coo. cbn [qobj data nrows ncols].
  destruct (fold_kron_shape (map qobj modes) (qobj x)) as [A0 A1].
  destruct (fold_kron_shape (map qobj modes') (qobj x)) as [B0 B1].
  rewrite A0, A1, B0, B1, !map_map.
  split; f_equal; apply prod_dims_perm; now apply Permutation_map.
Qed.

Lemma modes_entry_perm (modes modes' : list NQobj) (rho0 rho1 : string -> nat) :
  Permutation modes modes' ->
  modes_entry modes rho0 rho1 = modes_entry modes' rho0 rho1.
Proof.
  unfold modes_entry. induction 1; cbn [fold_right].
  - reflexivity.
  - now rewrite IHPermutation.
  - ring.
  - congruence.
Qed.

Lemma named_entry_tensored (x : NQobj) (modes : list NQobj)
      (rho0 rho1 : string -> nat) :
  names_ok x -> Forall mode_ok modes ->
  NoDup (fst (names (tensored x modes))) ->
  NoDup (snd (names (tensored x modes))) ->
  fits_axis (fst (names (tensored x modes)))
            (fst (dims (qobj (tensored x modes)))) rho0 ->
  fits_axis (snd (names (tensored x modes)))
            (snd (dims (qobj (tensored x modes)))) rho1 ->
  named_entry (tensored x modes) rho0 rho1
  = cmul (named_entry x rho0 rho1) (modes_entry modes rho0 rho1).
Proof.
  intros Hx Hm D0 D1 F0 F1.
  destruct (tensored_lengths x modes Hx Hm) as [T0 T1].
  apply (fits_digits _ _ _ D0 T0) in F0. apply (fits_digits _ _ _ D1 T1) in F1.
  destruct Hx as [_ [_ [L0 L1]]].
  rewrite tensored_dims in F0, F1. cbn [fst snd] in F0, F1.
  unfold tensored in F0, F1. cbn [names fst snd map concat] in F0, F1.
  rewrite map_app in F0, F1.
  apply digits_ok_app_inv in F0; [|now rewrite length_map].
  apply digits_ok_app_inv in F1; [|now rewrite length_map].
  unfold named_entry at 1. unfold tensored, tidyup.
  cbn [qobj names dims data fst snd map concat].
  rewrite entry_tidy.
  rewrite (entry_fold_kron modes rho0 rho1 Hm (qobj x)) by tauto.
  reflexivity.
Qed.

(** ** When [permute] with a pair of orders of names succeeds *)

Lemma mapM_py_index_inv (ns p : list string) (o : list nat) :
  mapM (py_index ns) p = Ok o -> incl p ns.
Proof.
  revert o. induction p as [|x p IH]; intros o H; [intros y []|].
  simpl in H. bind_inv H. bind_inv H.
  unfold py_index in E. destruct (index_of x ns) as [i|] eqn:Ei; [|discriminate].
  apply index_of_Some in Ei. destruct Ei as [Hn _].
  intros y [<- | Hy]; [eapply nth_error_In; eassumption | now apply (IH v0)].
Qed.

Lemma cy_index_permute_Ok_len (ds o : list nat) (idx v : nat) :
  cy_index_permute ds o idx = Ok v -> length ds <= length o.
Proof.
  unfold cy_index_permute.
  destruct (length (firstn (length ds) o) =? length ds) eqn:E; [|discriminate].
  intros _. apply Nat.eqb_eq in E. rewrite length_firstn in E. lia.
Qed.

Lemma permute_pair_empty (x : NQobj) (l0 l1 : list string) :
  names_ok x -> trip (data (qobj x)) = [] ->
  incl l0 (fst (names x)) -> incl l1 (snd (names x)) ->
  NoDup l0 -> NoDup l1 ->
  permute x (OrderNamesPair l0 l1) = Ok (permuted x l0 l1).
Proof.
  intros [N0 [N1 [L0 L1]]] Ht I0 I1 D0 D1.
  pose proof (positions_in_range _ _ I0) as R0.
  pose proof (positions_in_range _ _ I1) as R1.
  unfold permute, resolve_order, auto_tidyup.
  rewrite (mapM_py_index _ _ I0), (mapM_py_index _ _ I1). cbn [bind].
  unfold _permute2. rewrite Ht. cbn [mapM bind].
  rewrite (py_select_ok 0 (fst (dims (qobj x)))),
          (py_select_ok 0 (snd (dims (qobj x))))
    by (rewrite <- ?L0, <- ?L1; assumption).
  cbn [bind fst snd].
  rewrite (py_select_ok EmptyString (fst (names x))),
          (py_select_ok EmptyString (snd (names x))) by assumption.
  cbn [bind]. rewrite !select_positions by assumption.
  apply NQobj_init_pair_iff. unfold permuted, tidyup, pick.
  cbn [dims fst snd]. rewrite Ht, !length_map. cbn [map]. auto.
Qed.

Lemma permute_pair_inv (x : NQobj) (l0 l1 : list string) (y : NQobj) :
  names_ok x -> permute x (OrderNamesPair l0 l1) = Ok y ->
  y = permuted x l0 l1 /\ NoDup l0 /\ NoDup l1 /\
  incl l0 (fst (names x)) /\ incl l1 (snd (names x)) /\
  (trip (data (qobj x)) = [] \/
   (Permutation l0 (fst (names x)) /\ Permutation l1 (snd (names x)))).
Proof.
  intros Hx H. pose proof H as H'. destruct Hx as [N0 [N1 [L0 L1]]].
  unfold permute, resolve_order, auto_tidyup in H. bind_split H as o Eo.
  assert (Hv : exists o0 o1,
             mapM (py_index (fst (names x))) l0 = Ok o0 /\
             mapM (py_index (snd (names x))) l1 = Ok o1 /\ o = Pair o0 o1).
  { bind_split Eo as o0 E0. bind_split Eo as o1 E1. injection Eo as <-. eauto. }
  destruct Hv as [o0 [o1 [E0 [E1 ->]]]].
  pose proof (mapM_py_index_inv _ _ _ E0) as I0.
  pose proof (mapM_py_index_inv _ _ _ E1) as I1.
  rewrite (mapM_py_index _ _ I0) in E0. rewrite (mapM_py_index _ _ I1) in E1.
  injection E0 as <-. injection E1 as <-.
  pose proof (positions_in_range _ _ I0) as R0.
  pose proof (positions_in_range _ _ I1) as R1.
  bind_split H as dd Ep. destruct dd as [d ds]. cbn [fst snd] in H.
  rewrite (py_select_ok EmptyString (fst (names x))),
          (py_select_ok EmptyString (snd (names x))) in H by assumption.
  cbn [bind] in H. rewrite !select_positions in H by assumption.
  apply NQobj_init_pair_iff in H. destruct H as [_ [D0 [D1 _]]].
  assert (Hcase : trip (data (qobj x)) = [] \/
                  (Permutation l0 (fst (names x)) /\
                   Permutation l1 (snd (names x)))).
  { destruct (trip (data (qobj x))) as [|[[r c] w] rest] eqn:Et; [now left|].
    right. unfold _permute2 in Ep. rewrite Et in Ep. cbn [mapM] in Ep.
    bind_split Ep as t Er. bind_split Er as t0 Er0. bind_split Er as ts Ers.
    injection Er as <-.
    unfold permute_rows in Er0. bind_split Er0 as r' Ecy.
    apply cy_index_permute_Ok_len in Ecy. rewrite length_map in Ecy.
    injection Er0 as <-.
    bind_split Ep as t' Ec. cbn [mapM] in Ec.
    bind_split Ec as t1 Ec0.
    unfold permute_cols in Ec0. bind_split Ec0 as c' Ecy'.
    apply cy_index_permute_Ok_len in Ecy'. rewrite length_map in Ecy'.
    split; apply NoDup_Permutation_bis; try assumption; lia. }
  split; [|tauto].
  destruct Hcase as [Ht | [P0 P1]].
  - rewrite (permute_pair_empty x l0 l1) in H'; try assumption;
      [now injection H' | repeat split; assumption].
  - rewrite (permute_pair_ok x l0 l1) in H'; try assumption;
      [now injection H' | repeat split; assumption].
Qed.

(** ** The dictionary of missing modes *)

Lemma dim_on_opt (ns : list string) (ds : list nat) (name : string) :
  length ns = length ds -> dim_on ns ds name = Ok (dim_opt ns ds name).
Proof.
  intros Hlen. unfold dim_on, dim_opt, py_getitem.
  destruct (index_of name ns) as [i|] eqn:E; [|reflexivity].
  apply index_of_Some in E. destruct E as [_ Hi].
  destruct (nth_error ds i) eqn:En; [reflexivity|].
  apply nth_error_None in En. lia.
Qed.

Lemma _find_missing_dict_ok (so : set_order) (m : list string * list string)
      (w : NQobj) (transpose : bool) :
  names_ok w ->
  _find_missing_dict so m w transpose
  = Ok (map (missing_entry (fst m) (snd m) w transpose)
            (enum so (fst m ++ snd m))).
Proof.
  intros [_ [_ [L0 L1]]]. unfold _find_missing_dict.
  apply mapM_ok_map. intros name _. unfold _dim_of_name, missing_entry.
  rewrite (dim_on_opt _ _ name L0), (dim_on_opt _ _ name L1). reflexivity.
Qed.

Lemma enum_In (so : set_order) (l : list string) (x : string) :
  In x (enum so l) <-> In x l.
Proof.
  rewrite <- (dedupe_In x l). split; apply Permutation_in.
  - apply enum_perm.
  - apply Permutation_sym, enum_perm.
Qed.

Lemma enum_NoDup (so : set_order) (l : list string) : NoDup (enum so l).
Proof.
  apply (Permutation_NoDup (Permutation_sym (enum_perm so l))).
  apply dedupe_NoDup.
Qed.

Lemma mem_iff (x : string) (l l' : list string) :
  (In x l <-> In x l') -> mem x l = mem x l'.
Proof.
  intros H. destruct (mem x l) eqn:E, (mem x l') eqn:E'; try reflexivity.
  - apply mem_In in E. apply mem_false in E'. tauto.
  - apply mem_In in E'. apply mem_false in E. tauto.
Qed.

Lemma missing_In (so : set_order) (n req : list string) (x : string) :
  In x (enum so (filter (fun y => negb (mem y n)) req))
  <-> In x req /\ ~ In x n.
Proof.
  rewrite enum_In, filter_In, negb_true_iff, mem_false. tauto.
Qed.

Section SameRequiredNames.

Variables (so so' : set_order) (x w : NQobj).
Variables (nm nm' : list string * list string).
Hypothesis same0 : forall name, In name (fst nm) <-> In name (fst nm').
Hypothesis same1 : forall name, In name (snd nm) <-> In name (snd nm').

Lemma missing_mem_same (name : string) :
  mem name (fst (_find_missing_names so (names x) nm))
  = mem name (fst (_find_missing_names so' (names x) nm')) /\
  mem name (snd (_find_missing_names so (names x) nm))
  = mem name (snd (_find_missing_names so' (names x) nm')).
Proof.
  unfold _find_missing_names. cbn [fst snd].
  split; apply mem_iff; rewrite !missing_In;
    [rewrite (same0 name) | rewrite (same1 name)]; tauto.
Qed.

Lemma missing_entry_same (name : string) :
  missing_entry (fst (_find_missing_names so (names x) nm))
                (snd (_find_missing_names so (names x) nm)) w false name
  = missing_entry (fst (_find_missing_names so' (names x) nm'))
                  (snd (_find_missing_names so' (names x) nm')) w false name.
Proof.
  unfold missing_entry. destruct (missing_mem_same name) as [-> ->].
  reflexivity.
Qed.

Lemma missing_keys_perm :
  Permutation (missing_keys so x nm) (missing_keys so' x nm').
Proof.
  unfold missing_keys. apply NoDup_Permutation; try apply enum_NoDup.
  intros name. rewrite !enum_In, !in_app_iff.
  unfold _find_missing_names. cbn [fst snd]. rewrite !missing_In.
  rewrite (same0 name), (same1 name). tauto.
Qed.

End SameRequiredNames.

Lemma mapM_inv {A B : Type} (f : A -> result B) (dflt : B) (l : list A) (l' : list B) :
  mapM f l = Ok l' ->
  l' = map (fun a => match f a with Ok b => b | Raise _ => dflt end) l /\
  forall a, In a l -> exists b, f a = Ok b.
Proof.
  revert l'. induction l as [|a l IH]; intros l' H.
  - injection H as <-. split; [reflexivity | intros a []].
  - cbn [mapM] in H. bind_split H as b Eb. bind_split H as bs Ebs.
    injection H as <-. destruct (IH bs Ebs) as [-> Hall].
    cbn [map]. rewrite Eb. split; [reflexivity|].
    intros a' [<- | Ha]; eauto.
Qed.

Lemma mapM_intro {A B : Type} (f : A -> result B) (dflt : B) (l : list A) :
  (forall a, In a l -> exists b, f a = Ok b) ->
  mapM f l = Ok (map (fun a => match f a with Ok b => b | Raise _ => dflt end) l).
Proof.
  intros H. apply mapM_ok_map. intros a Ha.
  destruct (H a Ha) as [b Hb]. now rewrite Hb.
Qed.

(** ** Expansion of an operand under two orders *)

Lemma adding_modes_inv (x : NQobj) (d : list (string * dims_pair)) (k : kind_t)
      (x1 : NQobj) :
  _adding_missing_modes x d k = Ok x1 ->
  x1 = tensored x (map (filler_or x k) d) /\
  Forall mode_ok (map (filler_or x k) d) /\
  (forall e, In e d -> exists f, filler_mode k e = Ok f) /\
  tensor (x :: map (filler_or x k) d) = Ok x1.
Proof.
  unfold _adding_missing_modes. intros H. bind_split H as modes Em.
  destruct (mapM_inv (filler_mode k) x d modes Em) as [-> Hall].
  fold (filler_or x k) in *.
  assert (Hm : Forall mode_ok (map (filler_or x k) d)).
  { apply Forall_forall. intros f Hf. apply in_map_iff in Hf.
    destruct Hf as [e [<- He]]. destruct (Hall e He) as [f Hf].
    unfold filler_or. rewrite Hf. now apply (filler_mode_ok k e). }
  pose proof H as H'. apply tensor_iff in H'. tauto.
Qed.

Lemma adding_modes_perm (x : NQobj) (d d' : list (string * dims_pair))
      (k : kind_t) (x1 : NQobj) :
  names_ok x -> Permutation d d' ->
  _adding_missing_modes x d k = Ok x1 ->
  _adding_missing_modes x d' k = Ok (tensored x (map (filler_or x k) d')).
Proof.
  intros Hx Hp H. destruct (adding_modes_inv x d k x1 H) as [_ [Hm [Hall Ht]]].
  unfold _adding_missing_modes.
  rewrite (mapM_intro (filler_mode k) x d').
  - cbn [bind]. fold (filler_or x k).
    apply (tensor_perm x (map (filler_or x k) d) _ x1); try assumption.
    now apply Permutation_map.
  - intros e He. apply Hall.
    now apply (Permutation_in _ (Permutation_sym Hp)).
Qed.

Lemma incl_perm_l {A : Type} (l l' m : list A) :
  Permutation l l' -> incl m l -> incl m l'.
Proof. intros Hp H a Ha. apply (Permutation_in _ Hp). now apply H. Qed.

Lemma permuted_dims (y : NQobj) (l0 l1 : list string) :
  dims (qobj (permuted y l0 l1))
  = (map (dim_of (fst (names y)) (fst (dims (qobj y)))) l0,
     map (dim_of (snd (names y)) (snd (dims (qobj y)))) l1).
Proof.
  unfold permuted, tidyup. cbn [qobj dims]. now rewrite !pick_positions.
Qed.

Lemma permuted_trip_nil (y : NQobj) (l0 l1 : list string) :
  trip (data (qobj y)) = [] -> trip (data (qobj (permuted y l0 l1))) = [].
Proof.
  intros H. unfold permuted, tidyup, tidy_coo. cbn [qobj data trip].
  now rewrite H.
Qed.

Lemma entry_no_trip (m : coo) (r c : nat) : trip m = [] -> entry m r c = c0.
Proof. intros H. unfold entry. now rewrite H. Qed.

Lemma fits_axis_transfer (ns ns' : list string) (ds ds' : list nat)
      (rho : string -> nat) :
  (forall name, In name ns' -> In name ns) ->
  (forall name, In name ns' -> dim_of ns' ds' name = dim_of ns ds name) ->
  fits_axis ns ds rho -> fits_axis ns' ds' rho.
Proof.
  intros Hin Hd H name Hn. rewrite (Hd name Hn). apply H. now apply Hin.
Qed.

Lemma permuted_names (y : NQobj) (l0 l1 : list string) :
  names (permuted y l0 l1) = (l0, l1).
Proof. reflexivity. Qed.

Lemma permuted_shape (y : NQobj) (l0 l1 : list string) :
  nrows (data (qobj (permuted y l0 l1))) = nrows (data (qobj y)) /\
  ncols (data (qobj (permuted y l0 l1))) = ncols (data (qobj y)).
Proof. split; reflexivity. Qed.

Lemma names_ok_permuted_gen (y : NQobj) (l0 l1 : list string) :
  NoDup l0 -> NoDup l1 -> names_ok (permuted y l0 l1).
Proof.
  intros D0 D1. unfold names_ok. rewrite permuted_dims, permuted_names.
  cbn [fst snd]. rewrite !length_map. auto.
Qed.

Lemma map_dim_of_map (l l' : list string) (f : string -> nat) :
  NoDup l' -> incl l l' -> map (dim_of l' (map f l')) l = map f l.
Proof.
  intros Hnd Hin. apply map_ext_in. intros name Hn.
  apply dim_of_map; [assumption | now apply Hin].
Qed.

Lemma dims_permuted_twice (z : NQobj) (l0 l1 l0' l1' : list string) :
  NoDup l0' -> NoDup l1' -> incl l0 l0' -> incl l1 l1' ->
  dims (qobj (permuted (permuted z l0' l1') l0 l1))
  = dims (qobj (permuted z l0 l1)).
Proof.
  intros D0 D1 I0 I1. rewrite (permuted_dims (permuted z l0' l1')).
  rewrite permuted_names, !permuted_dims. cbn [fst snd].
  now rewrite !map_dim_of_map.
Qed.

Section AlignedTensored.

Variables (x : NQobj) (modes modes' : list NQobj).
Variables (N0 N1 N0' N1' : list string).

Hypothesis x_ok : names_ok x.
Hypothesis x_wf : Qobj_wf (qobj x).
Hypothesis modes_ok : Forall mode_ok modes.
Hypothesis modes_perm : Permutation modes modes'.
Hypothesis y_ok : names_ok (tensored x modes).
Hypothesis N0_nodup : NoDup N0.
Hypothesis N1_nodup : NoDup N1.
Hypothesis P0 : Permutation N0 N0'.
Hypothesis P1 : Permutation N1 N1'.
Hypothesis I0 : incl N0 (fst (names (tensored x modes))).
Hypothesis I1 : incl N1 (snd (names (tensored x modes))).

Let y := tensored x modes.
Let y' := tensored x modes'.

Lemma tensored_perm_ok : names_ok y'.
Proof.
  destruct y_ok as [D0 [D1 _]].
  destruct (tensored_names_perm x modes modes' modes_perm) as [Q0 Q1].
  destruct (tensored_lengths x modes' x_ok (mode_ok_perm _ _ modes_perm modes_ok))
    as [L0 L1].
  unfold names_ok, y'. repeat split; try assumption.
  - now apply (Permutation_NoDup Q0).
  - now apply (Permutation_NoDup Q1).
Qed.

Lemma tensored_dim_of_same :
  (forall name, In name (fst (names y)) ->
                dim_of (fst (names y')) (fst (dims (qobj y'))) name
                = dim_of (fst (names y)) (fst (dims (qobj y))) name) /\
  (forall name, In name (snd (names y)) ->
                dim_of (snd (names y')) (snd (dims (qobj y'))) name
                = dim_of (snd (names y)) (snd (dims (qobj y))) name).
Proof.
  destruct tensored_perm_ok as [D0 [D1 _]].
  destruct y_ok as [_ [_ [L0 L1]]].
  destruct (tensored_named_dims_perm x modes modes' x_ok modes_ok modes_perm)
    as [C0 C1].
  split; intros name Hn; now apply dim_of_perm.
Qed.

Lemma aligned_dims :
  dims (qobj (permuted y' N0' N1'))
  = (map (dim_of (fst (names y)) (fst (dims (qobj y)))) N0',
     map (dim_of (snd (names y)) (snd (dims (qobj y)))) N1').
Proof.
  destruct tensored_dim_of_same as [S0 S1].
  rewrite permuted_dims. f_equal; apply map_ext_in; intros name Hn.
  - apply S0, I0. now apply (Permutation_in _ (Permutation_sym P0)).
  - apply S1, I1. now apply (Permutation_in _ (Permutation_sym P1)).
Qed.

Lemma aligned_entries_perm :
  Permutation N0 (fst (names y)) -> Permutation N1 (snd (names y)) ->
  forall i j,
    i < nrows (data (qobj (permuted y N0 N1))) ->
    j < ncols (data (qobj (permuted y N0 N1))) ->
    entry (data (qobj (permuted (permuted y' N0' N1') N0 N1))) i j
    = entry (data (qobj (permuted y N0 N1))) i j.
Proof.
  intros Q0 Q1 i j Hi Hj.
  pose proof tensored_perm_ok as y'_ok.
  destruct tensored_dim_of_same as [S0 S1].
  destruct (tensored_names_perm x modes modes' modes_perm) as [T0 T1].
  fold y y' in T0, T1.
  assert (N0'_nodup : NoDup N0') by now apply (Permutation_NoDup P0).
  assert (N1'_nodup : NoDup N1') by now apply (Permutation_NoDup P1).
  assert (Q0' : Permutation N0' (fst (names y'))).
  { apply (Permutation_trans (Permutation_sym P0)).
    now apply (Permutation_trans Q0). }
  assert (Q1' : Permutation N1' (snd (names y'))).
  { apply (Permutation_trans (Permutation_sym P1)).
    now apply (Permutation_trans Q1). }
  assert (y_wf : Qobj_wf (qobj y)) by now apply tensored_wf.
  assert (y'_wf : Qobj_wf (qobj y')).
  { apply tensored_wf; [assumption|]. now apply (mode_ok_perm modes). }
  set (x2' := permuted y' N0' N1').
  assert (x2'_ok : names_ok x2') by now apply names_ok_permuted_gen.
  assert (x2'_wf : Qobj_wf (qobj x2')) by now apply permuted_wf.
  set (u := permuted x2' N0 N1). set (v := permuted y N0 N1) in *.
  assert (u_ok : names_ok u) by now apply names_ok_permuted_gen.
  assert (u_wf : Qobj_wf (qobj u)).
  { apply permuted_wf; try assumption; unfold x2';
      rewrite permuted_names; assumption. }
  assert (Hd : dims (qobj u) = dims (qobj v)).
  { unfold u, v, x2'.
    transitivity (dims (qobj (permuted y' N0 N1))).
    - apply dims_permuted_twice; try assumption.
      + intros a. apply (Permutation_in a P0).
      + intros a. apply (Permutation_in a P1).
    - rewrite !permuted_dims. f_equal; apply map_ext_in; intros name Hn.
      + now apply S0, I0.
      + now apply S1, I1. }
  destruct u_wf as [Ur [Uc _]].
  assert (Hs : nrows (data (qobj u)) = nrows (data (qobj v)) /\
               ncols (data (qobj u)) = ncols (data (qobj v))).
  { unfold u, v, x2'. cbn [permuted qobj tidyup data tidy_coo nrows ncols].
    apply (tensored_shape_perm x modes' modes).
    now apply Permutation_sym. }
  destruct Hs as [Hs0 Hs1].
  apply (entries_from_named u v); try assumption; try reflexivity;
    try lia.
  intros rho0 rho1 F0 F1.
  rewrite Hd in F0, F1. unfold u, v in F0, F1. rewrite permuted_names in F0, F1.
  rewrite permuted_dims in F0, F1. cbn [fst snd] in F0, F1.
  assert (Fy0 : fits_axis (fst (names y)) (fst (dims (qobj y))) rho0).
  { apply fits_axis_transfer with (3 := F0).
    - intros name Hn. now apply (Permutation_in _ (Permutation_sym Q0)).
    - intros name Hn. symmetry. apply dim_of_map; [assumption|].
      now apply (Permutation_in _ (Permutation_sym Q0)). }
  assert (Fy1 : fits_axis (snd (names y)) (snd (dims (qobj y))) rho1).
  { apply fits_axis_transfer with (3 := F1).
    - intros name Hn. now apply (Permutation_in _ (Permutation_sym Q1)).
    - intros name Hn. symmetry. apply dim_of_map; [assumption|].
      now apply (Permutation_in _ (Permutation_sym Q1)). }
  assert (Fy0' : fits_axis (fst (names y')) (fst (dims (qobj y'))) rho0).
  { apply fits_axis_transfer with (3 := Fy0).
    - intros name Hn. now apply (Permutation_in _ (Permutation_sym T0)).
    - intros name Hn. apply S0.
      now apply (Permutation_in _ (Permutation_sym T0)). }
  assert (Fy1' : fits_axis (snd (names y')) (snd (dims (qobj y'))) rho1).
  { apply fits_axis_transfer with (3 := Fy1).
    - intros name Hn. now apply (Permutation_in _ (Permutation_sym T1)).
    - intros name Hn. apply S1.
      now apply (Permutation_in _ (Permutation_sym T1)). }
  assert (Fx0 : fits_axis (fst (names x2')) (fst (dims (qobj x2'))) rho0).
  { unfold x2'. rewrite permuted_names, permuted_dims. cbn [fst snd].
    apply fits_axis_transfer with (3 := Fy0').
    - intros name Hn. now apply (Permutation_in _ Q0').
    - intros name Hn. now apply dim_of_map. }
  assert (Fx1 : fits_axis (snd (names x2')) (snd (dims (qobj x2'))) rho1).
  { unfold x2'. rewrite permuted_names, permuted_dims. cbn [fst snd].
    apply fits_axis_transfer with (3 := Fy1').
    - intros name Hn. now apply (Permutation_in _ Q1').
    - intros name Hn. now apply dim_of_map. }
  unfold u, v.
  rewrite (named_entry_permuted x2'); try assumption;
    try (unfold x2'; rewrite permuted_names; assumption).
  unfold x2'.
  rewrite (named_entry_permuted y'), (named_entry_permuted y); try assumption.
  unfold y, y'. destruct y_ok as [D0 [D1 _]]. destruct y'_ok as [D0' [D1' _]].
  rewrite !named_entry_tensored; try assumption.
  - now rewrite (modes_entry_perm modes modes').
  - now apply (mode_ok_perm modes).
Qed.

End AlignedTensored.

Lemma operand_reorder (so so' : set_order) (x w : NQobj)
      (nm nm' : list string * list string)
      (d : list (string * dims_pair)) (x1 x2 : NQobj) :
  names_ok x -> Qobj_wf (qobj x) -> names_ok w ->
  Permutation (fst nm) (fst nm') -> Permutation (snd nm) (snd nm') ->
  _find_missing_dict so (_find_missing_names so (names x) nm) w false = Ok d ->
  _adding_missing_modes x d (kind x) = Ok x1 ->
  permute x1 (OrderNamesPair (fst nm) (snd nm)) = Ok x2 ->
  exists d' x1' x2',
    _find_missing_dict so' (_find_missing_names so' (names x) nm') w false
    = Ok d' /\
    _adding_missing_modes x d' (kind x) = Ok x1' /\
    permute x1' (OrderNamesPair (fst nm') (snd nm')) = Ok x2' /\
    kind x2 = kind x /\ kind x2' = kind x /\
    aligned x2 x2' nm nm'.
Proof.
  intros Hx Hxw Hw P0 P1 Ed Ea Ep.
  destruct nm as [N0 N1], nm' as [N0' N1']. cbn [fst snd] in *.
  assert (S0 : forall name, In name N0 <-> In name N0').
  { intros name. split; apply Permutation_in; [|apply Permutation_sym];
      assumption. }
  assert (S1 : forall name, In name N1 <-> In name N1').
  { intros name. split; apply Permutation_in; [|apply Permutation_sym];
      assumption. }
  rewrite (_find_missing_dict_ok so _ w false Hw) in Ed. injection Ed as <-.
  set (G := missing_entry (fst (_find_missing_names so (names x) (N0, N1)))
                          (snd (_find_missing_names so (names x) (N0, N1)))
                          w false) in *.
  fold (missing_keys so x (N0, N1)) in Ea.
  set (G' := missing_entry
               (fst (_find_missing_names so' (names x) (N0', N1')))
               (snd (_find_missing_names so' (names x) (N0', N1')))
               w false).
  assert (Hd : Permutation (map G (missing_keys so x (N0, N1)))
                           (map G' (missing_keys so' x (N0', N1')))).
  { rewrite (map_ext G' G).
    - apply Permutation_map. now apply missing_keys_perm.
    - intros name. symmetry. now apply missing_entry_same. }
  set (d := map G (missing_keys so x (N0, N1))) in *.
  set (d' := map G' (missing_keys so' x (N0', N1'))) in *.
  destruct (adding_modes_inv x d (kind x) x1 Ea) as [-> [Hm [_ Ht]]].
  pose proof (adding_modes_perm x d d' (kind x) _ Hx Hd Ea) as Ea'.
  set (modes := map (filler_or x (kind x)) d) in *.
  set (modes' := map (filler_or x (kind x)) d') in *.
  assert (Hmp : Permutation modes modes') by now apply Permutation_map.
  pose proof (tensor_names_ok _ _ Ht) as Hy.
  destruct (permute_pair_inv _ _ _ _ Hy Ep) as [-> [D0 [D1 [I0 [I1 Hcase]]]]].
  assert (D0' : NoDup N0') by now apply (Permutation_NoDup P0).
  assert (D1' : NoDup N1') by now apply (Permutation_NoDup P1).
  pose proof (tensored_perm_ok x modes modes' Hx Hm Hmp Hy) as Hy'.
  destruct (tensored_names_perm x modes modes' Hmp) as [T0 T1].
  assert (I0' : incl N0' (fst (names (tensored x modes')))).
  { intros name Hn. apply (Permutation_in _ T0), I0. now apply S0. }
  assert (I1' : incl N1' (snd (names (tensored x modes')))).
  { intros name Hn. apply (Permutation_in _ T1), I1. now apply S1. }
  exists d', (tensored x modes'), (permuted (tensored x modes') N0' N1').
  split; [unfold d', G'; now apply _find_missing_dict_ok|].
  split; [exact Ea'|].
  assert (Ep' : permute (tensored x modes') (OrderNamesPair N0' N1')
                = Ok (permuted (tensored x modes') N0' N1')).
  { destruct Hcase as [Hnil | [Q0 Q1]].
    - apply permute_pair_empty; try assumption.
      now apply (tensored_trip_nil x modes modes').
    - apply permute_pair_ok; [assumption| |].
      + apply (Permutation_trans (Permutation_sym P0)).
        now apply (Permutation_trans Q0).
      + apply (Permutation_trans (Permutation_sym P1)).
        now apply (Permutation_trans Q1). }
  split; [exact Ep'|].
  split; [reflexivity|]. split; [reflexivity|].
  unfold aligned. cbn [fst snd]. rewrite !permuted_names.
  split; [reflexivity|]. split; [reflexivity|]. split.
  { exists (dim_of (fst (names (tensored x modes)))
                   (fst (dims (qobj (tensored x modes))))),
           (dim_of (snd (names (tensored x modes)))
                   (snd (dims (qobj (tensored x modes))))).
    split; [apply permuted_dims|].
    now apply (aligned_dims x modes modes' N0 N1 N0' N1'). }
  destruct (tensored_shape_perm x modes modes' Hmp) as [R0 R1].
  split; [symmetry; exact R0|]. split; [symmetry; exact R1|].
  intros i j Hi Hj. destruct Hcase as [Hnil | [Q0 Q1]].
  - rewrite !entry_no_trip; [reflexivity | |].
    + now apply permuted_trip_nil.
    + apply permuted_trip_nil, permuted_trip_nil.
      now apply (tensored_trip_nil x modes modes').
  - now apply (aligned_entries_perm x modes modes' N0 N1 N0' N1').
Qed.

(** ** Addition commutes up to the order of the names *)

Lemma dims_eqb_eq (d d' : list nat * list nat) : dims_eqb d d' = true <-> d = d'.
Proof.
  unfold dims_eqb. rewrite andb_true_iff, !list_nat_eqb_eq.
  destruct d, d'. cbn [fst snd]. split; [intros [-> ->] | intros [= -> ->]]; auto.
Qed.

Lemma Qobj_add_iff (A B R : Qobj) :
  Qobj_add A B = Ok R <->
  dims A = dims B /\ nrows (data A) = nrows (data B) /\
  ncols (data A) = ncols (data B) /\
  R = tidyup (MkQobj (Coo (nrows (data A)) (ncols (data A))
                          (trip (data A) ++ trip (data B)))
                     (dims A)).
Proof.
  unfold Qobj_add. split.
  - destruct (dims_eqb (dims A) (dims B)) eqn:Ed; [|discriminate]. cbn [negb].
    destruct (nrows (data A) =? nrows (data B)) eqn:Er; [|discriminate].
    destruct (ncols (data A) =? ncols (data B)) eqn:Ec; [|discriminate].
    cbn. intros [= <-]. apply dims_eqb_eq in Ed. apply Nat.eqb_eq in Er, Ec.
    auto.
  - intros [Ed [Er [Ec ->]]]. rewrite <- Ed, Er, Ec, dims_eqb_refl, !Nat.eqb_refl.
    cbn. now rewrite <- Er, <- Ec.
Qed.

Lemma entry_trip (m m' : coo) (r c : nat) :
  trip m = trip m' -> entry m r c = entry m' r c.
Proof. unfold entry. now intros ->. Qed.

Lemma entry_of_tidy_app (nr nc : nat) (l1 l2 : list (nat * nat * cplx)) (r c : nat) :
  entry (Coo nr nc (filter (fun t => negb (ceqb (snd t) c0)) (l1 ++ l2))) r c
  = cadd (entry (Coo nr nc l1) r c) (entry (Coo nr nc l2) r c).
Proof.
  rewrite <- entry_app. apply (entry_tidy (Coo nr nc (l1 ++ l2))).
Qed.

Lemma entry_permuted (y : NQobj) (l0 l1 : list string) (r c : nat) :
  entry (data (qobj (permuted y l0 l1))) r c
  = entry (Coo 0 0
               (map (permute_trip (fst (dims (qobj y)))
                                  (map (pos (fst (names y))) l0)
                                  (snd (dims (qobj y)))
                                  (map (pos (snd (names y))) l1))
                    (trip (data (qobj y))))) r c.
Proof.
  unfold permuted, tidyup. cbn [qobj data]. rewrite entry_tidy.
  now apply entry_trip.
Qed.

Lemma entry_permuted_sum (u v s : NQobj) (l0 l1 : list string) (r c : nat) :
  names u = names s -> names v = names s ->
  dims (qobj u) = dims (qobj s) -> dims (qobj v) = dims (qobj s) ->
  trip (data (qobj s))
  = filter (fun t => negb (ceqb (snd t) c0))
           (trip (data (qobj u)) ++ trip (data (qobj v))) ->
  entry (data (qobj (permuted s l0 l1))) r c
  = cadd (entry (data (qobj (permuted u l0 l1))) r c)
         (entry (data (qobj (permuted v l0 l1))) r c).
Proof.
  intros Nu Nv Du Dv Ht. rewrite !entry_permuted, Nu, Nv, Du, Dv, Ht.
  rewrite <- (filter_nonzero_map _ _ (permute_trip_snd _ _ _ _)).
  rewrite map_app. apply entry_of_tidy_app.
Qed.

Lemma type_is_ket_bra_or_oper (Q : Qobj) :
  isket Q || isbra Q || isoper Q = true.
Proof. unfold isket, isbra, isoper. now destruct (type Q). Qed.

Lemma qtype_eqb_sym (s t : qtype) : qtype_eqb s t = qtype_eqb t s.
Proof. now destruct s, t. Qed.

Lemma kind_eqb_sym (s t : kind_t) : kind_eqb s t = kind_eqb t s.
Proof. now destruct s, t. Qed.

Lemma required_names_perm (a b : NQobj) :
  Permutation (fst (_add_find_required_names a b))
              (fst (_add_find_required_names b a)) /\
  Permutation (snd (_add_find_required_names a b))
              (snd (_add_find_required_names b a)).
Proof.
  unfold _add_find_required_names. cbn [fst snd].
  split; apply NoDup_Permutation; try apply dedupe_NoDup;
    intros name; rewrite !dedupe_In, !in_app_iff; tauto.
Qed.

Lemma map_eq_on {A B : Type} (f g : A -> B) (l l' : list A) :
  map f l = map g l -> incl l' l -> map f l' = map g l'.
Proof.
  intros H Hin. apply map_ext_in. intros a Ha.
  apply (proj1 map_ext_in_iff H). now apply Hin.
Qed.

(** C4.  Whenever [a + b] returns a named object [r], [b + a] returns a
    named object too, its permutation to the required names of [a + b]
    succeeds, and the result equals [r] under [==]: the same backend
    entries and the same name lists.  The two additions may list their
    sets of missing names in different orders ([so1], [so2]).  (When
    [a + b] returns, the operands have the same type and the same kind.) *)
Theorem add_commutes_up_to_order (so1 so2 : set_order) (a b r : NQobj) :
  names_ok a -> Qobj_wf (qobj a) -> names_ok b -> Qobj_wf (qobj b) ->
  __add__ so1 a (VNQobj b) = Ok (Some r) ->
  exists s r',
    __add__ so2 b (VNQobj a) = Ok (Some s) /\
    permute s (OrderNamesPair (fst (_add_find_required_names a b))
                              (snd (_add_find_required_names a b))) = Ok r' /\
    __eq__ r' r = Ok true.
Proof.
  intros Ha Haw Hb Hbw H. unfold __add__ in H.
  destruct (qtype_eqb (type (qobj a)) (type (qobj b))) eqn:Ht; [|discriminate].
  destruct (kind_eqb (kind a) (kind b)) eqn:Hk; [|discriminate].
  cbn [negb] in H. rewrite type_is_ket_bra_or_oper in H.
  destruct (required_names_perm a b) as [P0 P1].
  remember (_add_find_required_names a b) as N eqn:EN.
  remember (_add_find_required_names b a) as N' eqn:EN'.
  destruct N as [N0 N1], N' as [N0' N1']. cbn [fst snd] in *.
  bind_split H as da Eda. bind_split H as db Edb.
  bind_split H as a1 Ea1. bind_split H as a2 Ea2.
  bind_split H as b1 Eb1. bind_split H as b2 Eb2.
  bind_split H as R ER. bind_split H as r0 Er. injection H as <-.
  destruct (operand_reorder so1 so2 a b (N0, N1) (N0', N1') da a1 a2
                            Ha Haw Hb P0 P1 Eda Ea1 Ea2)
    as [da' [a1' [a2' [Eda' [Ea1' [Ea2' [Ka [Ka' Aa]]]]]]]].
  destruct (operand_reorder so1 so2 b a (N0, N1) (N0', N1') db b1 b2
                            Hb Hbw Ha P0 P1 Edb Eb1 Eb2)
    as [db' [b1' [b2' [Edb' [Eb1' [Eb2' [Kb [Kb' Ab]]]]]]]].
  destruct Aa as [Na [Na' [[fa0 [fa1 [Da Da']]] [Ra [Ca Ea]]]]].
  destruct Ab as [Nb [Nb' [[fb0 [fb1 [Db Db']]] [Rb [Cb Eb]]]]].
  cbn [fst snd] in *.
  apply Qobj_add_iff in ER. destruct ER as [Ed [Er' [Ec ->]]].
  apply NQobj_init_pair_iff in Er. destruct Er as [-> [D0 [D1 _]]].
  assert (D0' : NoDup N0') by now apply (Permutation_NoDup P0).
  assert (D1' : NoDup N1') by now apply (Permutation_NoDup P1).
  assert (I0 : incl N0 N0') by (intros x; apply (Permutation_in x P0)).
  assert (I1 : incl N1 N1') by (intros x; apply (Permutation_in x P1)).
  assert (I0' : incl N0' N0)
    by (intros x; apply (Permutation_in x (Permutation_sym P0))).
  assert (I1' : incl N1' N1)
    by (intros x; apply (Permutation_in x (Permutation_sym P1))).
  assert (Ed' : dims (qobj b2') = dims (qobj a2')).
  { rewrite Da', Db'. rewrite Da, Db in Ed. injection Ed as E0 E1.
    f_equal; symmetry.
    - now apply (map_eq_on _ _ N0).
    - now apply (map_eq_on _ _ N1). }
  set (S := tidyup (MkQobj (Coo (nrows (data (qobj b2')))
                                (ncols (data (qobj b2')))
                                (trip (data (qobj b2')) ++
                                 trip (data (qobj a2'))))
                           (dims (qobj b2')))).
  assert (ES : Qobj_add (qobj b2') (qobj a2') = Ok S).
  { apply Qobj_add_iff. repeat split; [assumption | lia | lia]. }
  set (s := MkNQobj S (N0', N1') (kind b2')).
  assert (Es : NQobj_init S (NamesPair N0' N1') (KindGiven (kind b2')) = Ok s).
  { apply NQobj_init_pair_iff. split; [reflexivity|].
    unfold S, tidyup. cbn [dims]. rewrite Db'. cbn [fst snd].
    rewrite !length_map. auto. }
  exists s, (permuted s N0 N1). split.
  { unfold __add__. rewrite qtype_eqb_sym, Ht, kind_eqb_sym, Hk. cbn [negb].
    rewrite type_is_ket_bra_or_oper, <- EN'. cbn [fst snd].
    rewrite Edb'. cbn [bind]. rewrite Eda'. cbn [bind].
    rewrite Eb1'. cbn [bind]. rewrite Eb2'. cbn [bind].
    rewrite Ea1'. cbn [bind]. rewrite Ea2'. cbn [bind].
    rewrite ES. cbn [bind]. rewrite Es. reflexivity. }
  split.
  { apply permute_pair_ok; [now apply (NQobj_init_names_ok _ _ _ _ Es)| |];
      assumption. }
  assert (Hdims : dims (qobj (permuted s N0 N1)) = dims (qobj a2)).
  { rewrite permuted_dims. unfold s, S, tidyup. cbn [qobj names dims fst snd].
    rewrite Db'. cbn [fst snd]. rewrite !map_dim_of_map by assumption.
    now rewrite Ed, Db. }
  unfold __eq__, Qobj_eq.
  cbn [qobj names tidyup dims data tidy_coo nrows ncols] in *.
  rewrite Hdims, dims_eqb_refl.
  assert (Hrow : nrows (data (qobj (permuted s N0 N1)))
                 = nrows (data (qobj a2))).
  { rewrite (proj1 (permuted_shape s N0 N1)). unfold s, S, tidyup, tidy_coo.
    cbn [qobj data nrows]. lia. }
  assert (Hcol : ncols (data (qobj (permuted s N0 N1)))
                 = ncols (data (qobj a2))).
  { rewrite (proj2 (permuted_shape s N0 N1)). unfold s, S, tidyup, tidy_coo.
    cbn [qobj data ncols]. lia. }
  rewrite Hrow, Hcol, !Nat.eqb_refl. cbn [andb bind].
  rewrite permuted_names, names_pair_eqb_refl, andb_true_r. f_equal.
  apply coo_eqb_in_shape. rewrite Hrow, Hcol. intros i j Hi Hj.
  unfold tidy_coo. cbn [nrows ncols trip].
  rewrite (entry_permuted_sum b2' a2' s); try reflexivity;
    try (cbn [names s]; congruence); [|cbn [qobj s S tidyup dims]; congruence].
  rewrite Eb, Ea by lia. rewrite entry_of_tidy_app.
  rewrite (entry_trip (data (qobj a2))
                      (Coo (nrows (data (qobj a2))) (ncols (data (qobj a2)))
                           (trip (data (qobj a2)))) i j eq_refl).
  rewrite (entry_trip (data (qobj b2))
                      (Coo (nrows (data (qobj a2))) (ncols (data (qobj a2)))
                           (trip (data (qobj b2)))) i j eq_refl).
  ring.
Qed.

Lemma mode_ok_op_a : mode_ok Examples.op_a.
Proof.
  split; [exact names_ok_op_a|].
  repeat split; try reflexivity.
  repeat (apply Forall_cons; [split; simpl; lia|]). apply Forall_nil.
Qed.

Lemma mode_ok_op_c : mode_ok Examples.op_c.
Proof.
  split.
  - repeat split; repeat constructor; simpl; auto.
  - repeat split; try reflexivity.
    repeat (apply Forall_cons; [split; simpl; lia|]). apply Forall_nil.
Qed.

Lemma add_commutes_up_to_order_witness :
  exists r s r',
    __add__ Examples.insertion_order Examples.op_a (VNQobj Examples.op_c)
      = Ok (Some r) /\
    names r = (["a"%string; "c"%string], ["a"%string; "c"%string]) /\
    __add__ Examples.reverse_order Examples.op_c (VNQobj Examples.op_a)
      = Ok (Some s) /\
    names s = (["c"%string; "a"%string], ["c"%string; "a"%string]) /\
    permute s (OrderNamesPair ["a"%string; "c"%string] ["a"%string; "c"%string])
      = Ok r' /\
    __eq__ r' r = Ok true.
Proof.
  eexists.
  destruct (add_commutes_up_to_order
              Examples.insertion_order Examples.reverse_order
              Examples.op_a Examples.op_c _
              (proj1 mode_ok_op_a) (proj2 mode_ok_op_a)
              (proj1 mode_ok_op_c) (proj2 mode_ok_op_c) eq_refl)
    as [s [r' [H1 [H2 H3]]]].
  exists s, r'. split; [reflexivity|]. split; [reflexivity|].
  split; [exact H1|]. split.
  - vm_compute in H1. injection H1 as <-. reflexivity.
  - split; [exact H2 | exact H3].
Defined.

(** * Further properties of the module *)

(** ** Lists of names *)

Lemma filter_filter_and {A : Type} (f g : A -> bool) (l : list A) :
  filter f (filter g l) = filter (fun y => g y && f y) l.
Proof.
  induction l as [|a l IH]; simpl; [reflexivity|].
  destruct (g a); simpl; [destruct (f a); simpl; now rewrite IH | exact IH].
Qed.

Lemma without_nil (l : list string) : without [] l = l.
Proof. unfold without. apply filter_id. reflexivity. Qed.

Lemma without_self (l : list string) : without l l = [].
Proof.
  unfold without. apply filter_nil_existsb.
  apply not_true_is_false. intros H. apply existsb_exists in H.
  destruct H as [x [Hx H]]. apply negb_true_iff, mem_false in H. auto.
Qed.

Lemma dedupe_app_NoDup (l r : list string) :
  NoDup l -> NoDup r -> dedupe (l ++ r) = l ++ without l r.
Proof.
  intros Hl Hr. induction l as [|x l IH]; simpl.
  - rewrite without_nil. now apply dedupe_id.
  - inversion Hl; subst. rewrite IH by assumption.
    rewrite filter_app. f_equal. f_equal.
    + apply filter_id. intros y Hy. apply negb_true_iff, name_eqb_neq.
      intros ->. contradiction.
    + unfold without. rewrite filter_filter_and. apply filter_ext.
      intros y. simpl. now rewrite negb_orb, andb_comm.
Qed.

Lemma dedupe_twice (l : list string) : NoDup l -> dedupe (l ++ l) = l.
Proof.
  intros H. rewrite dedupe_app_NoDup by assumption.
  rewrite without_self. apply app_nil_r.
Qed.

Lemma enum_nil (so : set_order) : enum so [] = [].
Proof. apply Permutation_nil. apply Permutation_sym. apply (enum_perm so []). Qed.

(** ** The constructor *)

(** X1.  With a pair of name lists and a given kind the constructor
    accepts exactly the pairs that satisfy the name invariant and stores
    them as given; duplicate names are reported before a wrong number of
    names. *)
Theorem init_accepts_valid_names_only (Q : Qobj) (l0 l1 : list string)
        (k : kind_t) :
  (NoDup l0 -> NoDup l1 ->
   length l0 = length (fst (dims Q)) -> length l1 = length (snd (dims Q)) ->
   NQobj_init Q (NamesPair l0 l1) (KindGiven k) = Ok (MkNQobj Q (l0, l1) k)) /\
  (~ (NoDup l0 /\ NoDup l1) ->
   NQobj_init Q (NamesPair l0 l1) (KindGiven k)
   = Raise (ValueError "Do not use duplicate names.")) /\
  (NoDup l0 -> NoDup l1 ->
   ~ (length l0 = length (fst (dims Q)) /\ length l1 = length (snd (dims Q))) ->
   NQobj_init Q (NamesPair l0 l1) (KindGiven k)
   = Raise (ValueError "The number of names must match the shape_dims.")).
Proof.
  unfold NQobj_init, init_names, shape_dims. cbn [fst snd].
  repeat split.
  - intros H0 H1 E0 E1. apply has_dup_NoDup in H0, H1. rewrite H0, H1.
    rewrite E0, E1, !Nat.eqb_refl. reflexivity.
  - intros H. destruct (has_dup l0) eqn:D0; [reflexivity|].
    destruct (has_dup l1) eqn:D1; [reflexivity|].
    exfalso. apply H. split; now apply has_dup_NoDup.
  - intros H0 H1 H. apply has_dup_NoDup in H0, H1. rewrite H0, H1. simpl.
    destruct (length l0 =? length (fst (dims Q))) eqn:E0;
      destruct (length l1 =? length (snd (dims Q))) eqn:E1; simpl;
      try reflexivity.
    exfalso. apply H. split; now apply Nat.eqb_eq.
Qed.

Lemma init_accepts_valid_names_only_witness :
  NQobj_init Examples.eye2 (NamesPair ["a"%string] ["b"%string]) (KindGiven oper)
  = Ok Examples.op_ab /\
  NQobj_init Examples.eye2 (NamesPair ["a"%string; "a"%string] ["b"%string])
             (KindGiven oper)
  = Raise (ValueError "Do not use duplicate names.") /\
  NQobj_init Examples.eye2 (NamesPair ["a"%string; "c"%string] ["b"%string])
             (KindGiven oper)
  = Raise (ValueError "The number of names must match the shape_dims.").
Proof.
  split; [|split].
  - apply (init_accepts_valid_names_only Examples.eye2 ["a"%string] ["b"%string] oper);
      try reflexivity; repeat constructor; simpl; tauto.
  - apply (init_accepts_valid_names_only Examples.eye2 ["a"%string; "a"%string]
                                         ["b"%string] oper).
    intros [H _]. inversion H; subst. apply H2. simpl. auto.
  - apply (init_accepts_valid_names_only Examples.eye2 ["a"%string; "c"%string]
                                         ["b"%string] oper).
    + repeat constructor; simpl; intuition discriminate.
    + repeat constructor; simpl; tauto.
    + simpl. intros [H _]. discriminate.
Defined.

(** ** [copy] *)

(** X2.  [copy] returns exactly when the receiver satisfies the name
    invariant, and then returns an object identical to the receiver. *)
Theorem copy_returns_the_receiver (x y : NQobj) :
  copy x = Ok y <-> y = x /\ names_ok x.
Proof.
  unfold copy. rewrite NQobj_init_pair_iff. unfold names_ok.
  destruct x as [q [n0 n1] k]. simpl. tauto.
Qed.

(** ** Equality *)

Lemma ceqb_sym (a b : cplx) : ceqb a b = ceqb b a.
Proof. unfold ceqb. now rewrite (Z.eqb_sym (re a)), (Z.eqb_sym (im a)). Qed.

Lemma list_nat_eqb_sym (a b : list nat) : list_nat_eqb a b = list_nat_eqb b a.
Proof.
  unfold list_nat_eqb.
  destruct (list_eq_dec Nat.eq_dec a b), (list_eq_dec Nat.eq_dec b a);
    congruence.
Qed.

Lemma names_eqb_sym (a b : list string) : names_eqb a b = names_eqb b a.
Proof.
  unfold names_eqb.
  destruct (list_eq_dec string_dec a b), (list_eq_dec string_dec b a);
    congruence.
Qed.

Lemma forallb_pointwise {A : Type} (f g : A -> bool) (l : list A) :
  (forall x, f x = g x) -> forallb f l = forallb g l.
Proof.
  intros H. induction l as [|a l IH]; simpl; [reflexivity|].
  now rewrite H, IH.
Qed.

Lemma coo_eqb_sym (a b : coo) :
  nrows a = nrows b -> ncols a = ncols b -> coo_eqb a b = coo_eqb b a.
Proof.
  intros Hr Hc. unfold coo_eqb. rewrite Hr, Hc.
  apply forallb_pointwise. intros r. apply forallb_pointwise. intros c.
  apply ceqb_sym.
Qed.

(** X3.  [==] is reflexive and symmetric, and when it answers [True] the
    two objects have the same name lists and the same dimension vectors. *)
Theorem eq_is_reflexive_and_symmetric (a b : NQobj) :
  __eq__ a a = Ok true /\
  __eq__ a b = __eq__ b a /\
  (__eq__ a b = Ok true ->
   names a = names b /\ dims (qobj a) = dims (qobj b)).
Proof.
  unfold __eq__, Qobj_eq. split; [|split; [|intros H; split]].
  - rewrite dims_eqb_refl, !Nat.eqb_refl. simpl.
    rewrite coo_eqb_true by reflexivity. now rewrite names_pair_eqb_refl.
  - unfold dims_eqb, names_pair_eqb.
    rewrite (list_nat_eqb_sym (fst (dims (qobj a)))),
            (list_nat_eqb_sym (snd (dims (qobj a)))),
            (names_eqb_sym (fst (names a))), (names_eqb_sym (snd (names a))),
            (Nat.eqb_sym (nrows (data (qobj a)))),
            (Nat.eqb_sym (ncols (data (qobj a)))).
    destruct (list_nat_eqb _ _ && list_nat_eqb _ _); [|reflexivity].
    destruct (nrows (data (qobj b)) =? nrows (data (qobj a))) eqn:Er;
      [|reflexivity].
    destruct (ncols (data (qobj b)) =? ncols (data (qobj a))) eqn:Ec;
      [|reflexivity].
    apply Nat.eqb_eq in Er, Ec. simpl.
    now rewrite (coo_eqb_sym (data (qobj a)) (data (qobj b))).
  - revert H. destruct (dims_eqb _ _); [|discriminate].
    destruct (_ && _); [|discriminate]. simpl. intros H.
    injection H as H. apply andb_true_iff in H. destruct H as [_ H].
    unfold names_pair_eqb in H. apply andb_true_iff in H. destruct H as [H0 H1].
    apply names_eqb_eq in H0, H1.
    destruct (names a), (names b). simpl in *. congruence.
  - revert H. destruct (dims_eqb _ _) eqn:D; [|discriminate]. intros _.
    now apply dims_eqb_eq.
Qed.

(** ** Entries under the unary backend operations *)

Lemma entry_map_value (f : cplx -> cplx)
      (g : nat * nat * cplx -> nat * nat * cplx) (nr nc nr' nc' : nat)
      (l : list (nat * nat * cplx)) (r c : nat) :
  f c0 = c0 -> (forall a b, f (cadd a b) = cadd (f a) (f b)) ->
  (forall t, g t = (fst (fst t), snd (fst t), f (snd t))) ->
  entry (Coo nr nc (map g l)) r c = f (entry (Coo nr' nc' l) r c).
Proof.
  intros F0 Fadd G. induction l as [|t l IH]; simpl map.
  - rewrite !entry_nil. now rewrite F0.
  - rewrite !entry_cons, IH, Fadd, G. cbn [fst snd].
    destruct ((fst (fst t) =? r) && (snd (fst t) =? c)); now rewrite ?F0.
Qed.

Lemma entry_map_swap (f : cplx -> cplx)
      (g : nat * nat * cplx -> nat * nat * cplx) (nr nc nr' nc' : nat)
      (l : list (nat * nat * cplx)) (r c : nat) :
  f c0 = c0 -> (forall a b, f (cadd a b) = cadd (f a) (f b)) ->
  (forall t, g t = (snd (fst t), fst (fst t), f (snd t))) ->
  entry (Coo nr nc (map g l)) r c = f (entry (Coo nr' nc' l) c r).
Proof.
  intros F0 Fadd G. induction l as [|t l IH]; simpl map.
  - rewrite !entry_nil. now rewrite F0.
  - rewrite !entry_cons, IH, Fadd, G. cbn [fst snd].
    rewrite (andb_comm (snd (fst t) =? r)).
    destruct ((fst (fst t) =? c) && (snd (fst t) =? r)); now rewrite ?F0.
Qed.

Lemma cconj_involutive (v : cplx) : cconj (cconj v) = v.
Proof. destruct v as [a b]. unfold cconj. simpl. now rewrite Z.opp_involutive. Qed.

Lemma cconj_add (a b : cplx) : cconj (cadd a b) = cadd (cconj a) (cconj b).
Proof. unfold cconj, cadd. simpl. f_equal. lia. Qed.

Lemma Qobj_dag_involutive (Q : Qobj) : Qobj_dag (Qobj_dag Q) = Q.
Proof.
  destruct Q as [[nr nc l] [d0 d1]]. unfold Qobj_dag, map_trip. simpl.
  rewrite map_map. f_equal. f_equal.
  rewrite <- (map_id l) at 2. apply map_ext.
  intros [[r c] v]. now rewrite cconj_involutive.
Qed.

Lemma Qobj_trans_involutive (Q : Qobj) : Qobj_trans (Qobj_trans Q) = Q.
Proof.
  destruct Q as [[nr nc l] [d0 d1]]. unfold Qobj_trans, map_trip. simpl.
  rewrite map_map. f_equal. f_equal.
  rewrite <- (map_id l) at 2. apply map_ext.
  now intros [[r c] v].
Qed.

Lemma entry_dag (Q : Qobj) (i j : nat) :
  entry (data (Qobj_dag Q)) i j = cconj (entry (data Q) j i).
Proof.
  destruct Q as [[nr nc l] d]. unfold Qobj_dag, map_trip. cbn [data trip].
  apply entry_map_swap; [reflexivity | apply cconj_add | now intros [[r c] v]].
Qed.

Lemma entry_trans (Q : Qobj) (i j : nat) :
  entry (data (Qobj_trans Q)) i j = entry (data Q) j i.
Proof.
  destruct Q as [[nr nc l] d]. unfold Qobj_trans, map_trip. cbn [data trip].
  apply (entry_map_swap (fun v => v)); [reflexivity | reflexivity |].
  now intros [[r c] v].
Qed.

Lemma entry_neg (Q : Qobj) (i j : nat) :
  entry (data (Qobj_neg Q)) i j = copp (entry (data Q) i j).
Proof.
  destruct Q as [[nr nc l] d]. unfold Qobj_neg, tidyup, map_trip.
  cbn [data trip dims nrows ncols]. rewrite entry_tidy.
  apply (entry_map_value copp).
  - reflexivity.
  - intros a b. unfold copp, cadd; apply cplx_eq; cbn [re im]; ring.
  - now intros [[r c] v].
Qed.

Lemma names_eta (x : NQobj) :
  MkNQobj (qobj x) (fst (names x), snd (names x)) (kind x) = x.
Proof. now destruct x as [q [n0 n1] k]. Qed.

(** ** [dag] and [trans] *)

(** X4.  On an object with the name invariant [dag] returns the object
    whose name lists and dimension vectors are swapped and whose entry at
    (i, j) is the conjugate of the entry at (j, i); the kind is kept, and
    [dag] of the result is the receiver again. *)
Theorem dag_is_an_involution (x : NQobj) :
  names_ok x ->
  exists y,
    dag x = Ok y /\
    names y = (snd (names x), fst (names x)) /\ kind y = kind x /\
    dims (qobj y) = (snd (dims (qobj x)), fst (dims (qobj x))) /\
    (forall i j, entry (data (qobj y)) i j
                 = cconj (entry (data (qobj x)) j i)) /\
    dag y = Ok x.
Proof.
  intros (N0 & N1 & L0 & L1).
  exists (MkNQobj (Qobj_dag (qobj x)) (snd (names x), fst (names x)) (kind x)).
  unfold dag. cbn [qobj names kind fst snd]. repeat split.
  - apply NQobj_init_pair_iff. repeat split; assumption.
  - intros i j. apply entry_dag.
  - rewrite Qobj_dag_involutive. apply NQobj_init_pair_iff.
    repeat split; try assumption. symmetry. apply names_eta.
Qed.

Lemma dag_is_an_involution_witness :
  exists y,
    dag Examples.rect_a = Ok y /\
    dims (qobj y) = ([3], [2]) /\
    entry (data (qobj y)) 2 1 = Cplx 0 (-1) /\
    dag y = Ok Examples.rect_a.
Proof.
  destruct (dag_is_an_involution Examples.rect_a names_ok_rect_a)
    as (y & H & _ & _ & D & E & B).
  exists y. repeat split; try assumption. now rewrite E.
Defined.

(** X5.  [trans] swaps the name lists and the dimension vectors, moves the
    entry at (j, i) to (i, j) without conjugating it, keeps the kind, and
    is undone by a second [trans]. *)
Theorem trans_is_an_involution (x : NQobj) :
  names_ok x ->
  exists y,
    trans x = Ok y /\
    names y = (snd (names x), fst (names x)) /\ kind y = kind x /\
    dims (qobj y) = (snd (dims (qobj x)), fst (dims (qobj x))) /\
    (forall i j, entry (data (qobj y)) i j = entry (data (qobj x)) j i) /\
    trans y = Ok x.
Proof.
  intros (N0 & N1 & L0 & L1).
  exists (MkNQobj (Qobj_trans (qobj x)) (snd (names x), fst (names x)) (kind x)).
  unfold trans. cbn [qobj names kind fst snd]. repeat split.
  - apply NQobj_init_pair_iff. repeat split; assumption.
  - intros i j. apply entry_trans.
  - rewrite Qobj_trans_involutive. apply NQobj_init_pair_iff.
    repeat split; try assumption. symmetry. apply names_eta.
Qed.

Lemma trans_is_an_involution_witness :
  exists y,
    trans Examples.rect_a = Ok y /\
    dims (qobj y) = ([3], [2]) /\
    entry (data (qobj y)) 2 1 = Cplx 0 1 /\
    trans y = Ok Examples.rect_a.
Proof.
  destruct (trans_is_an_involution Examples.rect_a names_ok_rect_a)
    as (y & H & _ & _ & D & E & B).
  exists y. repeat split; try assumption. now rewrite E.
Defined.

(** ** Multiplication by a number and negation *)

(** X6.  For a number [z] and an object with the name invariant, both
    [x * z] and [z * x] return one and the same named object: the
    backend's multiple of the backend object of [x] by [z], under the
    names and the kind of [x], with its dimension vectors. *)
Theorem scalar_multiple_on_either_side (so : set_order) (x : NQobj) (z : cplx) :
  names_ok x ->
  exists r,
    __mul__ so x (VNumber z) = Ok (RetNQobj r) /\
    __rmul__ so x (VNumber z) = Ok (RetNQobj r) /\
    names r = names x /\ kind r = kind x /\
    dims (qobj r) = dims (qobj x) /\
    qobj r = Qobj_scale z (qobj x).
Proof.
  intros (N0 & N1 & L0 & L1).
  exists (MkNQobj (Qobj_scale z (qobj x)) (names x) (kind x)).
  assert (E : NQobj_init (Qobj_scale z (qobj x))
                         (NamesPair (fst (names x)) (snd (names x)))
                         (KindGiven (kind x))
              = Ok (MkNQobj (Qobj_scale z (qobj x)) (names x) (kind x))).
  { apply NQobj_init_pair_iff. repeat split; try assumption.
    now destruct (names x). }
  unfold __rmul__, __mul__. rewrite E. cbn [bind qobj names kind].
  repeat split.
Qed.

Lemma scalar_multiple_on_either_side_witness :
  exists r,
    __mul__ Examples.insertion_order Examples.rect_a (VNumber (Cplx 0 1))
      = Ok (RetNQobj r) /\
    __rmul__ Examples.insertion_order Examples.rect_a (VNumber (Cplx 0 1))
      = Ok (RetNQobj r) /\
    names r = names Examples.rect_a /\
    qobj r = Qobj_scale (Cplx 0 1) (qobj Examples.rect_a).
Proof.
  destruct (scalar_multiple_on_either_side Examples.insertion_order
              Examples.rect_a (Cplx 0 1) names_ok_rect_a)
    as (r & H & H' & N & _ & _ & E).
  exists r. repeat split; assumption.
Defined.

(** X7.  Negation keeps names, kind and dimension vectors, negates every
    entry, and negating twice gives an object equal to the receiver. *)
Theorem neg_negates_entries (x : NQobj) :
  names_ok x ->
  exists r,
    __neg__ x = Ok r /\
    names r = names x /\ kind r = kind x /\
    dims (qobj r) = dims (qobj x) /\
    (forall i j, entry (data (qobj r)) i j = copp (entry (data (qobj x)) i j)) /\
    exists r2, __neg__ r = Ok r2 /\ __eq__ r2 x = Ok true.
Proof.
  intros (N0 & N1 & L0 & L1).
  assert (E : forall q, dims q = dims (qobj x) ->
              NQobj_init q (NamesPair (fst (names x)) (snd (names x)))
                         (KindGiven (kind x))
              = Ok (MkNQobj q (names x) (kind x))).
  { intros q D. apply NQobj_init_pair_iff. rewrite D.
    repeat split; try assumption. now destruct (names x). }
  exists (MkNQobj (Qobj_neg (qobj x)) (names x) (kind x)).
  unfold __neg__. cbn [qobj names kind]. repeat split.
  - now apply E.
  - intros i j. apply entry_neg.
  - exists (MkNQobj (Qobj_neg (Qobj_neg (qobj x))) (names x) (kind x)).
    split; [now apply E|].
    unfold __eq__, Qobj_eq. cbn [qobj names kind].
    assert (D : dims (Qobj_neg (Qobj_neg (qobj x))) = dims (qobj x))
      by reflexivity.
    rewrite D, dims_eqb_refl.
    assert (Sr : nrows (data (Qobj_neg (Qobj_neg (qobj x))))
                 = nrows (data (qobj x))) by reflexivity.
    assert (Sc : ncols (data (Qobj_neg (Qobj_neg (qobj x))))
                 = ncols (data (qobj x))) by reflexivity.
    rewrite Sr, Sc, !Nat.eqb_refl. cbn [andb bind].
    rewrite coo_eqb_true, names_pair_eqb_refl; [reflexivity|].
    intros r c. rewrite !entry_neg.
    unfold copp; apply cplx_eq; cbn [re im]; ring.
Qed.

Lemma neg_negates_entries_witness :
  exists r,
    __neg__ Examples.rect_a = Ok r /\
    entry (data (qobj r)) 1 2 = Cplx 0 (-1) /\
    exists r2, __neg__ r = Ok r2 /\ __eq__ r2 Examples.rect_a = Ok true.
Proof.
  destruct (neg_negates_entries Examples.rect_a names_ok_rect_a)
    as (r & H & _ & _ & _ & E & B).
  exists r. repeat split; try assumption. now rewrite E.
Defined.

(** ** The helpers of [+] and [*] *)

(** X8.  Whatever the listing order of sets, [_find_missing_names] returns
    on each axis a duplicate-free list that holds exactly the required
    names the axis lacks; it is empty when the axis has every required
    name. *)
Theorem find_missing_names_exact (so : set_order)
        (nm required_names : list string * list string) :
  let missing := _find_missing_names so nm required_names in
  NoDup (fst missing) /\ NoDup (snd missing) /\
  (forall x, In x (fst missing) <->
             In x (fst required_names) /\ ~ In x (fst nm)) /\
  (forall x, In x (snd missing) <->
             In x (snd required_names) /\ ~ In x (snd nm)) /\
  (incl (fst required_names) (fst nm) -> fst missing = []) /\
  (incl (snd required_names) (snd nm) -> snd missing = []).
Proof.
  cbv zeta. unfold _find_missing_names. cbn [fst snd].
  assert (E : forall n req, incl req n ->
              enum so (filter (fun x => negb (mem x n)) req) = []).
  { intros n req H.
    replace (filter (fun x => negb (mem x n)) req) with (@nil string);
      [apply enum_nil|].
    symmetry. apply filter_nil_existsb. apply not_true_is_false. intros C.
    apply existsb_exists in C. destruct C as [x [Hx C]].
    apply negb_true_iff, mem_false in C. apply C, H, Hx. }
  split; [apply enum_NoDup|]. split; [apply enum_NoDup|].
  split; [intros x; apply missing_In|]. split; [intros x; apply missing_In|].
  split; apply E.
Qed.

(** X9.  When the other operand has the name invariant,
    [_find_missing_dict] never raises: it returns one entry for each
    distinct missing name, with [None] on every axis where the name is not
    missing, and with [transpose] the same entries with each pair of
    dimensions reversed. *)
Theorem find_missing_dict_entries (so : set_order)
        (missing_names : list string * list string) (Q_other : NQobj) :
  names_ok Q_other ->
  exists d,
    _find_missing_dict so missing_names Q_other false = Ok d /\
    _find_missing_dict so missing_names Q_other true = Ok (map reversed d) /\
    NoDup (map fst d) /\
    (forall x, In x (map fst d) <->
               In x (fst missing_names) \/ In x (snd missing_names)) /\
    (forall name d0 d1, In (name, (d0, d1)) d ->
       (~ In name (fst missing_names) -> d0 = None) /\
       (~ In name (snd missing_names) -> d1 = None)).
Proof.
  intros Hw.
  exists (map (missing_entry (fst missing_names) (snd missing_names)
                             Q_other false)
              (enum so (fst missing_names ++ snd missing_names))).
  rewrite !_find_missing_dict_ok by assumption.
  rewrite !map_map. cbn [missing_entry fst].
  rewrite map_id. repeat split.
  - apply enum_NoDup.
  - intros H. apply enum_In, in_app_or in H. exact H.
  - intros H. apply enum_In, in_or_app. exact H.
  - intros Hn. apply in_map_iff in H. destruct H as [n [E _]].
    unfold missing_entry in E. injection E as E1 E2 E3. subst name.
    apply mem_false in Hn. now rewrite Hn in E2.
  - intros Hn. apply in_map_iff in H. destruct H as [n [E _]].
    unfold missing_entry in E. injection E as E1 E2 E3. subst name.
    apply mem_false in Hn. now rewrite Hn in E3.
Qed.

Lemma find_missing_dict_entries_witness :
  exists d,
    _find_missing_dict Examples.insertion_order (["a"%string], [])
                       Examples.op_ab false = Ok d /\
    d = [("a"%string, (Some 2, None))] /\
    _find_missing_dict Examples.insertion_order (["a"%string], [])
                       Examples.op_ab true = Ok (map reversed d).
Proof.
  destruct (find_missing_dict_entries Examples.insertion_order
              (["a"%string], []) Examples.op_ab)
    as (d & H & H' & _).
  - repeat constructor; simpl; tauto.
  - exists d. repeat split; try assumption.
    vm_compute in H. now injection H as <-.
Defined.

Lemma fillable_state_row_only (name : string) (d1 : option nat) :
  exists e, filler_mode state (name, (None, d1)) = Raise e.
Proof.
  unfold filler_mode. cbn [fst snd].
  destruct d1 as [[|n]|]; simpl; eauto.
  unfold NQobj_init, init_names. simpl. eauto.
Qed.

(** X10.  [_adding_missing_modes] returns only when a filler can be built
    for every entry of the dictionary: for kind [oper] both dimensions
    must be given and equal, for kind [state] the first dimension must be
    given and no given dimension may be zero.  A [state] entry whose first
    dimension is [None] always makes the call raise. *)
Theorem adding_missing_modes_needs_fillers (Q : NQobj)
        (dict_missing_modes : list (string * dims_pair)) (k : kind_t)
        (r : NQobj) :
  _adding_missing_modes Q dict_missing_modes k = Ok r ->
  forall e, In e dict_missing_modes -> fillable k (snd e).
Proof.
  intros H e He. apply adding_modes_inv in H.
  destruct H as (_ & _ & H & _). destruct (H e He) as [f Hf].
  destruct e as [name [d0 d1]]. unfold filler_mode in Hf. cbn [fst snd] in *.
  destruct k; unfold fillable; cbn [fst snd].
  - destruct (option_nat_eqb d0 d1) eqn:E; [|discriminate].
    destruct d0 as [n|]; [|discriminate].
    destruct d1 as [m|]; [|discriminate].
    apply Nat.eqb_eq in E. subst. eauto.
  - destruct d0 as [[|n]|].
    + destruct d1; discriminate.
    + exists n. split; [reflexivity|].
      destruct d1 as [[|m]|]; [discriminate| |]; eauto.
    + exfalso. destruct (fillable_state_row_only name d1) as [ex Hex].
      unfold filler_mode in Hex. cbn [fst snd] in Hex. congruence.
Qed.

Lemma adding_missing_modes_needs_fillers_witness :
  exists r,
    _adding_missing_modes Examples.op_a [("c"%string, (Some 3, Some 3))] oper
      = Ok r /\
    fillable oper (Some 3, Some 3).
Proof.
  eexists. split; [vm_compute; reflexivity|].
  apply (adding_missing_modes_needs_fillers Examples.op_a
           [("c"%string, (Some 3, Some 3))] oper _ eq_refl
           ("c"%string, (Some 3, Some 3))).
  simpl. auto.
Defined.

(** X11.  For operands with the name invariant [_mul_find_required_names]
    never raises, and each of the four lists it returns is the overlap
    list followed by the operand's own names of that axis that the overlap
    lacks, in their own order.  The overlap list is duplicate-free and
    holds exactly the column names of the left operand and the row names of
    the right operand whose dimension is not one. *)
Theorem mul_required_names_start_with_overlap (Q_left Q_right : NQobj) :
  names_ok Q_left -> names_ok Q_right ->
  exists overlap,
    _mul_overlap Q_left Q_right = Ok overlap /\
    NoDup overlap /\
    (forall n, In n overlap <->
               In n (left_names_for_overlap Q_left) \/
               In n (right_names_for_overlap Q_right)) /\
    _mul_find_required_names Q_left Q_right =
      Ok ((overlap ++ without overlap (fst (names Q_left)),
           overlap ++ without overlap (snd (names Q_left))),
          (overlap ++ without overlap (fst (names Q_right)),
           overlap ++ without overlap (snd (names Q_right)))).
Proof.
  intros HL HR.
  assert (E : exists overlap,
             _mul_overlap Q_left Q_right = Ok overlap /\
             NoDup overlap /\
             (forall n, In n overlap <->
                        In n (left_names_for_overlap Q_left) \/
                        In n (right_names_for_overlap Q_right))).
  { unfold _mul_overlap.
    rewrite names_for_overlap_right, names_for_overlap_left by assumption.
    cbn [bind]. eexists. split; [reflexivity|]. split; [apply dedupe_NoDup|].
    intros n. rewrite dedupe_In.
    destruct (kind_eqb (kind Q_right) state && kind_eqb (kind Q_left) oper);
      rewrite in_app_iff; tauto. }
  destruct E as (ov & E & Nov & Hov). exists ov.
  repeat split; try assumption; try apply Hov.
  unfold _mul_find_required_names. rewrite E. cbn [bind].
  destruct HL as (L0 & L1 & _), HR as (R0 & R1 & _).
  now rewrite !dedupe_app_NoDup by assumption.
Qed.

Lemma mul_required_names_start_with_overlap_witness :
  _mul_find_required_names Examples.op_a Examples.ket_b =
    Ok ((["b"; "a"], ["b"; "a"]), (["b"; "a"], ["b"; "a"]))%string.
Proof.
  destruct (mul_required_names_start_with_overlap Examples.op_a Examples.ket_b
              names_ok_op_a names_ok_ket_b) as (ov & E & _ & _ & H).
  vm_compute in E. injection E as <-. exact H.
Defined.

(** X12.  When [a + b] returns a named object, its name lists are, on each
    axis, the names of [a] in their order followed by the names of [b]
    that [a] lacks, and its kind is the kind of [a]. *)
Theorem add_result_names (so : set_order) (a b r : NQobj) :
  names_ok a -> names_ok b ->
  __add__ so a (VNQobj b) = Ok (Some r) ->
  names r = (fst (names a) ++ without (fst (names a)) (fst (names b)),
             snd (names a) ++ without (snd (names a)) (snd (names b))) /\
  kind r = kind a.
Proof.
  intros (A0 & A1 & _) (B0 & B1 & _) H. unfold __add__ in H.
  destruct (negb (qtype_eqb _ _)); [discriminate|].
  destruct (negb (kind_eqb _ _)); [discriminate|].
  destruct (isket (qobj a) || isbra (qobj a) || isoper (qobj a));
    [|discriminate].
  bind_split H as da Eda. bind_split H as db Edb.
  bind_split H as a1 Ea1. bind_split H as a2 Ea2.
  bind_split H as b1 Eb1. bind_split H as b2 Eb2.
  bind_split H as q Eq. bind_split H as r' Er. injection H as <-.
  split.
  - apply NQobj_init_pair in Er. destruct Er as [_ Er]. rewrite Er.
    unfold _add_find_required_names. cbn [fst snd].
    now rewrite !dedupe_app_NoDup by assumption.
  - apply NQobj_init_kind in Er. rewrite Er.
    apply permute_kind in Ea2. apply _adding_missing_modes_kind in Ea1.
    congruence.
Qed.

Lemma add_result_names_witness :
  exists r,
    __add__ Examples.insertion_order Examples.op_a (VNQobj Examples.op_c)
      = Ok (Some r) /\
    names r = (["a"; "c"], ["a"; "c"])%string /\ kind r = oper.
Proof.
  eexists. split; [vm_compute; reflexivity|].
  apply (add_result_names Examples.insertion_order Examples.op_a Examples.op_c).
  - exact names_ok_op_a.
  - repeat constructor; simpl; tauto.
  - vm_compute. reflexivity.
Defined.

(** ** [_dim_of_name] and [rename] *)

Lemma index_of_nth_error (ns : list string) (i : nat) (name : string) :
  NoDup ns -> nth_error ns i = Some name -> index_of name ns = Some i.
Proof.
  intros N H. pose proof (pos_nth_error ns i name N H) as P.
  destruct (index_of_In name ns (nth_error_In _ _ H)) as [j Hj].
  unfold pos in P. rewrite Hj in P. now subst.
Qed.

Lemma dim_opt_None (ns : list string) (ds : list nat) (name : string) :
  length ns = length ds ->
  (dim_opt ns ds name = None <-> ~ In name ns).
Proof.
  intros L. unfold dim_opt. destruct (index_of name ns) as [i|] eqn:E.
  - apply index_of_Some in E. destruct E as [E Hi]. split.
    + intros H. apply nth_error_None in H. lia.
    + intros H. exfalso. apply H. eapply nth_error_In. exact E.
  - apply index_of_None in E. tauto.
Qed.

(** X13.  On an object with the name invariant [_dim_of_name] never
    raises.  On each axis it returns [None] exactly when the axis lacks the
    name, and otherwise the dimension that stands at the position of the
    name. *)
Theorem dim_of_name_total (x : NQobj) (name : string) :
  names_ok x ->
  exists d0 d1,
    _dim_of_name x name = Ok (d0, d1) /\
    (d0 = None <-> ~ In name (fst (names x))) /\
    (d1 = None <-> ~ In name (snd (names x))) /\
    (forall i, nth_error (fst (names x)) i = Some name ->
               d0 = nth_error (fst (dims (qobj x))) i) /\
    (forall i, nth_error (snd (names x)) i = Some name ->
               d1 = nth_error (snd (dims (qobj x))) i).
Proof.
  intros (N0 & N1 & L0 & L1).
  exists (dim_opt (fst (names x)) (fst (dims (qobj x))) name),
         (dim_opt (snd (names x)) (snd (dims (qobj x))) name).
  unfold _dim_of_name. rewrite !dim_on_opt by assumption. cbn [bind].
  split; [reflexivity|].
  split; [now apply dim_opt_None|]. split; [now apply dim_opt_None|].
  split; intros i H; unfold dim_opt;
    now rewrite (index_of_nth_error _ i name) by assumption.
Qed.

Lemma dim_of_name_total_witness :
  _dim_of_name Examples.op_ab23 "b" = Ok (Some 3, Some 3) /\
  _dim_of_name Examples.op_ab "b" = Ok (None, Some 2).
Proof.
  split.
  - destruct (dim_of_name_total Examples.op_ab23 "b" names_ok_op_ab23)
      as (d0 & d1 & H & _).
    vm_compute in H. injection H as <- <-. reflexivity.
  - destruct (dim_of_name_total Examples.op_ab "b") as (d0 & d1 & H & _).
    + repeat constructor; simpl; tauto.
    + vm_compute in H. injection H as <- <-. reflexivity.
Defined.

Lemma set_nth_app (pre post : list string) (x v : string) :
  set_nth (pre ++ x :: post) (length pre) v = pre ++ v :: post.
Proof. induction pre as [|a pre IH]; simpl; [reflexivity | now rewrite IH]. Qed.

Lemma rename_axis_absent (l : list string) (name new_name : string) :
  ~ In name l -> rename_axis l name new_name = l.
Proof.
  intros H. unfold rename_axis. apply index_of_None in H. now rewrite H.
Qed.

Lemma rename_axis_split (l : list string) (name new_name : string) :
  NoDup l -> In name l ->
  exists pre post,
    l = pre ++ name :: post /\ ~ In name pre /\ ~ In name post /\
    rename_axis l name new_name = pre ++ new_name :: post.
Proof.
  intros N H. destruct (in_split _ _ H) as (pre & post & E). subst l.
  exists pre, post. pose proof (NoDup_remove_2 _ _ _ N) as R.
  rewrite in_app_iff in R.
  repeat split; try tauto.
  unfold rename_axis. rewrite index_of_app_NoDup by tauto.
  apply set_nth_app.
Qed.

Lemma rename_axis_back (l : list string) (name new_name : string) :
  NoDup l -> ~ In new_name l ->
  rename_axis (rename_axis l name new_name) new_name name = l.
Proof.
  intros N H. destruct (in_dec string_dec name l) as [I|I].
  - destruct (rename_axis_split l name new_name N I)
      as (pre & post & E & P1 & P2 & R).
    rewrite R. subst l. unfold rename_axis.
    rewrite index_of_app_NoDup.
    + apply set_nth_app.
    + intros C. apply H. apply in_or_app. now left.
  - rewrite (rename_axis_absent l name new_name) by assumption.
    now apply rename_axis_absent.
Qed.

Lemma rename_axis_dim (l : list string) (ds : list nat)
      (name new_name : string) :
  NoDup l -> ~ In new_name l ->
  dim_on (rename_axis l name new_name) ds new_name = dim_on l ds name.
Proof.
  intros N H. unfold dim_on. destruct (in_dec string_dec name l) as [I|I].
  - destruct (rename_axis_split l name new_name N I)
      as (pre & post & E & P1 & P2 & R).
    rewrite R. subst l. rewrite !index_of_app_NoDup; try tauto.
    intros C. apply H. apply in_or_app. now left.
  - rewrite rename_axis_absent by assumption.
    apply index_of_None in H, I. now rewrite H, I.
Qed.

Lemma rename_axis_In (l : list string) (name new_name : string) (y : string) :
  NoDup l ->
  (In y (rename_axis l name new_name) <->
   (In y l /\ y <> name) \/ (y = new_name /\ In name l)).
Proof.
  intros N. destruct (in_dec string_dec name l) as [I|I].
  - destruct (rename_axis_split l name new_name N I)
      as (pre & post & E & P1 & P2 & R).
    rewrite R. subst l. rewrite !in_app_iff. simpl. split.
    + intros [H|[H|H]].
      * left. split; [tauto|]. intros ->. tauto.
      * right. split; [now symmetry | tauto].
      * left. split; [tauto|]. intros ->. tauto.
    + intros [[[H|[H|H]] D]|[H _]]; try tauto.
      * congruence.
      * right. left. now symmetry.
  - rewrite rename_axis_absent by assumption. split.
    + intros H. left. split; [assumption|]. intros ->. tauto.
    + intros [[H _]|[_ H]]; tauto.
Qed.

(** X14.  Renaming a present mode to an unused name succeeds, leaves the
    backend object and the kind alone, gives the new name the pair of
    dimensions the old name had, removes the old name from both axes, and
    is undone by renaming back. *)
Theorem rename_then_back (x : NQobj) (name new_name : string) :
  names_ok x ->
  In name (fst (names x) ++ snd (names x)) ->
  ~ In new_name (fst (names x) ++ snd (names x)) ->
  exists x',
    rename x name new_name = (x', Ok tt) /\
    qobj x' = qobj x /\ kind x' = kind x /\
    _dim_of_name x' new_name = _dim_of_name x name /\
    _dim_of_name x' name = Ok (None, None) /\
    rename x' new_name name = (x, Ok tt).
Proof.
  intros (N0 & N1 & L0 & L1) Hin Hnew.
  assert (Hne : name <> new_name) by (intros ->; contradiction).
  assert (Hnew0 : ~ In new_name (fst (names x)))
    by (intros C; apply Hnew, in_or_app; now left).
  assert (Hnew1 : ~ In new_name (snd (names x)))
    by (intros C; apply Hnew, in_or_app; now right).
  exists (MkNQobj (qobj x)
                  (rename_axis (fst (names x)) name new_name,
                   rename_axis (snd (names x)) name new_name)
                  (kind x)).
  split; [|split; [reflexivity|split; [reflexivity|split; [|split]]]].
  - unfold rename.
    apply name_eqb_neq in Hne. rewrite Hne.
    apply mem_false in Hnew. rewrite Hnew.
    apply mem_In in Hin. now rewrite Hin.
  - unfold _dim_of_name. cbn [qobj names fst snd].
    now rewrite !rename_axis_dim by assumption.
  - unfold _dim_of_name, dim_on. cbn [qobj names fst snd].
    assert (A : forall l, NoDup l -> index_of name (rename_axis l name new_name) = None).
    { intros l N. apply index_of_None. rewrite rename_axis_In by assumption.
      intros [[_ C]|[C _]]; congruence. }
    now rewrite !A by assumption.
  - unfold rename. cbn [qobj names kind fst snd].
    assert (E1 : name_eqb new_name name = false)
      by (apply name_eqb_neq; congruence).
    rewrite E1.
    assert (E2 : mem name (rename_axis (fst (names x)) name new_name ++
                           rename_axis (snd (names x)) name new_name) = false).
    { apply mem_false. rewrite in_app_iff, !rename_axis_In by assumption.
      intros [[[_ C]|[C _]]|[[_ C]|[C _]]]; congruence. }
    rewrite E2.
    assert (E3 : mem new_name (rename_axis (fst (names x)) name new_name ++
                               rename_axis (snd (names x)) name new_name) = true).
    { apply mem_In. rewrite in_app_iff, !rename_axis_In by assumption.
      apply in_app_or in Hin. destruct Hin; [left|right]; right; tauto. }
    rewrite E3. cbn [negb].
    rewrite !rename_axis_back by assumption.
    now rewrite names_eta.
Qed.

Lemma rename_then_back_witness :
  exists x',
    rename Examples.op_ab "b" "c" = (x', Ok tt) /\
    names x' = (["a"], ["c"])%string /\
    _dim_of_name x' "c" = Ok (None, Some 2) /\
    rename x' "c" "b" = (Examples.op_ab, Ok tt).
Proof.
  destruct (rename_then_back Examples.op_ab "b" "c") as (x' & H & _ & _ & D & _ & Bk).
  - repeat constructor; simpl; tauto.
  - simpl. auto.
  - simpl. intuition discriminate.
  - exists x'. vm_compute in H. injection H as <-.
    repeat split; assumption.
Defined.

(** ** [permute] *)

Lemma mapM_py_index_cases (ns p : list string) :
  (exists o, mapM (py_index ns) p = Ok o) \/
  mapM (py_index ns) p = Raise (ValueError "x is not in list").
Proof.
  induction p as [|a p IH]; cbn [mapM]; [eauto|].
  destruct (py_index ns a) as [i|e] eqn:Ea; cbn [bind].
  - destruct IH as [[o E]|E]; rewrite E; cbn [bind]; eauto.
  - right. unfold py_index in Ea. destruct (index_of a ns); congruence.
Qed.

Lemma mapM_py_index_absent (ns p : list string) (n : string) :
  In n p -> ~ In n ns ->
  mapM (py_index ns) p = Raise (ValueError "x is not in list").
Proof.
  intros Hp Hn. destruct (mapM_py_index_cases ns p) as [[o E]|E];
    [|assumption].
  apply mapM_py_index_inv in E. exfalso. apply Hn, E, Hp.
Qed.

(** X15.  An order that names a mode the axis does not have makes
    [permute] raise the [ValueError] of [list.index], whether the order is
    a pair of lists or one list for both axes. *)
Theorem permute_unknown_name_raises (x : NQobj) (p0 p1 : list string)
        (n : string) :
  (In n p0 /\ ~ In n (fst (names x))) \/
  (In n p1 /\ ~ In n (snd (names x))) ->
  permute x (OrderNamesPair p0 p1) = Raise (ValueError "x is not in list") /\
  (p0 = p1 ->
   permute x (OrderNames p0) = Raise (ValueError "x is not in list")).
Proof.
  intros H.
  assert (P : forall A (k : list nat -> list nat -> result A),
             (o0 <- mapM (py_index (fst (names x))) p0 ;;
              o1 <- mapM (py_index (snd (names x))) p1 ;; k o0 o1)
             = Raise (ValueError "x is not in list")).
  { intros A k. destruct H as [[Hp Hn]|[Hp Hn]].
    - now rewrite (mapM_py_index_absent _ _ n Hp Hn).
    - rewrite (mapM_py_index_absent _ _ n Hp Hn).
      destruct (mapM_py_index_cases (fst (names x)) p0) as [[o E]|E];
        now rewrite E.
  }
  split.
  - unfold permute, resolve_order.
    specialize (P idx_order (fun o0 o1 => Ok (Pair o0 o1))).
    cbv beta in P. now rewrite P.
  - intros <-. unfold permute, resolve_order.
    destruct (names_eqb (fst (names x)) (snd (names x))) eqn:E.
    + apply names_eqb_eq in E.
      assert (Hn : In n p0 /\ ~ In n (fst (names x)))
        by (rewrite E; destruct H; [rewrite <- E|]; tauto).
      destruct Hn as [Hp Hn].
      now rewrite (mapM_py_index_absent _ _ n Hp Hn).
    + specialize (P idx_order (fun o0 o1 => Ok (Pair o0 o1))).
      cbv beta in P. now rewrite P.
Qed.

Lemma permute_unknown_name_raises_witness :
  permute Examples.op_ab23 (OrderNamesPair ["b"; "a"] ["a"; "z"])%string
  = Raise (ValueError "x is not in list") /\
  permute Examples.op_ab23 (OrderNames ["z"; "a"])%string
  = Raise (ValueError "x is not in list").
Proof.
  split.
  - apply (permute_unknown_name_raises Examples.op_ab23 ["b"; "a"]%string
                                       ["a"; "z"]%string "z").
    right. simpl. intuition discriminate.
  - apply (permute_unknown_name_raises Examples.op_ab23 ["z"; "a"]%string
                                       ["z"; "a"]%string "z");
      [|reflexivity].
    left. simpl. intuition discriminate.
Defined.

(** X16.  Permuting to a pair of rearrangements of the names returns the
    object with the requested name lists and the kind of the receiver, in
    which each name keeps its dimension and the entry addressed through the
    names is the entry of the receiver: [permute] moves every entry to the
    place its named multi-index has in the new order. *)
Theorem permute_keeps_named_entries (x : NQobj) (p0 p1 : list string) :
  names_ok x -> Qobj_wf (qobj x) ->
  Permutation p0 (fst (names x)) -> Permutation p1 (snd (names x)) ->
  exists y,
    permute x (OrderNamesPair p0 p1) = Ok y /\
    names y = (p0, p1) /\ kind y = kind x /\
    dims (qobj y) = (map (dim_of (fst (names x)) (fst (dims (qobj x)))) p0,
                     map (dim_of (snd (names x)) (snd (dims (qobj x)))) p1) /\
    forall rho0 rho1,
      fits_axis (fst (names x)) (fst (dims (qobj x))) rho0 ->
      fits_axis (snd (names x)) (snd (dims (qobj x))) rho1 ->
      named_entry y rho0 rho1 = named_entry x rho0 rho1.
Proof.
  intros N W P0 P1. exists (permuted x p0 p1).
  split; [now apply permute_pair_ok|].
  split; [apply permuted_names|]. split; [reflexivity|].
  split; [apply permuted_dims|].
  intros rho0 rho1 F0 F1. now apply named_entry_permuted.
Qed.

Lemma permute_keeps_named_entries_witness :
  exists y,
    permute Examples.op_ab23 (OrderNamesPair ["b"; "a"] ["a"; "b"])%string
    = Ok y /\
    dims (qobj y) = ([3; 2], [2; 3]) /\
    named_entry y (fun n => if name_eqb n "a" then 1 else 1)
                  (fun n => if name_eqb n "a" then 1 else 2)
    = Cplx 0 2.
Proof.
  destruct (permute_keeps_named_entries Examples.op_ab23
              ["b"; "a"]%string ["a"; "b"]%string
              names_ok_op_ab23 Qobj_wf_op_ab23) as (y & H & _ & _ & D & E).
  - apply perm_swap.
  - apply Permutation_refl.
  - exists y. split; [assumption|]. split; [assumption|].
    rewrite E; [reflexivity| |].
    + intros n [<-|[<-|[]]]; vm_compute; lia.
    + intros n [<-|[<-|[]]]; vm_compute; lia.
Defined.

Lemma index_map_id (ds : list nat) (idx : nat) :
  idx < prod_dims ds -> index_map ds (seq 0 (length ds)) idx = idx.
Proof.
  intros H. unfold index_map, pick. rewrite map_nth_seq.
  destruct (multi_index_ok ds idx H) as [D F].
  rewrite <- (digits_ok_length _ _ D), map_nth_seq. exact F.
Qed.

Lemma map_fixed {A : Type} (f : A -> A) (l : list A) :
  (forall a, In a l -> f a = a) -> map f l = l.
Proof.
  intros H. rewrite <- (map_id l) at 2. now apply map_ext_in.
Qed.

Lemma permuted_self (x : NQobj) :
  names_ok x -> Qobj_wf (qobj x) ->
  permuted x (fst (names x)) (snd (names x))
  = MkNQobj (tidyup (qobj x)) (names x) (kind x).
Proof.
  intros (N0 & N1 & L0 & L1) (Wr & Wc & Wt). unfold permuted.
  rewrite !positions_self by assumption. rewrite L0, L1.
  unfold pick. rewrite !map_nth_seq.
  rewrite map_fixed.
  - destruct x as [[[nr nc l] [d0 d1]] [n0 n1] k]. reflexivity.
  - intros [[r c] v] Ht. rewrite Forall_forall in Wt.
    destruct (Wt _ Ht) as [Hr Hc]. cbn [fst snd] in Hr, Hc.
    unfold permute_trip. rewrite !index_map_id by congruence. reflexivity.
Qed.

(** X17.  Permuting an object to its own name lists returns an object
    equal to it. *)
Theorem permute_to_own_names (x : NQobj) :
  names_ok x -> Qobj_wf (qobj x) ->
  exists y,
    permute x (OrderNamesPair (fst (names x)) (snd (names x))) = Ok y /\
    __eq__ y x = Ok true.
Proof.
  intros N W. exists (permuted x (fst (names x)) (snd (names x))).
  split.
  - apply permute_pair_ok; [assumption | apply Permutation_refl ..].
  - rewrite permuted_self by assumption. apply eq_tidyup.
Qed.

Lemma permute_to_own_names_witness :
  exists y,
    permute Examples.op_ab23 (OrderNamesPair ["a"; "b"] ["a"; "b"])%string
    = Ok y /\
    __eq__ y Examples.op_ab23 = Ok true.
Proof.
  exact (permute_to_own_names Examples.op_ab23 names_ok_op_ab23 Qobj_wf_op_ab23).
Defined.

(** ** [tensor] *)

Lemma all_kinds_equal_cons (a : NQobj) (rest : list NQobj) :
  all_kinds_equal (kind a) (a :: rest) = all_kinds_equal (kind a) rest.
Proof. unfold all_kinds_equal. simpl. now rewrite kind_eqb_refl. Qed.

(** X18.  [tensor] refuses operands of different kinds with an
    [AttributeError]; operands of one kind that share a name on an axis
    are refused by the constructor with the [ValueError] of duplicate
    names. *)
Theorem tensor_refuses_mixed_kinds_and_shared_names (a : NQobj)
        (rest : list NQobj) :
  (all_kinds_equal (kind a) rest = false ->
   tensor (a :: rest)
   = Raise (AttributeError
              "For tensor product the kind of all NQobj should be the same.")) /\
  (all_kinds_equal (kind a) rest = true ->
   ~ (NoDup (concat (map (fun x => fst (names x)) (a :: rest))) /\
      NoDup (concat (map (fun x => snd (names x)) (a :: rest)))) ->
   tensor (a :: rest) = Raise (ValueError "Do not use duplicate names.")).
Proof.
  unfold tensor, qt_tensor. cbn [map bind]. rewrite all_kinds_equal_cons.
  split; intros K; rewrite K; cbn [negb]; [reflexivity|].
  intros H. unfold NQobj_init, init_names.
  match goal with
  | |- context [has_dup ?l0 || has_dup ?l1] =>
      destruct (has_dup l0) eqn:D0; [reflexivity|];
      destruct (has_dup l1) eqn:D1; [reflexivity|]
  end.
  exfalso. apply H. split; now apply has_dup_NoDup.
Qed.

Lemma tensor_refuses_mixed_kinds_and_shared_names_witness :
  tensor [Examples.op_a; Examples.ket_b]
  = Raise (AttributeError
             "For tensor product the kind of all NQobj should be the same.") /\
  tensor [Examples.op_a; Examples.op_b; Examples.op_a]
  = Raise (ValueError "Do not use duplicate names.").
Proof.
  split.
  - apply (tensor_refuses_mixed_kinds_and_shared_names
             Examples.op_a [Examples.ket_b]). reflexivity.
  - apply (tensor_refuses_mixed_kinds_and_shared_names
             Examples.op_a [Examples.op_b; Examples.op_a]); [reflexivity|].
    intros [H _]. simpl in H. inversion H; subst. apply H2. simpl. auto.
Defined.

Lemma concat_lengths_names_ok (l : list NQobj) :
  Forall names_ok l ->
  length (concat (map (fun a => fst (names a)) l))
  = length (concat (map (fun a => fst (dims (qobj a))) l)) /\
  length (concat (map (fun a => snd (names a)) l))
  = length (concat (map (fun a => snd (dims (qobj a))) l)).
Proof.
  induction 1 as [|a l (_ & _ & L0 & L1) F [IH0 IH1]]; [now split|].
  cbn [map concat]. rewrite !length_app. split; congruence.
Qed.

(** X19.  [tensor] of objects of one kind that have the name invariant and
    no name in common returns the named object of that kind whose name
    lists and dimension vectors are the concatenations of those of the
    operands and whose backend object is the backend's tensor product of
    the backend objects of the operands. *)
Theorem tensor_concatenates_modes (x : NQobj) (modes : list NQobj) :
  names_ok x -> Forall names_ok modes ->
  all_kinds_equal (kind x) modes = true ->
  NoDup (concat (map (fun a => fst (names a)) (x :: modes))) ->
  NoDup (concat (map (fun a => snd (names a)) (x :: modes))) ->
  exists r,
    tensor (x :: modes) = Ok r /\
    names r = (concat (map (fun a => fst (names a)) (x :: modes)),
               concat (map (fun a => snd (names a)) (x :: modes))) /\
    kind r = kind x /\
    dims (qobj r)
    = (concat (map (fun a => fst (dims (qobj a))) (x :: modes)),
       concat (map (fun a => snd (dims (qobj a))) (x :: modes))) /\
    qt_tensor (map qobj (x :: modes)) = Ok (qobj r).
Proof.
  intros Nx Hm K N0 N1. exists (tensored x modes).
  assert (D : dims (qobj (tensored x modes))
              = (concat (map (fun a => fst (dims (qobj a))) (x :: modes)),
                 concat (map (fun a => snd (dims (qobj a))) (x :: modes)))).
  { rewrite tensored_dims. cbn [map concat]. now rewrite !map_map. }
  destruct (concat_lengths_names_ok (x :: modes) (Forall_cons x Nx Hm))
    as [L0 L1].
  split; [|split; [reflexivity|split; [reflexivity|split]]].
  - apply tensor_iff. rewrite D. repeat split; assumption.
  - exact D.
  - reflexivity.
Qed.

Lemma tensor_concatenates_modes_witness :
  exists r,
    tensor [Examples.op_a; Examples.op_c] = Ok r /\
    names r = (["a"; "c"], ["a"; "c"])%string /\
    dims (qobj r) = ([2; 3], [2; 3]) /\
    qt_tensor [qobj Examples.op_a; qobj Examples.op_c] = Ok (qobj r).
Proof.
  destruct (tensor_concatenates_modes Examples.op_a [Examples.op_c])
    as (r & H & N & _ & D & T).
  - exact names_ok_op_a.
  - constructor; [exact (proj1 mode_ok_op_c) | constructor].
  - reflexivity.
  - simpl. repeat constructor; simpl; intuition discriminate.
  - simpl. repeat constructor; simpl; intuition discriminate.
  - exists r. repeat split; assumption.
Defined.

(** ** Operands that already have the required names *)

Lemma missing_none (so : set_order) (nm : list string * list string) :
  _find_missing_names so nm nm = ([], []).
Proof.
  unfold _find_missing_names.
  assert (E : forall n, filter (fun x => negb (mem x n)) n = [])
    by (intros n; apply (without_self n)).
  now rewrite !E, enum_nil.
Qed.

Lemma missing_dict_none (so : set_order) (w : NQobj) (t : bool) :
  _find_missing_dict so ([], []) w t = Ok [].
Proof. unfold _find_missing_dict. cbn [fst snd app]. now rewrite enum_nil. Qed.

Lemma adding_no_modes (x : NQobj) (k : kind_t) :
  names_ok x ->
  _adding_missing_modes x [] k
  = Ok (MkNQobj (tidyup (qobj x)) (names x) (kind x)).
Proof.
  intros (N0 & N1 & L0 & L1). unfold _adding_missing_modes. cbn [mapM bind].
  apply tensor_iff. unfold tensored. cbn [map concat fold_left names qobj fst snd].
  rewrite !app_nil_r. repeat split; try assumption.
  now destruct (names x).
Qed.

Lemma names_ok_tidied (x : NQobj) :
  names_ok x -> names_ok (MkNQobj (tidyup (qobj x)) (names x) (kind x)).
Proof. intros H. exact H. Qed.

Lemma permute_tidied (x : NQobj) :
  names_ok x -> Qobj_wf (qobj x) ->
  permute (MkNQobj (tidyup (qobj x)) (names x) (kind x))
          (OrderNamesPair (fst (names x)) (snd (names x)))
  = Ok (MkNQobj (tidyup (tidyup (qobj x))) (names x) (kind x)).
Proof.
  intros N W.
  pose proof (permute_pair_ok (MkNQobj (tidyup (qobj x)) (names x) (kind x))
                              (fst (names x)) (snd (names x))
                              (names_ok_tidied x N)
                              (Permutation_refl _) (Permutation_refl _)) as P.
  cbn [names] in P. rewrite P. f_equal.
  apply (permuted_self (MkNQobj (tidyup (qobj x)) (names x) (kind x))).
  - exact N.
  - apply tidyup_wf. exact W.
Qed.

Lemma qtype_eqb_refl (t : qtype) : qtype_eqb t t = true.
Proof. now destruct t. Qed.

Lemma tidyup_idem (Q : Qobj) : tidyup (tidyup Q) = tidyup Q.
Proof.
  unfold tidyup, tidy_coo. cbn [data dims nrows ncols trip].
  now rewrite filter_idem.
Qed.

(** ** Addition of objects with the same names *)

Lemma add_same_names (so : set_order) (a b : NQobj) :
  names_ok a -> Qobj_wf (qobj a) -> Qobj_wf (qobj b) ->
  names b = names a -> dims (qobj b) = dims (qobj a) -> kind b = kind a ->
  exists R,
    Qobj_add (tidyup (qobj a)) (tidyup (qobj b)) = Ok R /\
    dims R = dims (qobj a) /\
    __add__ so a (VNQobj b) = Ok (Some (MkNQobj R (names a) (kind a))).
Proof.
  intros Na Wa Wb En Ed Ek.
  assert (Nb : names_ok b).
  { unfold names_ok in *. now rewrite En, Ed. }
  pose (R := tidyup (MkQobj (Coo (nrows (data (tidyup (qobj a))))
                                 (ncols (data (tidyup (qobj a))))
                                 (trip (data (tidyup (qobj a))) ++
                                  trip (data (tidyup (qobj b)))))
                            (dims (tidyup (qobj a))))).
  assert (A : Qobj_add (tidyup (qobj a)) (tidyup (qobj b)) = Ok R).
  { apply Qobj_add_iff.
    destruct Wa as (Ar & Ac & _), Wb as (Br & Bc & _).
    repeat split; try reflexivity;
      unfold tidyup, tidy_coo; cbn [data dims nrows ncols]; congruence. }
  exists R. split; [exact A|]. split; [reflexivity|].
  unfold __add__.
  assert (Ty : type (qobj a) = type (qobj b)) by (unfold type; now rewrite Ed).
  rewrite Ty, qtype_eqb_refl, Ek, kind_eqb_refl. cbn [negb].
  rewrite <- Ek. rewrite type_is_ket_bra_or_oper.
  assert (Req : _add_find_required_names a b = names a).
  { unfold _add_find_required_names. rewrite En.
    destruct Na as (N0 & N1 & _).
    rewrite !dedupe_twice by assumption. now destruct (names a). }
  rewrite Req, En, !missing_none, !missing_dict_none. cbn [bind].
  rewrite adding_no_modes by assumption. cbn [bind].
  rewrite permute_tidied by assumption. cbn [bind].
  rewrite adding_no_modes by assumption. cbn [bind].
  pose proof (permute_tidied b Nb Wb) as Pb. rewrite En in Pb.
  rewrite En, Pb. cbn [bind qobj]. rewrite !tidyup_idem, A. cbn [bind kind].
  rewrite Ek.
  assert (I : NQobj_init R (NamesPair (fst (names a)) (snd (names a)))
                         (KindGiven (kind a))
              = Ok (MkNQobj R (names a) (kind a))).
  { apply NQobj_init_pair_iff. destruct Na as (N0 & N1 & L0 & L1).
    repeat split; try assumption. now destruct (names a). }
  now rewrite I.
Qed.

(** X20.  For two well-formed objects of one kind with the same name
    lists and the same dimension vectors, [a + b] needs no filler and no
    reordering: it returns the named object with those names, kind and
    dimension vectors whose backend object is the backend's sum of the
    two backend objects, each tidied up. *)
Theorem add_same_names_is_backend_sum (so : set_order) (a b : NQobj) :
  names_ok a -> Qobj_wf (qobj a) -> Qobj_wf (qobj b) ->
  names b = names a -> dims (qobj b) = dims (qobj a) -> kind b = kind a ->
  exists r,
    __add__ so a (VNQobj b) = Ok (Some r) /\
    names r = names a /\ kind r = kind a /\
    dims (qobj r) = dims (qobj a) /\
    Qobj_add (tidyup (qobj a)) (tidyup (qobj b)) = Ok (qobj r).
Proof.
  intros Na Wa Wb En Ed Ek.
  destruct (add_same_names so a b Na Wa Wb En Ed Ek) as (R & A & D & H).
  exists (MkNQobj R (names a) (kind a)). repeat split; assumption.
Qed.

Lemma add_same_names_is_backend_sum_witness :
  exists r,
    __add__ Examples.reverse_order Examples.op_ab23 (VNQobj Examples.op_ab23)
      = Ok (Some r) /\
    names r = names Examples.op_ab23 /\
    Qobj_add (tidyup (qobj Examples.op_ab23)) (tidyup (qobj Examples.op_ab23))
    = Ok (qobj r).
Proof.
  destruct (add_same_names_is_backend_sum Examples.reverse_order
              Examples.op_ab23 Examples.op_ab23
              names_ok_op_ab23 Qobj_wf_op_ab23 Qobj_wf_op_ab23
              eq_refl eq_refl eq_refl) as (r & H & N & _ & _ & E).
  exists r. repeat split; assumption.
Defined.

(** ** [ptrace] and the functions that trace modes out *)

Lemma select_by_position (f : nat -> bool) (g : string -> bool)
      (t : list string) (k : nat) :
  (forall i n, nth_error t i = Some n -> f (k + i) = g n) ->
  map snd (filter (fun p => f (fst p)) (combine (seq k (length t)) t))
  = filter g t.
Proof.
  revert k. induction t as [|a t IH]; intros k H; simpl; [reflexivity|].
  rewrite <- (H 0 a eq_refl), Nat.add_0_r.
  assert (R : map snd (filter (fun p => f (fst p))
                              (combine (seq (S k) (length t)) t))
              = filter g t).
  { apply IH. intros i n Hn. rewrite <- (H (S i) n Hn). f_equal. lia. }
  destruct (f k); simpl; now rewrite R.
Qed.

Lemma position_selected (ns l : list string) (i : nat) (n : string) :
  NoDup ns -> incl l ns -> nth_error ns i = Some n ->
  existsb (Nat.eqb i) (map (pos ns) l) = mem n l.
Proof.
  intros N I H. apply eq_iff_eq_true. rewrite existsb_exists, mem_In. split.
  - intros [j [Hj E]]. apply Nat.eqb_eq in E. subst j.
    apply in_map_iff in Hj. destruct Hj as [m [Hm Il]].
    destruct (pos_In ns m (I m Il)) as [_ P]. rewrite Hm in P. congruence.
  - intros Il. exists i. split; [|apply Nat.eqb_refl].
    apply in_map_iff. exists n. split; [|assumption].
    now apply pos_nth_error.
Qed.

Lemma filter_mem_filter (h : string -> bool) (ns : list string) :
  filter (fun n => mem n (filter h ns)) ns = filter h ns.
Proof.
  apply filter_ext_in. intros n Hn. apply eq_iff_eq_true.
  rewrite mem_In, filter_In. tauto.
Qed.

Lemma map_filter_commute {A B : Type} (h : A -> B) (f : B -> bool)
      (g : A -> bool) (l : list A) :
  (forall x, In x l -> f (h x) = g x) ->
  map h (filter g l) = filter f (map h l).
Proof.
  induction l as [|a l IH]; intros H; simpl; [reflexivity|].
  rewrite (H a) by (now left).
  destruct (g a); simpl; rewrite IH; auto; intros x Hx; apply H; now right.
Qed.

Section PartialTrace.

Context {B : Backend}.

Lemma ptrace_by_names (x : NQobj) (sel : list string) :
  NoDup (fst (names x)) -> incl sel (fst (names x)) ->
  ptrace x (SelNames sel) true =
    (q <- qt_ptrace (qobj x) (map (pos (fst (names x))) sel) ;;
     NQobj_init q
                (NamesPair (filter (fun n => mem n sel) (fst (names x)))
                           (filter (fun n => mem n sel) (fst (names x))))
                (KindGiven (kind x))).
Proof.
  intros N I. unfold ptrace. rewrite mapM_py_index by exact I. cbn [bind].
  rewrite (select_by_position
             (fun i => existsb (Nat.eqb i) (map (pos (fst (names x))) sel))
             (fun n => mem n sel)); [reflexivity|].
  intros i n H. now apply position_selected.
Qed.

Lemma ptrace_discard (x : NQobj) (sel : list string) :
  NoDup (fst (names x)) ->
  length (fst (names x)) = length (fst (dims (qobj x))) ->
  incl sel (fst (names x)) ->
  ptrace x (SelNames sel) false
  = ptrace x (SelNames (without sel (fst (names x)))) true.
Proof.
  intros N L I. unfold ptrace.
  rewrite !mapM_py_index;
    [|intros n Hn; apply filter_In in Hn; tauto | exact I].
  cbn [bind]. unfold shape_dims. cbn [fst]. rewrite <- L.
  assert (E : filter (fun i => negb (existsb (Nat.eqb i)
                                             (map (pos (fst (names x))) sel)))
                     (seq 0 (length (fst (names x))))
              = map (pos (fst (names x))) (without sel (fst (names x)))).
  { rewrite <- (positions_self (fst (names x)) N) at 1.
    symmetry. apply map_filter_commute. intros n Hn.
    destruct (pos_In _ _ Hn) as [_ P].
    now rewrite (position_selected _ sel _ n N I P). }
  now rewrite E.
Qed.

(** X21.  [ptrace] with a selection of names: a name that the row axis
    lacks raises the [ValueError] of [list.index]; otherwise the backend
    traces out at the positions of the selected names, in the order of the
    selection, and the result is named, on both axes, by the selected row
    names in the order of the row axis. *)
Theorem ptrace_names_follow_the_axis (x : NQobj) (sel : list string) :
  NoDup (fst (names x)) ->
  (forall n keep, In n sel -> ~ In n (fst (names x)) ->
     ptrace x (SelNames sel) keep = Raise (ValueError "x is not in list")) /\
  (incl sel (fst (names x)) ->
   ptrace x (SelNames sel) true =
     (q <- qt_ptrace (qobj x) (map (pos (fst (names x))) sel) ;;
      NQobj_init q
                 (NamesPair (filter (fun n => mem n sel) (fst (names x)))
                            (filter (fun n => mem n sel) (fst (names x))))
                 (KindGiven (kind x)))).
Proof.
  intros N. split.
  - intros n keep Hs Hn. unfold ptrace.
    now rewrite (mapM_py_index_absent _ _ n Hs Hn).
  - now apply ptrace_by_names.
Qed.

(** X22.  On an object with the name invariant, discarding a selection of
    names is the same call as keeping the remaining row names, listed in
    the order of the row axis. *)
Theorem ptrace_discard_is_keep_of_the_rest (x : NQobj) (sel : list string) :
  names_ok x -> incl sel (fst (names x)) ->
  ptrace x (SelNames sel) false
  = ptrace x (SelNames (without sel (fst (names x)))) true.
Proof.
  intros (N0 & _ & L0 & _) I. now apply ptrace_discard.
Qed.

(** X23.  [trace_out_loss_modes] returns the object itself when no row
    name contains [loss]; otherwise the backend traces out at the
    positions of the remaining row names and the result is named by
    those, in their order, on both axes. *)
Theorem trace_out_loss_modes_keeps_the_rest (x : NQobj) :
  names_ok x ->
  (filter (contains "loss") (fst (names x)) = [] ->
   trace_out_loss_modes x = Ok x) /\
  (filter (contains "loss") (fst (names x)) <> [] ->
   trace_out_loss_modes x =
     (q <- qt_ptrace (qobj x)
                     (map (pos (fst (names x)))
                          (filter (fun n => negb (contains "loss" n))
                                  (fst (names x)))) ;;
      NQobj_init q
        (NamesPair (filter (fun n => negb (contains "loss" n)) (fst (names x)))
                   (filter (fun n => negb (contains "loss" n)) (fst (names x))))
        (KindGiven (kind x)))).
Proof.
  intros (N0 & _ & L0 & _). unfold trace_out_loss_modes. split; intros H.
  - now rewrite H.
  - destruct (filter (contains "loss") (fst (names x))) as [|a l] eqn:E;
      [contradiction|]. cbn [length Nat.eqb negb]. rewrite <- E.
    rewrite ptrace_discard; try assumption;
      [|intros n Hn; apply filter_In in Hn; tauto].
    assert (K : without (filter (contains "loss") (fst (names x)))
                        (fst (names x))
                = filter (fun n => negb (contains "loss" n)) (fst (names x))).
    { unfold without. apply filter_ext_in. intros n Hn. f_equal.
      apply eq_iff_eq_true. rewrite mem_In, filter_In. tauto. }
    rewrite K, ptrace_by_names; try assumption;
      [|intros n Hn; apply filter_In in Hn; tauto].
    now rewrite filter_mem_filter.
Qed.

(** X24.  [trace_out_everything_but_spins] has the backend trace out at
    the positions of the row names that are classic spin names and names
    the result by them, in the order of the row axis, on both axes.  When
    no row name is a classic spin name the backend receives the empty
    selection, and an error it raises for that is the error of the
    call. *)
Theorem trace_out_everything_but_spins_keeps_spins (x : NQobj) :
  NoDup (fst (names x)) ->
  trace_out_everything_but_spins x =
    (q <- qt_ptrace (qobj x)
                    (map (pos (fst (names x)))
                         (filter (fun n => mem n classic_spin_names)
                                 (fst (names x)))) ;;
     NQobj_init q
       (NamesPair (filter (fun n => mem n classic_spin_names) (fst (names x)))
                  (filter (fun n => mem n classic_spin_names) (fst (names x))))
       (KindGiven (kind x))) /\
  (filter (fun n => mem n classic_spin_names) (fst (names x)) = [] ->
   forall e, qt_ptrace (qobj x) [] = Raise e ->
             trace_out_everything_but_spins x = Raise e).
Proof.
  intros N.
  assert (E0 : trace_out_everything_but_spins x =
    (q <- qt_ptrace (qobj x)
                    (map (pos (fst (names x)))
                         (filter (fun n => mem n classic_spin_names)
                                 (fst (names x)))) ;;
     NQobj_init q
       (NamesPair (filter (fun n => mem n classic_spin_names) (fst (names x)))
                  (filter (fun n => mem n classic_spin_names) (fst (names x))))
       (KindGiven (kind x)))).
  { unfold trace_out_everything_but_spins.
    destruct (filter (fun n => mem n classic_spin_names) (fst (names x)))
      as [|a l] eqn:E.
    - unfold ptrace. cbn [bind map existsb].
      replace (filter (fun p : nat * string => false)
                      (combine (seq 0 (length (fst (names x)))) (fst (names x))))
        with (@nil (nat * string)); [reflexivity|].
      symmetry. apply filter_nil_existsb.
      induction (combine _ _); simpl; auto.
    - rewrite <- E. rewrite ptrace_by_names; try assumption;
        [|intros n Hn; apply filter_In in Hn; tauto].
      now rewrite filter_mem_filter. }
  split; [exact E0|].
  intros Hnone e He. rewrite E0, Hnone. cbn [map]. now rewrite He.
Qed.

End PartialTrace.

Lemma ptrace_names_follow_the_axis_witness :
  @ptrace exact_backend Examples.op_ab23 (SelNames ["b"; "z"]%string) false
  = Raise (ValueError "x is not in list") /\
  exists r,
    @ptrace exact_backend Examples.op_ab23 (SelNames ["b"; "a"]%string) true
    = Ok r /\
    names r = (["a"; "b"], ["a"; "b"])%string.
Proof.
  destruct (@ptrace_names_follow_the_axis exact_backend Examples.op_ab23
              ["b"; "z"]%string) as [H _].
  { repeat constructor; simpl; intuition discriminate. }
  split.
  - apply (H "z"%string); simpl; intuition discriminate.
  - destruct (@ptrace_names_follow_the_axis exact_backend Examples.op_ab23
                ["b"; "a"]%string) as [_ K].
    { repeat constructor; simpl; intuition discriminate. }
    rewrite K; [|intros n [<-|[<-|[]]]; simpl; auto].
    vm_compute. eexists. split; reflexivity.
Defined.

Lemma ptrace_discard_is_keep_of_the_rest_witness :
  @ptrace exact_backend Examples.op_ab23 (SelNames ["a"]%string) false
  = @ptrace exact_backend Examples.op_ab23 (SelNames ["b"]%string) true /\
  exists r,
    @ptrace exact_backend Examples.op_ab23 (SelNames ["a"]%string) false = Ok r /\
    names r = (["b"], ["b"])%string.
Proof.
  split.
  - apply (@ptrace_discard_is_keep_of_the_rest exact_backend Examples.op_ab23
             ["a"]%string names_ok_op_ab23).
    intros n [<-|[]]. simpl. auto.
  - vm_compute. eexists. split; reflexivity.
Defined.

Lemma names_ok_alice_loss : names_ok Network.alice_loss.
Proof.
  repeat split; try reflexivity;
    repeat constructor; simpl; intuition discriminate.
Qed.

Lemma trace_out_loss_modes_keeps_the_rest_witness :
  @trace_out_loss_modes exact_backend Examples.op_ab23 = Ok Examples.op_ab23 /\
  exists r,
    @trace_out_loss_modes exact_backend Network.alice_loss = Ok r /\
    names r = (["Alice"], ["Alice"])%string /\
    dims (qobj r) = ([2], [2]).
Proof.
  split.
  - apply (@trace_out_loss_modes_keeps_the_rest exact_backend Examples.op_ab23
             names_ok_op_ab23). reflexivity.
  - destruct (@trace_out_loss_modes_keeps_the_rest exact_backend
                Network.alice_loss names_ok_alice_loss) as [_ H].
    rewrite H; [|discriminate].
    vm_compute. eexists. repeat split; reflexivity.
Defined.

Lemma trace_out_everything_but_spins_keeps_spins_witness :
  (exists r,
     @trace_out_everything_but_spins exact_backend Network.alice_loss = Ok r /\
     names r = (["Alice"], ["Alice"])%string /\
     dims (qobj r) = ([2], [2])) /\
  @trace_out_everything_but_spins exact_backend Examples.op_ab23
  = Raise (IndexError "Invalid selection index in ptrace.").
Proof.
  split.
  - rewrite (proj1 (@trace_out_everything_but_spins_keeps_spins exact_backend
                      Network.alice_loss ltac:(repeat constructor; simpl;
                                               intuition discriminate))).
    vm_compute. eexists. repeat split; reflexivity.
  - apply (proj2 (@trace_out_everything_but_spins_keeps_spins exact_backend
                    Examples.op_ab23 ltac:(repeat constructor; simpl;
                                           intuition discriminate)));
      reflexivity.
Defined.

(** ** [fidelity] *)

Lemma same_set_iff (a b : list string) :
  same_set a b = true -> forall x, In x a <-> In x b.
Proof.
  unfold same_set. intros H x. apply andb_true_iff in H. destruct H as [H1 H2].
  rewrite forallb_forall in H1, H2. split; intros I.
  - apply mem_In. now apply H1.
  - apply mem_In. now apply H2.
Qed.

Section FidelityProperties.

Variable F : Type.
Variable qt_fidelity : NQobj -> NQobj -> result F.

(** X25.  [fidelity] refuses, with a [TypeError], an operand whose row
    names and column names differ as sets, and then operands whose row
    names differ as sets.  Otherwise, for operands with the name invariant,
    the permutation of the second operand never raises and the backend
    receives the first operand and the second one carrying the name lists
    of the first. *)
Theorem fidelity_aligns_second_operand (A B : NQobj) :
  names_ok A -> names_ok B ->
  (same_set (fst (names A)) (snd (names A)) = false \/
   same_set (fst (names B)) (snd (names B)) = false ->
   fidelity qt_fidelity A B
   = Raise (TypeError "Names of colums and rows need to be the same.")) /\
  (same_set (fst (names A)) (snd (names A)) = true ->
   same_set (fst (names B)) (snd (names B)) = true ->
   same_set (fst (names A)) (fst (names B)) = false ->
   fidelity qt_fidelity A B
   = Raise (TypeError "fidelity needs both objects to have the same names.")) /\
  (same_set (fst (names A)) (snd (names A)) = true ->
   same_set (fst (names B)) (snd (names B)) = true ->
   same_set (fst (names A)) (fst (names B)) = true ->
   exists B',
     permute B (OrderNamesPair (fst (names A)) (snd (names A))) = Ok B' /\
     names B' = names A /\ kind B' = kind B /\
     fidelity qt_fidelity A B = qt_fidelity A B').
Proof.
  intros (A0 & A1 & _) NB. unfold fidelity.
  rewrite !type_is_ket_bra_or_oper. cbn [andb negb].
  split; [|split].
  - intros [H|H]; rewrite H; cbn [negb orb]; [reflexivity|].
    now destruct (negb (same_set (fst (names A)) (snd (names A)))).
  - intros H1 H2 H3. now rewrite H1, H2, H3.
  - intros H1 H2 H3. rewrite H1, H2, H3. cbn [negb orb].
    pose proof (same_set_iff _ _ H1) as S1.
    pose proof (same_set_iff _ _ H2) as S2.
    pose proof (same_set_iff _ _ H3) as S3.
    destruct NB as (B0 & B1 & LB0 & LB1).
    assert (P0 : Permutation (fst (names A)) (fst (names B)))
      by (apply NoDup_Permutation; assumption).
    assert (P1 : Permutation (snd (names A)) (snd (names B))).
    { apply NoDup_Permutation; try assumption.
      intros x. rewrite <- S1, <- S2. apply S3. }
    exists (permuted B (fst (names A)) (snd (names A))).
    rewrite permute_pair_ok; [|repeat split; assumption | assumption ..].
    cbn [bind]. repeat split.
    rewrite permuted_names. now destruct (names A).
Qed.

End FidelityProperties.

Lemma fidelity_aligns_second_operand_witness :
  fidelity (fun _ b => Ok (names b)) Examples.op_a Examples.op_c
  = Raise (TypeError "fidelity needs both objects to have the same names.") /\
  fidelity (fun _ b => Ok (names b)) Examples.op_ab Examples.op_ab
  = Raise (TypeError "Names of colums and rows need to be the same.") /\
  fidelity (fun _ b => Ok (names b))
           (MkNQobj (qobj Network.alice_loss)
                    (["Bob"; "loss_1"], ["Bob"; "loss_1"])%string oper)
           Network.bob_loss
  = Ok (["Bob"; "loss_1"], ["Bob"; "loss_1"])%string.
Proof.
  split; [|split].
  - apply (fidelity_aligns_second_operand _ (fun _ b => Ok (names b))
             Examples.op_a Examples.op_c
             names_ok_op_a (proj1 mode_ok_op_c)); reflexivity.
  - apply (fidelity_aligns_second_operand _ (fun _ b => Ok (names b))
             Examples.op_ab Examples.op_ab).
    + repeat constructor; simpl; tauto.
    + repeat constructor; simpl; tauto.
    + left. reflexivity.
  - destruct (fidelity_aligns_second_operand _ (fun _ b => Ok (names b))
                (MkNQobj (qobj Network.alice_loss)
                         (["Bob"; "loss_1"], ["Bob"; "loss_1"])%string oper)
                Network.bob_loss) as (_ & _ & H).
    + repeat split; try reflexivity;
        repeat constructor; simpl; intuition discriminate.
    + repeat split; try reflexivity;
        repeat constructor; simpl; intuition discriminate.
    + destruct (H eq_refl eq_refl eq_refl) as (B' & _ & N & _ & E).
      rewrite E. now rewrite N.
Defined.

(** ** The kind the constructor infers *)

Ltac bool_cases :=
  repeat match goal with
         | |- context [?a =? ?b] => destruct (Nat.eqb_spec a b)
         | |- context [?a <=? ?b] => destruct (Nat.leb_spec a b)
         | |- context [?a <? ?b] => destruct (Nat.ltb_spec a b)
         end.

Lemma entry_diag (nr nc k m r c : nat) :
  entry (Coo nr nc (map (fun i => (i, i, c1)) (seq k m))) r c
  = if (r =? c) && (k <=? r) && (r <? k + m) then c1 else c0.
Proof.
  revert k. induction m as [|m IH]; intros k.
  - rewrite entry_nil. bool_cases; simpl; try reflexivity; lia.
  - cbn [seq map]. rewrite entry_cons, IH. cbn [fst snd].
    bool_cases; simpl; try reflexivity; lia.
Qed.

Lemma entry_eye (n r c : nat) (Q : Qobj) :
  qeye (Some n) = Ok Q ->
  entry (data Q) r c = if (r =? c) && (r <? n) then c1 else c0.
Proof.
  intros H. injection H as <-. cbn [data]. rewrite entry_diag.
  bool_cases; simpl; try reflexivity; lia.
Qed.

Lemma isherm_eye (n : nat) (Q : Qobj) : qeye (Some n) = Ok Q -> isherm Q = true.
Proof.
  intros H. unfold isherm.
  assert (S : nrows (data Q) = ncols (data Q)) by (injection H as <-; reflexivity).
  rewrite S, Nat.eqb_refl. cbn [andb].
  apply forallb_forall. intros r _. apply forallb_forall. intros c _.
  apply ceqb_eq. rewrite !(entry_eye n _ _ Q H).
  bool_cases; simpl; try reflexivity; lia.
Qed.

(** X26.  When no kind is given, the constructor gives a basis ket and
    its bra the kind [state], and refuses the identity on a mode of
    dimension two or more, whose kind it cannot tell; with the kind given
    the identity is accepted. *)
Theorem kind_inference_on_identity_and_basis (n : nat) (s : string) :
  2 <= n ->
  exists q b,
    qeye (Some n) = Ok q /\ basis (Some n) = Ok b /\
    NQobj_init q (NamesStr s) KindNone
    = Raise (ValueError
        "The kind cannot be determined automatically and should be provedid as kw") /\
    NQobj_init q (NamesStr s) (KindGiven oper) = Ok (MkNQobj q ([s], [s]) oper) /\
    NQobj_init b (NamesStr s) KindNone = Ok (MkNQobj b ([s], [s]) state) /\
    NQobj_init (Qobj_dag b) (NamesStr s) KindNone
    = Ok (MkNQobj (Qobj_dag b) ([s], [s]) state).
Proof.
  intros Hn. destruct n as [|[|n]]; try lia.
  eexists. eexists. split; [reflexivity|]. split; [reflexivity|].
  split; [|split; [reflexivity|split]].
  - unfold NQobj_init, init_names, init_kind. cbn [shape_dims dims fst snd length Nat.eqb andb negb bind].
    assert (O : isoper (MkQobj (Coo (S (S n)) (S (S n))
                                    (map (fun i => (i, i, c1)) (seq 0 (S (S n)))))
                               ([S (S n)], [S (S n)])) = true).
    { unfold isoper, type, type_from_dims. cbn [dims fst snd prod_dims fold_right].
      rewrite Nat.mul_1_r. reflexivity. }
    rewrite O.
    rewrite (isherm_eye (S (S n)) _ eq_refl).
    assert (Sm : same_multiset [S (S n)] [S (S n)] = true).
    { unfold same_multiset. simpl.
      destruct (Nat.eq_dec n n); [|congruence]. reflexivity. }
    cbn [dims fst snd]. rewrite Sm.
    unfold same_set, mem. simpl. unfold name_eqb. rewrite String.eqb_refl.
    reflexivity.
  - unfold NQobj_init, init_names, init_kind, isoper, type, type_from_dims.
    cbn [shape_dims dims fst snd length Nat.eqb andb negb bind prod_dims fold_right].
    rewrite Nat.mul_1_r. reflexivity.
  - unfold NQobj_init, init_names, init_kind, isoper, type, type_from_dims, Qobj_dag.
    cbn [shape_dims dims fst snd length Nat.eqb andb negb bind prod_dims fold_right].
    reflexivity.
Qed.

Lemma kind_inference_on_identity_and_basis_witness :
  NQobj_init Examples.eye2 (NamesStr "a") KindNone
  = Raise (ValueError
      "The kind cannot be determined automatically and should be provedid as kw") /\
  NQobj_init Examples.ket0 (NamesStr "x") KindNone = Ok Examples.ket_x.
Proof.
  split.
  - destruct (kind_inference_on_identity_and_basis 2 "a") as (q & b & Q & _ & H & _).
    + lia.
    + injection Q as <-. exact H.
  - destruct (kind_inference_on_identity_and_basis 2 "x")
      as (q & b & _ & Bq & _ & _ & H & _).
    + lia.
    + injection Bq as <-. exact H.
Defined.

(** ** [_permute2] on a pair of orders *)

(** X27.  On a well-formed backend object, with an order of all row
    positions and an order of all column positions, [_permute2] never
    raises: it returns the dimension vectors in the new orders and a
    matrix of the same shape that stores as many values as before, each
    inside the shape, so that the result is well formed again. *)
Theorem _permute2_pair_keeps_well_formed (Q : Qobj) (o0 o1 : list nat) :
  Qobj_wf Q ->
  Permutation o0 (seq 0 (length (fst (dims Q)))) ->
  Permutation o1 (seq 0 (length (snd (dims Q)))) ->
  exists d,
    _permute2 Q (Pair o0 o1)
    = Ok (d, (pick (fst (dims Q)) o0, pick (snd (dims Q)) o1)) /\
    nrows d = nrows (data Q) /\ ncols d = ncols (data Q) /\
    length (trip d) = length (trip (data Q)) /\
    Qobj_wf (MkQobj d (pick (fst (dims Q)) o0, pick (snd (dims Q)) o1)).
Proof.
  intros (Wr & Wc & Wt) P0 P1.
  destruct (perm_seq_in_range _ _ P0) as [L0 F0].
  destruct (perm_seq_in_range _ _ P1) as [L1 F1].
  eexists. split; [now apply _permute2_pair_ok|].
  cbn [nrows ncols trip]. split; [reflexivity|]. split; [reflexivity|].
  split; [apply length_map|].
  unfold Qobj_wf. cbn [data dims nrows ncols trip fst snd].
  rewrite !prod_dims_pick by assumption.
  split; [assumption|]. split; [assumption|].
  apply Forall_forall. intros t Ht. apply in_map_iff in Ht.
  destruct Ht as [[[r c] v] [E Ht]]. subst t.
  rewrite Forall_forall in Wt. destruct (Wt _ Ht) as [Hr Hc].
  cbn [fst snd] in Hr, Hc. unfold permute_trip, in_shape. cbn [fst snd].
  rewrite Wr, Wc in *. split; apply index_map_lt; assumption.
Qed.

Lemma _permute2_pair_keeps_well_formed_witness :
  exists d,
    _permute2 (qobj Examples.op_ab23) (Pair [1; 0] [0; 1])
    = Ok (d, ([3; 2], [2; 3])) /\
    trip d = [(0, 1, c1); (3, 5, Cplx 0 2); (1, 3, c0); (4, 0, Cplx (-1) 1)].
Proof.
  destruct (_permute2_pair_keeps_well_formed (qobj Examples.op_ab23) [1; 0] [0; 1]
              Qobj_wf_op_ab23) as (d & H & _).
  - apply perm_swap.
  - apply Permutation_refl.
  - exists d. split; [exact H|].
    vm_compute in H. now injection H as <-.
Defined.

(** ** The product of operands with the same names *)

Lemma non_excludable_all (ns : list string) (ds : list nat) :
  length ns = length ds -> Forall (fun n => 2 <= n) ds ->
  non_excludable ns ds = ns.
Proof.
  unfold non_excludable. revert ds.
  induction ns as [|a ns IH]; intros [|d ds] L F; try discriminate;
    [reflexivity|].
  inversion F; subst. cbn [combine filter snd].
  destruct (Nat.eqb_spec d 1); [lia|]. cbn [negb map fst].
  f_equal. apply IH; [now injection L | assumption].
Qed.

Lemma keep_unmasked (d0 d1 d : list nat) :
  length d0 = length d1 -> length d = length d0 ->
  Forall (fun n => 2 <= n) d0 ->
  map fst (filter (fun p => negb (snd p))
                  (combine d (map (fun p => option_nat_eqb (fst p) (Some 1) &&
                                            option_nat_eqb (snd p) (Some 1))
                                  (zip_longest d0 d1))))
  = d.
Proof.
  revert d1 d. induction d0 as [|x d0 IH]; intros [|y d1] [|z d] L1 L2 F;
    try discriminate; [reflexivity|].
  inversion F; subst.
  cbn [zip_longest combine map filter fst snd option_nat_eqb].
  destruct (Nat.eqb_spec x 1); [lia|]. cbn [andb negb map fst].
  f_equal. apply IH; [now injection L1 | now injection L2 | assumption].
Qed.

Lemma tidy_dims_keeps (d0 d1 : list nat) :
  length d0 = length d1 -> d0 <> [] ->
  Forall (fun n => 2 <= n) d0 -> Forall (fun n => 2 <= n) d1 ->
  tidy_dims d0 d1 = (d0, d1).
Proof.
  intros L Hne F0 F1. unfold tidy_dims.
  rewrite (keep_unmasked d0 d1 d0), (keep_unmasked d0 d1 d1);
    try assumption; try reflexivity; [|now symmetry].
  destruct d0 as [|x d0]; [contradiction|].
  destruct d1 as [|y d1]; [discriminate|].
  inversion F0; subst. inversion F1; subst.
  destruct x as [|x]; [lia|]. destruct y as [|y]; [lia|]. reflexivity.
Qed.

Lemma prod_dims_ge_1 (d : list nat) :
  Forall (fun n => 2 <= n) d -> 1 <= prod_dims d.
Proof.
  induction 1 as [|x d Hx F IH]; cbn [prod_dims fold_right]; [lia|].
  unfold prod_dims in IH. nia.
Qed.

Lemma prod_dims_ge_2 (d : list nat) :
  d <> [] -> Forall (fun n => 2 <= n) d -> 2 <= prod_dims d.
Proof.
  intros Hne F. destruct d as [|x d]; [contradiction|].
  inversion F; subst. pose proof (prod_dims_ge_1 d H2) as P.
  cbn [prod_dims fold_right]. unfold prod_dims in P. nia.
Qed.

Lemma is_one_dim_opt (ns : list string) (ds : list nat) (name : string) :
  Forall (fun n => 2 <= n) ds -> is_one (dim_opt ns ds name) = false.
Proof.
  intros F. unfold dim_opt. destruct (index_of name ns) as [i|]; [|reflexivity].
  destruct (nth_error ds i) as [v|] eqn:E; [|reflexivity].
  apply nth_error_In in E. rewrite Forall_forall in F. specialize (F v E).
  destruct v as [|[|v]]; try lia. reflexivity.
Qed.

Lemma drop_scalar_modes_none (self other : NQobj) (todo : list string)
      (nm : list string * list string) :
  names_ok self -> Forall (fun n => 2 <= n) (fst (dims (qobj self))) ->
  drop_scalar_modes self other todo nm = Ok nm.
Proof.
  intros (_ & _ & L0 & L1) F.
  induction todo as [|name todo IH]; cbn [drop_scalar_modes]; [reflexivity|].
  unfold _dim_of_name at 1. rewrite !dim_on_opt by assumption. cbn [bind fst].
  rewrite is_one_dim_opt by assumption. cbn [bind]. exact IH.
Qed.

Lemma mul_same_modes (so : set_order) (a b : NQobj) :
  same_modes a b ->
  Qobj_mul (tidyup (qobj a)) (tidyup (qobj b))
  = Ok (Qobj_product (tidyup (qobj a)) (tidyup (qobj b))) /\
  dims (Qobj_product (tidyup (qobj a)) (tidyup (qobj b)))
  = (fst (dims (qobj a)), snd (dims (qobj b))) /\
  __mul__ so a (VNQobj b)
  = Ok (RetNQobj (MkNQobj (Qobj_product (tidyup (qobj a)) (tidyup (qobj b)))
                          (names a) (mul_kind (kind a) (kind b)))).
Proof.
  intros (Na & Wa & Wb & Esq & En & Hne & Ed & Lb & F0 & F & F1).
  assert (Nb : names_ok b).
  { destruct Na as (N0 & N1 & L0 & L1). unfold names_ok. rewrite En, <- Ed.
    repeat split; try assumption;
      [rewrite Esq; assumption | symmetry; assumption]. }
  pose (a2 := MkNQobj (tidyup (qobj a)) (names a) (kind a)).
  pose (b2 := MkNQobj (tidyup (qobj b)) (names a) (kind b)).
  pose (R := Qobj_product (tidyup (qobj a)) (tidyup (qobj b))).
  assert (Hd0 : fst (dims (qobj a)) <> []).
  { destruct Na as (_ & _ & L0 & _). intros C. apply Hne.
    apply length_zero_iff_nil. rewrite L0, C. reflexivity. }
  assert (D : dims R = (fst (dims (qobj a)), snd (dims (qobj b)))).
  { subst R. unfold Qobj_product. cbn [tidyup dims fst snd].
    destruct Na as (_ & _ & L0 & _).
    apply tidy_dims_keeps; try assumption. congruence. }
  assert (M : Qobj_mul (tidyup (qobj a)) (tidyup (qobj b)) = Ok R).
  { unfold Qobj_mul. cbn [tidyup dims data tidy_coo nrows ncols].
    rewrite Ed.
    assert (T : list_nat_eqb (fst (dims (qobj b))) (fst (dims (qobj b))) = true)
      by now apply list_nat_eqb_eq.
    rewrite T.
    destruct Wa as (Ar & Ac & At), Wb as (Br & Bc & Bt).
    assert (S : ncols (data (qobj a)) = nrows (data (qobj b))) by congruence.
    now rewrite S, Nat.eqb_refl. }
  split; [exact M|]. split; [exact D|].
  assert (Ov : _mul_overlap a b = Ok (fst (names a))).
  { unfold _mul_overlap.
    rewrite names_for_overlap_right, names_for_overlap_left by assumption.
    cbn [bind]. unfold right_names_for_overlap, left_names_for_overlap.
    destruct Na as (N0 & N1 & L0 & L1).
    rewrite !non_excludable_all; try assumption;
      [| rewrite En, <- Ed, Esq; assumption | rewrite <- Ed; assumption].
    rewrite En, <- Esq.
    destruct (kind_eqb (kind b) state && kind_eqb (kind a) oper);
      now rewrite dedupe_twice. }
  assert (Req : _mul_find_required_names a b = Ok (names a, names a)).
  { unfold _mul_find_required_names. rewrite Ov. cbn [bind].
    rewrite En, <- Esq. destruct Na as (N0 & _).
    rewrite !dedupe_twice by assumption.
    destruct (names a) as [n0 n1]. cbn [fst snd] in *. now subst. }
  assert (Ops : mul_operands so a b = Ok (a2, b2, (names a, names a))).
  { unfold mul_operands. rewrite Req. cbn [bind fst snd].
    rewrite En, !missing_none, !missing_dict_none. cbn [bind].
    rewrite !adding_no_modes by assumption. cbn [bind].
    rewrite permute_tidied by assumption. cbn [bind].
    pose proof (permute_tidied b Nb Wb) as Pb. rewrite En in Pb.
    rewrite En, Pb. cbn [bind]. now rewrite !tidyup_idem. }
  unfold __mul__. rewrite Ops. cbn [bind]. subst a2 b2. cbn [qobj].
  rewrite M. cbn [bind].
  assert (Sh : (fst (shape R) =? 1) = false).
  { apply Nat.eqb_neq. subst R.
    unfold Qobj_product.
    cbn [shape fst tidyup data tidy_coo matmul nrows].
    destruct Wa as (Ar & _). rewrite Ar.
    pose proof (prod_dims_ge_2 _ Hd0 F0). lia. }
  rewrite Sh. cbn [andb].
  rewrite drop_scalar_modes_none;
    [| exact Na | assumption].
  cbn [bind fst snd kind].
  assert (I : NQobj_init R (NamesPair (fst (names a)) (snd (names a)))
                         (KindGiven (mul_kind (kind a) (kind b)))
              = Ok (MkNQobj R (names a) (mul_kind (kind a) (kind b)))).
  { apply NQobj_init_pair_iff. rewrite D. cbn [fst snd].
    destruct Na as (N0 & N1 & L0 & L1).
    repeat split; try assumption; [now destruct (names a) | now symmetry]. }
  now rewrite I.
Qed.

(** X28.  For two well-formed objects that carry one and the same list of
    names on all four axes, with matching inner dimension vectors and no
    dimension below two, [a * b] needs no filler and no reordering: it
    returns the named object with those names whose dimension vectors are
    the row dimensions of [a] and the column dimensions of [b], whose kind
    follows the kinds of the operands, and whose backend object is the
    backend's product of the two backend objects, each tidied up. *)
Theorem mul_same_names_is_backend_product (so : set_order) (a b : NQobj) :
  names_ok a -> Qobj_wf (qobj a) -> Qobj_wf (qobj b) ->
  fst (names a) = snd (names a) -> names b = names a ->
  fst (names a) <> [] ->
  snd (dims (qobj a)) = fst (dims (qobj b)) ->
  length (snd (dims (qobj b))) = length (snd (names a)) ->
  Forall (fun n => 2 <= n) (fst (dims (qobj a))) ->
  Forall (fun n => 2 <= n) (snd (dims (qobj a))) ->
  Forall (fun n => 2 <= n) (snd (dims (qobj b))) ->
  exists r,
    __mul__ so a (VNQobj b) = Ok (RetNQobj r) /\
    names r = names a /\
    kind r = mul_kind (kind a) (kind b) /\
    dims (qobj r) = (fst (dims (qobj a)), snd (dims (qobj b))) /\
    Qobj_mul (tidyup (qobj a)) (tidyup (qobj b)) = Ok (qobj r).
Proof.
  intros Na Wa Wb Esq En Hne Ed Lb F0 F F1.
  destruct (mul_same_modes so a b) as (M & D & H).
  { exact (conj Na (conj Wa (conj Wb (conj Esq (conj En (conj Hne
            (conj Ed (conj Lb (conj F0 (conj F F1)))))))))). }
  eexists. split; [exact H|]. repeat split; assumption.
Qed.

Lemma mul_same_names_is_backend_product_witness :
  exists r,
    __mul__ Examples.insertion_order Examples.op_ab23 (VNQobj Examples.op_ab23)
      = Ok (RetNQobj r) /\
    names r = names Examples.op_ab23 /\
    dims (qobj r) = ([2; 3], [2; 3]) /\
    Qobj_mul (tidyup (qobj Examples.op_ab23)) (tidyup (qobj Examples.op_ab23))
    = Ok (qobj r).
Proof.
  destruct (mul_same_names_is_backend_product Examples.insertion_order
              Examples.op_ab23 Examples.op_ab23
              names_ok_op_ab23 Qobj_wf_op_ab23 Qobj_wf_op_ab23
              eq_refl eq_refl) as (r & H & N & _ & D & E).
  - discriminate.
  - reflexivity.
  - reflexivity.
  - repeat constructor.
  - repeat constructor.
  - repeat constructor.
  - exists r. repeat split; assumption.
Defined.

(** ** The kind of a product *)

Lemma same_modes_op_ab23 (ka kb : kind_t) :
  same_modes (MkNQobj (qobj Examples.op_ab23) (names Examples.op_ab23) ka)
             (MkNQobj (qobj Examples.op_ab23) (names Examples.op_ab23) kb).
Proof.
  unfold same_modes. cbn [qobj names].
  split; [exact names_ok_op_ab23|].
  split; [exact Qobj_wf_op_ab23|].
  split; [exact Qobj_wf_op_ab23|].
  repeat split; try reflexivity; try discriminate; repeat constructor.
Qed.

(** C6.  A named object that [__mul__] of two named objects returns has
    kind operator for two operators, operator for two states, and state
    for an operator and a state in either order.  When the backend product
    of the prepared operands is not 1x1, whatever [__mul__] returns is a
    named object, of that kind.  And the product does return a named
    object of that kind, whatever the kinds of the operands, when both
    carry one and the same non-empty list of names on all four axes, with
    matching inner dimension vectors and no dimension below two. *)
Theorem mul_result_kind (so : set_order) (a b : NQobj) :
  (forall r,
     __mul__ so a (VNQobj b) = Ok (RetNQobj r) ->
     (kind a = oper -> kind b = oper -> kind r = oper) /\
     (kind a = state -> kind b = state -> kind r = oper) /\
     (kind a <> kind b -> kind r = state)) /\
  (forall R ret,
     mul_backend_result so a b = Ok R ->
     (fst (shape R) =? 1) && (snd (shape R) =? 1) = false ->
     __mul__ so a (VNQobj b) = Ok ret ->
     exists r,
       ret = RetNQobj r /\
       (kind a = oper -> kind b = oper -> kind r = oper) /\
       (kind a = state -> kind b = state -> kind r = oper) /\
       (kind a <> kind b -> kind r = state)) /\
  (same_modes a b ->
   exists r,
     __mul__ so a (VNQobj b) = Ok (RetNQobj r) /\
     names r = names a /\
     (kind a = oper -> kind b = oper -> kind r = oper) /\
     (kind a = state -> kind b = state -> kind r = oper) /\
     (kind a <> kind b -> kind r = state)).
Proof.
  assert (T : forall r,
     __mul__ so a (VNQobj b) = Ok (RetNQobj r) ->
     (kind a = oper -> kind b = oper -> kind r = oper) /\
     (kind a = state -> kind b = state -> kind r = oper) /\
     (kind a <> kind b -> kind r = state)).
  { unfold __mul__. intros r H. bind_inv H. destruct v as [[a2 b2] [ns no]].
    bind_inv H. destruct (_ && _); [discriminate|].
    bind_inv H. bind_inv H. inversion H; subst.
    apply NQobj_init_kind in E2. apply mul_operands_kind in E.
    destruct E as [Ea Eb]. rewrite E2, Ea, Eb.
    repeat split.
    - intros -> ->. reflexivity.
    - intros -> ->. reflexivity.
    - destruct (kind a), (kind b); intros Hk; try reflexivity; congruence. }
  split; [exact T|]. split.
  - intros R ret HR Hs H.
    assert (N : exists r, ret = RetNQobj r).
    { unfold mul_backend_result in HR. bind_inv HR.
      destruct v as [[a2 b2] [ns no]].
      unfold __mul__ in H. rewrite E in H. cbn [bind] in H.
      rewrite HR in H. cbn [bind] in H. rewrite Hs in H.
      bind_inv H. bind_inv H. inversion H. eauto. }
    destruct N as [r ->]. exists r. split; [reflexivity|]. exact (T r H).
  - intros S. destruct (mul_same_modes so a b S) as (_ & _ & H).
    eexists. split; [exact H|]. split; [reflexivity|]. exact (T _ H).
Qed.

Lemma mul_result_kind_witness :
  (exists r,
     __mul__ Examples.insertion_order Examples.op_a (VNQobj Examples.op_b)
       = Ok (RetNQobj r) /\
     kind r = oper) /\
  (exists r,
     __mul__ Examples.insertion_order Examples.ket_x (VNQobj Examples.bra_x)
       = Ok (RetNQobj r) /\
     kind r = oper) /\
  (exists r,
     __mul__ Examples.insertion_order Examples.op_b (VNQobj Examples.ket_b)
       = Ok (RetNQobj r) /\
     kind r = state) /\
  (exists r,
     __mul__ Examples.insertion_order
             (MkNQobj Examples.bra0 (["b"], ["b"])%string state)
             (VNQobj Examples.op_b)
       = Ok (RetNQobj r) /\
     kind r = state) /\
  (exists r,
     __mul__ Examples.reverse_order
             (MkNQobj (qobj Examples.op_ab23) (names Examples.op_ab23) state)
             (VNQobj (MkNQobj (qobj Examples.op_ab23)
                              (names Examples.op_ab23) state))
       = Ok (RetNQobj r) /\
     names r = names Examples.op_ab23 /\
     kind r = oper) /\
  (exists r,
     __mul__ Examples.reverse_order
             (MkNQobj (qobj Examples.op_ab23) (names Examples.op_ab23) state)
             (VNQobj (MkNQobj (qobj Examples.op_ab23)
                              (names Examples.op_ab23) oper))
       = Ok (RetNQobj r) /\
     names r = names Examples.op_ab23 /\
     kind r = state).
Proof.
  split; [|split; [|split; [|split; [|split]]]].
  - eexists. split; [reflexivity|].
    refine (proj1 (proj1 (mul_result_kind Examples.insertion_order
                            Examples.op_a Examples.op_b) _ _) _ _);
      reflexivity.
  - destruct (proj1 (proj2 (mul_result_kind Examples.insertion_order
                               Examples.ket_x Examples.bra_x))
                    _ _ eq_refl eq_refl eq_refl) as (r & E & _ & K & _).
    exists r. split; [now rewrite <- E | now apply K].
  - eexists. split; [reflexivity|].
    refine (proj2 (proj2 (proj1 (mul_result_kind Examples.insertion_order
                                   Examples.op_b Examples.ket_b) _ _)) _);
      [reflexivity | discriminate].
  - eexists. split; [reflexivity|].
    refine (proj2 (proj2 (proj1 (mul_result_kind Examples.insertion_order
                                   (MkNQobj Examples.bra0
                                            (["b"], ["b"])%string state)
                                   Examples.op_b) _ _)) _);
      [reflexivity | discriminate].
  - destruct (proj2 (proj2 (mul_result_kind Examples.reverse_order _ _))
                    (same_modes_op_ab23 state state))
      as (r & H & N & _ & K & _).
    exists r. repeat split; [exact H | exact N | now apply K].
  - destruct (proj2 (proj2 (mul_result_kind Examples.reverse_order _ _))
                    (same_modes_op_ab23 state oper))
      as (r & H & N & _ & _ & K).
    exists r. repeat split; [exact H | exact N | apply K; discriminate].
Defined.

(** ** [expand] and [expm] *)

Lemma foldM_app {A S : Type} (f : S -> A -> result S) (l1 l2 : list A) (s : S) :
  foldM f (l1 ++ l2) s = (s' <- foldM f l1 s ;; foldM f l2 s').
Proof.
  revert s. induction l1 as [|a l1 IH]; intros s; simpl; [reflexivity|].
  destruct (f s a); simpl; auto.
Qed.

Lemma dim_opt_Some (ns : list string) (ds : list nat) (name : string) :
  length ns = length ds -> In name ns ->
  dim_opt ns ds name = Some (dim_of ns ds name).
Proof.
  intros L I. unfold dim_opt, dim_of, pos.
  destruct (index_of_In name ns I) as [i E]. rewrite E.
  apply index_of_Some in E. destruct E as [_ Hi].
  apply nth_error_nth'. lia.
Qed.

Lemma map_dim_of_self (ns : list string) (ds : list nat) :
  NoDup ns -> length ns = length ds -> map (dim_of ns ds) ns = ds.
Proof.
  intros N L. rewrite <- pick_positions, positions_self by assumption.
  rewrite L. unfold pick. apply map_nth_seq.
Qed.

Lemma expand_rows (dimf : string -> nat) (ks : list string) :
  (forall k, In k ks -> 1 <= dimf k) ->
  forall (q : Qobj) (nm : list string * list string),
  exists q',
    foldM expand_step (map (fun k => (k, (@None nat, Some (dimf k)))) ks) (q, nm)
    = Ok (q', (fst nm ++ ks, snd nm)) /\
    dims q' = (fst (dims q) ++ map dimf ks, snd (dims q)).
Proof.
  induction ks as [|k ks IH]; intros H q nm.
  - exists q. simpl. rewrite !app_nil_r. split.
    + now destruct nm.
    + now destruct (dims q).
  - assert (Hk : 1 <= dimf k) by (apply H; now left).
    destruct (dimf k) as [|n] eqn:E; [lia|].
    cbn [map foldM]. rewrite E.
    cbn [expand_step basis bind qt_tensor fold_left].
    match goal with
    | |- context [foldM expand_step _ (?q1, ?nm1)] =>
        destruct (IH (fun k' Hk' => H k' (or_intror Hk')) q1 nm1)
          as (q' & F & D)
    end.
    exists q'. rewrite F. cbn [fst snd dims tidyup kron_step] in *.
    rewrite removelast_last in D. rewrite D.
    rewrite <- !app_assoc. split; reflexivity.
Qed.

Lemma expand_cols (dimf : string -> nat) (ks : list string) :
  (forall k, In k ks -> 1 <= dimf k) ->
  forall (q : Qobj) (nm : list string * list string),
  exists q',
    foldM expand_step (map (fun k => (k, (Some (dimf k), @None nat))) ks) (q, nm)
    = Ok (q', (fst nm, snd nm ++ ks)) /\
    dims q' = (fst (dims q), snd (dims q) ++ map dimf ks).
Proof.
  induction ks as [|k ks IH]; intros H q nm.
  - exists q. simpl. rewrite !app_nil_r. split.
    + now destruct nm.
    + now destruct (dims q).
  - assert (Hk : 1 <= dimf k) by (apply H; now left).
    destruct (dimf k) as [|n] eqn:E; [lia|].
    cbn [map foldM]. rewrite E.
    cbn [expand_step basis bind qt_tensor fold_left].
    match goal with
    | |- context [foldM expand_step _ (?q1, ?nm1)] =>
        destruct (IH (fun k' Hk' => H k' (or_intror Hk')) q1 nm1)
          as (q' & F & D)
    end.
    exists q'. rewrite F. cbn [fst snd dims tidyup kron_step Qobj_dag] in *.
    rewrite removelast_last in D. rewrite D.
    rewrite <- !app_assoc. split; reflexivity.
Qed.

Lemma prod_dims_pos (l : list nat) :
  Forall (fun n => 1 <= n) l -> 1 <= prod_dims l.
Proof.
  induction 1 as [|a l Ha F IH]; cbn [prod_dims fold_right]; [lia|].
  unfold prod_dims in IH. nia.
Qed.

Lemma prod_one_all_ones (l : list nat) :
  Forall (fun n => 1 <= n) l -> prod_dims l = 1 -> Forall (fun n => n = 1) l.
Proof.
  induction 1 as [|a l Ha F IH]; intros H; [constructor|].
  cbn [prod_dims fold_right] in H. pose proof (prod_dims_pos l F) as P.
  unfold prod_dims in *. constructor; [nia|]. apply IH. nia.
Qed.

Lemma all_ones_eq (a b : list nat) :
  Forall (fun n => n = 1) a -> Forall (fun n => n = 1) b ->
  length a = length b -> a = b.
Proof.
  revert b. induction a as [|x a IH]; intros [|y b] Fa Fb L;
    try discriminate; [reflexivity|].
  inversion Fa; inversion Fb; subst. f_equal. apply IH; auto.
Qed.

Lemma dim_of_positive (ns : list string) (ds : list nat) (name : string) :
  length ns = length ds -> Forall (fun n => 1 <= n) ds -> In name ns ->
  1 <= dim_of ns ds name.
Proof.
  intros L F I. unfold dim_of. destruct (pos_In ns name I) as [Hp _].
  rewrite Forall_forall in F. apply F. apply nth_In. lia.
Qed.

Section ExpandReturns.

Variable so : set_order.
Variable x : NQobj.
Hypothesis Nx : names_ok x.
Hypothesis Pos0 : Forall (fun n => 1 <= n) (fst (dims (qobj x))).
Hypothesis Pos1 : Forall (fun n => 1 <= n) (snd (dims (qobj x))).
Hypothesis Same :
  forall name, In name (fst (names x)) -> In name (snd (names x)) ->
    dim_of (fst (names x)) (fst (dims (qobj x))) name
    = dim_of (snd (names x)) (snd (dims (qobj x))) name.

Lemma required_is_all_names :
  dedupe (fst (names x) ++ snd (names x)) = all_names x.
Proof.
  destruct Nx as (N0 & N1 & _). now apply dedupe_app_NoDup.
Qed.

Lemma all_names_In (y : string) :
  In y (all_names x) <-> In y (fst (names x)) \/ In y (snd (names x)).
Proof. rewrite <- required_is_all_names, dedupe_In. apply in_app_iff. Qed.

Lemma all_names_NoDup : NoDup (all_names x).
Proof. rewrite <- required_is_all_names. apply dedupe_NoDup. Qed.

Lemma dim_either_rows (name : string) :
  In name (fst (names x)) ->
  dim_either x name = dim_of (fst (names x)) (fst (dims (qobj x))) name.
Proof. intros I. unfold dim_either. apply mem_In in I. now rewrite I. Qed.

Lemma dim_either_cols (name : string) :
  In name (snd (names x)) ->
  dim_either x name = dim_of (snd (names x)) (snd (dims (qobj x))) name.
Proof.
  intros I. unfold dim_either. destruct (mem name (fst (names x))) eqn:E;
    [|reflexivity].
  apply mem_In in E. now apply Same.
Qed.

Lemma dim_either_positive (name : string) :
  In name (all_names x) -> 1 <= dim_either x name.
Proof.
  destruct Nx as (N0 & N1 & L0 & L1). intros I. apply all_names_In in I.
  destruct (in_dec string_dec name (fst (names x))) as [I0|I0].
  - rewrite dim_either_rows by assumption. now apply dim_of_positive.
  - destruct I as [I|I]; [contradiction|].
    rewrite dim_either_cols by assumption. now apply dim_of_positive.
Qed.

Lemma dims_by_dim_either :
  dims (qobj x) = (map (dim_either x) (fst (names x)),
                   map (dim_either x) (snd (names x))).
Proof.
  destruct Nx as (N0 & N1 & L0 & L1).
  rewrite (map_ext_in _ _ _ dim_either_rows),
          (map_ext_in _ _ _ dim_either_cols).
  rewrite !map_dim_of_self by assumption. now destruct (dims (qobj x)).
Qed.

Lemma expand_same_names :
  fst (names x) = snd (names x) ->
  expand so x = Ok x /\
  names x = (all_names x, all_names x) /\
  dims (qobj x) = (map (dim_either x) (all_names x),
                   map (dim_either x) (all_names x)).
Proof.
  intros E. assert (A : all_names x = fst (names x)).
  { unfold all_names. rewrite <- E, without_self. apply app_nil_r. }
  split; [|split].
  - unfold expand. apply names_eqb_eq in E. now rewrite E.
  - rewrite A. destruct (names x). cbn [fst snd] in *. now subst.
  - rewrite dims_by_dim_either, A. now rewrite <- E.
Qed.

Lemma expand_other_names :
  fst (names x) <> snd (names x) ->
  exists r,
    expand so x = Ok r /\
    names r = (all_names x, all_names x) /\ kind r = kind x /\
    dims (qobj r) = (map (dim_either x) (all_names x),
                     map (dim_either x) (all_names x)).
Proof.
  intros Hne. pose proof Nx as (N0 & N1 & L0 & L1).
  unfold expand.
  assert (Eb : names_eqb (fst (names x)) (snd (names x)) = false).
  { destruct (names_eqb _ _) eqn:E; [|reflexivity].
    apply names_eqb_eq in E. contradiction. }
  rewrite Eb, required_is_all_names.
  set (req := all_names x).
  set (m0 := fst (_find_missing_names so (names x) (req, req))).
  set (m1 := snd (_find_missing_names so (names x) (req, req))).
  assert (M0 : forall y, In y m0 <-> In y (snd (names x)) /\ ~ In y (fst (names x))).
  { intros y. subst m0. unfold _find_missing_names. cbn [fst snd].
    rewrite missing_In. subst req. rewrite all_names_In. tauto. }
  assert (M1 : forall y, In y m1 <-> In y (fst (names x)) /\ ~ In y (snd (names x))).
  { intros y. subst m1. unfold _find_missing_names. cbn [fst snd].
    rewrite missing_In. subst req. rewrite all_names_In. tauto. }
  assert (D0 : NoDup m0) by apply enum_NoDup.
  assert (D1 : NoDup m1) by apply enum_NoDup.
  assert (K : dedupe (m0 ++ m1) = m0 ++ m1).
  { apply dedupe_id. apply NoDup_app; try assumption.
    intros a Ha Hb. apply M0 in Ha. apply M1 in Hb. tauto. }
  rewrite K.
  assert (Dict :
    mapM (fun name => d <- _dim_of_name x name ;; Ok (name, d)) (m0 ++ m1)
    = Ok (map (fun k => (k, (@None nat,
                             Some (dim_of (snd (names x)) (snd (dims (qobj x))) k))))
              m0 ++
          map (fun k => (k, (Some (dim_of (fst (names x)) (fst (dims (qobj x))) k),
                             @None nat)))
              m1)).
  { rewrite (mapM_ok_map _
               (fun name => (name, (dim_opt (fst (names x)) (fst (dims (qobj x))) name,
                                    dim_opt (snd (names x)) (snd (dims (qobj x))) name)))).
    - rewrite map_app. f_equal. f_equal.
      + apply map_ext_in. intros k Hk. apply M0 in Hk. destruct Hk as [I1 I0].
        rewrite (dim_opt_Some _ _ _ L1 I1).
        apply (dim_opt_None _ (fst (dims (qobj x))) _ L0) in I0. now rewrite I0.
      + apply map_ext_in. intros k Hk. apply M1 in Hk. destruct Hk as [I0 I1].
        rewrite (dim_opt_Some _ _ _ L0 I0).
        apply (dim_opt_None _ (snd (dims (qobj x))) _ L1) in I1. now rewrite I1.
    - intros name _. unfold _dim_of_name.
      now rewrite !dim_on_opt by assumption. }
  rewrite Dict. cbn [bind]. rewrite foldM_app.
  destruct (expand_rows (dim_of (snd (names x)) (snd (dims (qobj x)))) m0)
    with (q := qobj x) (nm := names x) as (q1 & F1 & Dq1).
  { intros k Hk. apply M0 in Hk. now apply dim_of_positive. }
  rewrite F1. cbn [bind].
  destruct (expand_cols (dim_of (fst (names x)) (fst (dims (qobj x)))) m1)
    with (q := q1) (nm := (fst (names x) ++ m0, snd (names x)))
    as (q2 & F2 & Dq2).
  { intros k Hk. apply M1 in Hk. now apply dim_of_positive. }
  rewrite F2. cbn [bind fst snd].
  rewrite Dq1 in Dq2. cbn [fst snd] in Dq2.
  set (n0' := fst (names x) ++ m0) in *.
  set (n1' := snd (names x) ++ m1) in *.
  assert (Dq : dims q2 = (map (dim_either x) n0', map (dim_either x) n1')).
  { rewrite Dq2. subst n0' n1'. rewrite !map_app.
    pose proof dims_by_dim_either as E. 
    assert (E0 : fst (dims (qobj x)) = map (dim_either x) (fst (names x)))
      by now rewrite E.
    assert (E1 : snd (dims (qobj x)) = map (dim_either x) (snd (names x)))
      by now rewrite E.
    rewrite <- E0, <- E1. f_equal; f_equal; apply map_ext_in; intros k Hk.
    - apply M0 in Hk. symmetry. now apply dim_either_cols.
    - apply M1 in Hk. symmetry. now apply dim_either_rows. }
  assert (ND0 : NoDup n0').
  { apply NoDup_app; try assumption. intros a Ha Hb. apply M0 in Hb. tauto. }
  assert (ND1 : NoDup n1').
  { apply NoDup_app; try assumption. intros a Ha Hb. apply M1 in Hb. tauto. }
  assert (In0 : forall y, In y n0' <-> In y req).
  { intros y. subst n0' req. rewrite in_app_iff, M0, all_names_In.
    destruct (in_dec string_dec y (fst (names x))); tauto. }
  assert (In1 : forall y, In y n1' <-> In y req).
  { intros y. subst n1' req. rewrite in_app_iff, M1, all_names_In.
    destruct (in_dec string_dec y (snd (names x))); tauto. }
  assert (Pr0 : Permutation req n0').
  { apply NoDup_Permutation; [apply all_names_NoDup | assumption |].
    intros y. symmetry. apply In0. }
  assert (Pr1 : Permutation req n1').
  { apply NoDup_Permutation; [apply all_names_NoDup | assumption |].
    intros y. symmetry. apply In1. }
  pose (x' := MkNQobj q2 (n0', n1') (kind x)).
  assert (Nx' : names_ok x').
  { unfold names_ok, x'. cbn [names qobj fst snd]. rewrite Dq. cbn [fst snd].
    rewrite !length_map. repeat split; assumption. }
  assert (I : NQobj_init q2 (NamesPair n0' n1') (KindGiven (kind x)) = Ok x').
  { apply NQobj_init_pair_iff. destruct Nx' as (A & B & C & D).
    repeat split; assumption. }
  rewrite I. cbn [bind].
  destruct (list_eq_dec string_dec n0' n1') as [Eq|Neq].
  - (* one list of positions for both axes *)
    assert (Fl : permute x' (OrderNames req) = Ok (permuted_flat x' req)).
    { apply permute_flat_ok; try assumption.
      - intros _. unfold x'. cbn [qobj]. rewrite Dq. cbn [fst snd].
        now rewrite Eq. }
    exists (permuted_flat x' req). split; [exact Fl|].
    split; [reflexivity|]. split; [reflexivity|].
    unfold permuted_flat, x'. cbn [qobj names kind dims tidyup fst snd].
    rewrite Dq. cbn [fst snd]. rewrite <- Eq.
    unfold type, type_from_dims. rewrite Dq. cbn [fst snd]. rewrite <- Eq.
    assert (Pk : pick (map (dim_either x) n0') (map (pos n0') req)
                 = map (dim_either x) req).
    { rewrite pick_positions. apply map_dim_of_map; [assumption|].
      intros y Hy. now apply In0. }
    destruct (prod_dims (map (dim_either x) n0') =? 1) eqn:P1.
    + cbn [flat_dims]. rewrite Pk. f_equal.
      apply Nat.eqb_eq in P1.
      assert (Ones : Forall (fun n => n = 1) (map (dim_either x) n0')).
      { apply prod_one_all_ones; [|assumption].
        apply Forall_forall. intros d Hd. apply in_map_iff in Hd.
        destruct Hd as [k [<- Hk]]. apply dim_either_positive.
        now apply In0. }
      apply all_ones_eq; [assumption | |].
      * apply Forall_forall. intros d Hd. apply in_map_iff in Hd.
        destruct Hd as [k [<- Hk]]. rewrite Forall_forall in Ones.
        apply Ones. apply in_map. now apply In0.
      * rewrite !length_map. symmetry. now apply Permutation_length.
    + cbn [flat_dims]. now rewrite Pk.
  - (* a list of positions for each axis *)
    assert (Pp : permute x' (OrderNames req) = Ok (permuted x' req req)).
    { rewrite permute_names_as_pair by exact Neq.
      apply permute_pair_ok; try assumption. }
    exists (permuted x' req req). split; [exact Pp|].
    split; [apply permuted_names|]. split; [reflexivity|].
    rewrite permuted_dims. unfold x'. cbn [qobj names fst snd].
    rewrite Dq. cbn [fst snd].
    rewrite !map_dim_of_map; try assumption; try reflexivity;
      intros y Hy; [now apply In1 | now apply In0].
Qed.

Lemma expand_returns :
  exists r,
    expand so x = Ok r /\
    names r = (all_names x, all_names x) /\ kind r = kind x /\
    dims (qobj r) = (map (dim_either x) (all_names x),
                     map (dim_either x) (all_names x)).
Proof.
  destruct (list_eq_dec string_dec (fst (names x)) (snd (names x))) as [E|E].
  - destruct (expand_same_names E) as (H & N & D). exists x.
    repeat split; assumption.
  - now apply expand_other_names.
Qed.

End ExpandReturns.

(** X29.  For an object with the name invariant whose dimensions are all
    positive and in which a name that stands on both axes has the same
    dimension on both, [expand] never raises: it returns an object of the
    same kind whose two name lists are both the row names followed by the
    column names the row axis lacks, and in which every name has, on both
    axes, the dimension it had in the receiver. *)
Theorem expand_gives_every_name_to_both_axes (so : set_order) (x : NQobj) :
  names_ok x ->
  Forall (fun n => 1 <= n) (fst (dims (qobj x))) ->
  Forall (fun n => 1 <= n) (snd (dims (qobj x))) ->
  (forall name, In name (fst (names x)) -> In name (snd (names x)) ->
     dim_of (fst (names x)) (fst (dims (qobj x))) name
     = dim_of (snd (names x)) (snd (dims (qobj x))) name) ->
  exists r,
    expand so x = Ok r /\
    names r = (all_names x, all_names x) /\ kind r = kind x /\
    dims (qobj r) = (map (dim_either x) (all_names x),
                     map (dim_either x) (all_names x)).
Proof. intros N P0 P1 S. now apply expand_returns. Qed.

Lemma expand_gives_every_name_to_both_axes_witness :
  exists r,
    expand Examples.reverse_order Examples.op_ab = Ok r /\
    names r = (["a"; "b"], ["a"; "b"])%string /\ kind r = oper /\
    dims (qobj r) = ([2; 2], [2; 2]).
Proof.
  apply (expand_gives_every_name_to_both_axes Examples.reverse_order
                                              Examples.op_ab).
  - repeat constructor; simpl; tauto.
  - repeat constructor.
  - repeat constructor.
  - intros name [<-|[]] [E|[]]. discriminate.
Defined.

Section ExpmExpands.

Context {B : Backend}.

(** X30.  Under the same conditions [expm] never raises the [ValueError]
    for submatrices that are not square: the backend exponential receives
    the backend object of the expanded receiver, and its result is named
    on both axes by the names of the expanded receiver and keeps the
    kind. *)
Theorem expm_expands_before_the_backend (so : set_order) (x : NQobj) :
  names_ok x ->
  Forall (fun n => 1 <= n) (fst (dims (qobj x))) ->
  Forall (fun n => 1 <= n) (snd (dims (qobj x))) ->
  (forall name, In name (fst (names x)) -> In name (snd (names x)) ->
     dim_of (fst (names x)) (fst (dims (qobj x))) name
     = dim_of (snd (names x)) (snd (dims (qobj x))) name) ->
  exists r,
    expand so x = Ok r /\
    expm so x =
      (q <- qt_expm (qobj r) ;;
       NQobj_init q (NamesPair (all_names x) (all_names x))
                  (KindGiven (kind x))).
Proof.
  intros N P0 P1 S.
  destruct (expand_returns so x N P0 P1 S) as (r & E & Nr & Kr & Dr).
  exists r. split; [exact E|]. unfold expm.
  assert (Sq : names_eqb (fst (names r)) (snd (names r)) &&
               list_nat_eqb (fst (dims (qobj r))) (snd (dims (qobj r))) = true).
  { rewrite Nr, Dr. cbn [fst snd]. apply andb_true_iff.
    split; [now apply names_eqb_eq | now apply list_nat_eqb_eq]. }
  destruct (names_eqb (fst (names x)) (snd (names x)) &&
            list_nat_eqb (fst (dims (qobj x))) (snd (dims (qobj x)))) eqn:C.
  - apply andb_true_iff in C. destruct C as [C _].
    unfold expand in E. rewrite C in E. injection E as <-.
    rewrite Nr. reflexivity.
  - rewrite E. cbn [bind].
    assert (P : permute r (OrderNamesPair (fst (names r)) (fst (names r)))
                = Ok (permuted r (fst (names r)) (fst (names r)))).
    { apply permute_pair_ok.
      - exact (expand_names_ok so x r N E).
      - apply Permutation_refl.
      - rewrite Nr. apply Permutation_refl. }
    rewrite P. cbn [bind]. rewrite Sq, Nr, Kr. reflexivity.
Qed.

End ExpmExpands.

Lemma expm_expands_before_the_backend_witness :
  exists r,
    expand Examples.reverse_order Examples.op_ab = Ok r /\
    @expm (Build_Backend exact_ptrace exact_proj not_provided exact_pow
                         (fun q => Ok q))
          Examples.reverse_order Examples.op_ab
    = Ok (MkNQobj (qobj r) (["a"; "b"], ["a"; "b"])%string oper).
Proof.
  destruct (@expm_expands_before_the_backend
              (Build_Backend exact_ptrace exact_proj not_provided exact_pow
                             (fun q => Ok q))
              Examples.reverse_order Examples.op_ab) as (r & E & H).
  - repeat constructor; simpl; tauto.
  - repeat constructor.
  - repeat constructor.
  - intros name [<-|[]] [E|[]]. discriminate.
  - exists r. split; [exact E|]. rewrite H.
    vm_compute in E. injection E as <-. reflexivity.
Defined.
